(** * The avatar chat backend: request handlers of the Express server

    A shallow embedding of the server module (the [/chat], [/transcribe],
    [/voices] and [/] handlers together with their helpers), followed by
    the properties of the pipeline contract.

    JavaScript strings are sequences of UTF-16 code units, file contents
    are byte sequences, and every value that travels through a handler (a
    request body, a parsed completion, a cached entry, a response payload)
    is a [JsVal].  A handler is a computation on the state of the process
    (cache, files, fallback lists) that returns or throws and records what
    it does outside the process; the completion and speech services, the
    two command-line tools, the clock and the JSON parser of the runtime
    are an environment the handler is run against.

    A request is followed from its arrival to the moment nothing of it is
    left running, with no other request in between, and every call outside
    the process is taken to return. *)

From Stdlib Require Import ZArith NArith Ascii String List Strings.Byte Lia.
From Stdlib Require Import DecimalString DecimalNat.
From stdpp Require Import gmap list.

Set Warnings "-register-all".

(** ** Strings *)

(** A JavaScript string: its UTF-16 code units. *)
Abbreviation jstring := (list N).

(** The code units of an ASCII literal of the source. *)
Definition lit (s : string) : jstring :=
  map N_of_ascii (list_ascii_of_string s).
Arguments lit s%_string.

Module Str.

Definition is_lower (c : N) : bool := ((97 <=? c) && (c <=? 122))%N.
Definition is_upper (c : N) : bool := ((65 <=? c) && (c <=? 90))%N.
Definition is_digit (c : N) : bool := ((48 <=? c) && (c <=? 57))%N.

(** The character class [a-zA-Z0-9]. *)
Definition is_alnum (c : N) : bool := is_lower c || is_upper c || is_digit c.

(** [s.replace(/[^a-zA-Z0-9]/g, '_')]: without the [u] flag the class is
    tested on each code unit. *)
Definition replace_non_alnum (s : jstring) : jstring :=
  map (fun c => if is_alnum c then c else 95%N) s.

(** [Some r] when [p] is a prefix of [s], [r] being what follows it. *)
Fixpoint strip_prefix (p s : jstring) : option jstring :=
  match p, s with
  | [], _ => Some s
  | a :: p', b :: s' => if (a =? b)%N then strip_prefix p' s' else None
  | _ :: _, [] => None
  end.

Definition has_prefix (p s : jstring) : bool :=
  match strip_prefix p s with Some _ => true | None => false end.

(** Length of the match of [/```json\n?|\n?```/] anchored at the head of
    [s]: the first alternative is tried first, and each optional line
    feed is greedy. *)
Definition fence_match (s : jstring) : option nat :=
  match strip_prefix (lit "```json") s with
  | Some (10%N :: _) => Some 8
  | Some _ => Some 7
  | None =>
      match s with
      | 10%N :: s' => if has_prefix (lit "```") s' then Some 4 else None
      | _ => if has_prefix (lit "```") s then Some 3 else None
      end
  end.

(** The global replace by the empty string: scan from the left, drop
    each match ([skip] counts the code units of the current match still
    to drop) and resume after it. *)
Fixpoint drop_fences (skip : nat) (s : jstring) : jstring :=
  match s with
  | [] => []
  | c :: s' =>
      match skip with
      | S k => drop_fences k s'
      | O =>
          match fence_match s with
          | Some n => drop_fences (pred n) s'
          | None => c :: drop_fences 0 s'
          end
      end
  end.

(** [s.replace(/```json\n?|\n?```/g, '')]. *)
Definition strip_fences (s : jstring) : jstring := drop_fences 0 s.

(** White space and line terminators, as [String.prototype.trim] sees
    them. *)
Definition is_space (c : N) : bool :=
  ((9 <=? c) && (c <=? 13) || (c =? 32) || (c =? 160) || (c =? 5760)
   || (8192 <=? c) && (c <=? 8202) || (c =? 8232) || (c =? 8233)
   || (c =? 8239) || (c =? 8287) || (c =? 12288) || (c =? 65279))%N.

Fixpoint trim_start (s : jstring) : jstring :=
  match s with
  | c :: s' => if is_space c then trim_start s' else s
  | [] => []
  end.

Definition trim (s : jstring) : jstring :=
  rev (trim_start (rev (trim_start s))).

(** The character class [\x00-\x1F\x7F-\x9F]. *)
Definition is_control (c : N) : bool :=
  ((c <=? 31) || (127 <=? c) && (c <=? 159))%N.

(** [s.replace(/[\x00-\x1F\x7F-\x9F]/g, '')]. *)
Definition strip_control (s : jstring) : jstring :=
  filter (fun c => is_control c = false) s.

(** Decimal numeral of an array index, as a template literal prints it. *)
Definition of_nat (n : nat) : jstring :=
  lit (NilZero.string_of_uint (Nat.to_uint n)).

End Str.

(** ** Values *)

(** What a handler can throw, and what an evaluation ends with. *)
Inductive Exn : Type :=
| TypeError | SyntaxError | HttpError | IoError | ExecError.

Inductive Res (A : Type) : Type :=
| Ok (a : A)
| Thrown (e : Exn).
Arguments Ok {A} a.
Arguments Thrown {A} e.

(** A JavaScript value.  The handlers never compute with a number, they
    only test it and print it, so a number is given by the string that
    JavaScript prints for it ([12], [-3], [0.5], [1e+21], [NaN],
    [Infinity]); the two zeros both print as [0], and nothing in the
    handlers tells them apart.  An object is the list of its own
    properties in insertion order. *)
Inductive JsVal : Type :=
| JUndefined
| JNull
| JBool (b : bool)
| JNum (repr : jstring)
| JStr (s : jstring)
| JArr (items : list JsVal)
| JObj (props : list (jstring * JsVal)).

(** What [if (v)], [!v] and [v || w] test. *)
Definition truthy (v : JsVal) : bool :=
  match v with
  | JUndefined | JNull => false
  | JBool b => b
  | JNum repr => negb (bool_decide (repr = lit "0") || bool_decide (repr = lit "NaN"))
  | JStr s => match s with [] => false | _ :: _ => true end
  | JArr _ | JObj _ => true
  end.

(** [v || w]. *)
Definition js_or (v w : JsVal) : JsVal := if truthy v then v else w.

(** [Array.isArray(v)]. *)
Definition isArray (v : JsVal) : bool :=
  match v with JArr _ => true | _ => false end.

Fixpoint own_property (k : jstring) (props : list (jstring * JsVal)) : option JsVal :=
  match props with
  | [] => None
  | (k', v) :: rest => if decide (k' = k) then Some v else own_property k rest
  end.

(** [o.k = x] on the property list: an existing property keeps its place. *)
Fixpoint set_property (k : jstring) (x : JsVal) (props : list (jstring * JsVal))
  : list (jstring * JsVal) :=
  match props with
  | [] => [(k, x)]
  | (k', v) :: rest =>
      if decide (k' = k) then (k', x) :: rest else (k', v) :: set_property k x rest
  end.

(** [message.k = x]; the handlers assign to message objects only. *)
Definition assign (o : JsVal) (k : jstring) (x : JsVal) : JsVal :=
  match o with
  | JObj props => JObj (set_property k x props)
  | _ => o
  end.

(** The string a template literal substitutes for [v].  An array prints
    its elements separated by commas, [null] and [undefined] among them
    as nothing.  An object prints as [[object Object]], unless it has a
    property of its own named [toString]: the values of the handlers come
    from JSON, none of them is a function, so the conversion finds
    nothing it can call (the inherited [valueOf] gives the object back)
    and throws a [TypeError]. *)
Fixpoint toString (v : JsVal) : Res jstring :=
  match v with
  | JUndefined => Ok (lit "undefined")
  | JNull => Ok (lit "null")
  | JBool true => Ok (lit "true")
  | JBool false => Ok (lit "false")
  | JNum repr => Ok repr
  | JStr s => Ok s
  | JArr items =>
      (fix join (l : list JsVal) : Res jstring :=
         match l with
         | [] => Ok []
         | x :: r =>
             match (match x with JUndefined | JNull => Ok [] | _ => toString x end) with
             | Thrown e => Thrown e
             | Ok sx =>
                 match r with
                 | [] => Ok sx
                 | _ :: _ =>
                     match join r with
                     | Thrown e => Thrown e
                     | Ok sr => Ok (sx ++ lit "," ++ sr)
                     end
                 end
             end
         end) items
  | JObj props =>
      match own_property (lit "toString") props with
      | Some _ => Thrown TypeError
      | None => Ok (lit "[object Object]")
      end
  end.

(** ** Base64 *)

Module Base64.

Definition digit (n : N) : N :=
  (if n <? 26 then 65 + n
   else if n <? 52 then 97 + (n - 26)
   else if n <? 62 then 48 + (n - 52)
   else if n =? 62 then 43 else 47)%N.

(** [buffer.toString("base64")]: three bytes give four digits, the last
    group is padded with [=]. *)
Fixpoint encode (bs : list byte) : jstring :=
  match bs with
  | [] => []
  | [a] =>
      let x := Byte.to_N a in
      [digit (x / 4); digit (x mod 4 * 16); 61; 61]%N
  | [a; b] =>
      let x := Byte.to_N a in
      let y := Byte.to_N b in
      [digit (x / 4); digit (x mod 4 * 16 + y / 16); digit (y mod 16 * 4); 61]%N
  | a :: b :: c :: rest =>
      let x := Byte.to_N a in
      let y := Byte.to_N b in
      let z := Byte.to_N c in
      [digit (x / 4); digit (x mod 4 * 16 + y / 16);
       digit (y mod 16 * 4 + z / 64); digit (z mod 64)]%N ++ encode rest
  end.

End Base64.

(** ** The process and its surroundings *)

(** The two static message lists of [fallbackMessages]. *)
Record Fallback : Type := mkFallback { noApiKey : JsVal; error : JsVal }.

(** What a handler does outside the process. *)
Inductive Event : Type :=
| EvVoices                              (* GET  .../v1/audio/voices *)
| EvTranscription (audioBase64 : JsVal) (* POST .../v1/audio/transcriptions *)
| EvCompletion (userMessage : jstring)  (* chat.completions.create *)
| EvSpeech (input : JsVal)              (* POST .../v1/audio/speech *)
| EvExec (command : jstring)            (* child_process.exec *)
| EvRead (file : jstring)               (* fs.readFile *)
| EvWrite (file : jstring).             (* createWriteStream + pipeline *)

Definition is_network (e : Event) : bool :=
  match e with
  | EvVoices | EvTranscription _ | EvCompletion _ | EvSpeech _ => true
  | _ => false
  end.

Definition is_exec (e : Event) : bool :=
  match e with EvExec _ => true | _ => false end.

(** The mutable state a handler works on: the cache with the expiry time
    of each entry (in milliseconds), the files on disk, the fallback lists
    and the record of what was done outside the process. *)
Record World : Type := mkWorld {
  cache : gmap jstring (JsVal * Z);
  files : gmap jstring (list byte);
  fallbackMessages : Fallback;
  trace : list Event
}.

Definition with_cache (c : gmap jstring (JsVal * Z)) (w : World) : World :=
  mkWorld c (files w) (fallbackMessages w) (trace w).
Definition with_files (f : gmap jstring (list byte)) (w : World) : World :=
  mkWorld (cache w) f (fallbackMessages w) (trace w).
Definition with_fallback (fb : Fallback) (w : World) : World :=
  mkWorld (cache w) (files w) fb (trace w).
Definition with_trace (t : list Event) (w : World) : World :=
  mkWorld (cache w) (files w) (fallbackMessages w) t.

(** The places of [/chat] at which the cache is used; the clock is read at
    each of them. *)
Inductive Instant : Type :=
| AtLookup                     (* cache.get(cacheKey) *)
| AtGreetingStore              (* cache.set(cacheKey, messages), greeting *)
| AtLipSync                    (* cache.get(lipSyncCacheKey), all messages *)
| AtLipSyncStore (index : nat) (* cache.set(lipSyncCacheKey, ...) *)
| AtStore.                     (* cache.set(cacheKey, messages) *)

(** Answer of the speech endpoint followed by the copy into the file. *)
Inductive SpeechOutcome : Type :=
| SpeechOk (body : list byte)       (* 2xx, body written completely *)
| SpeechRefused                     (* fetch rejected, or not ok *)
| SpeechBroken (partial : list byte). (* 2xx, the stream failed midway *)

(** How everything outside the process answers while one request is
    handled.  Nothing is assumed of the fields: the properties are proved
    for every environment. *)
Record Env : Type := mkEnv {
  (* Date.now() at each use of the cache *)
  now : Instant -> Z;
  (* JSON.parse; None when it throws *)
  JSON_parse : jstring -> option JsVal;
  (* decoding of a file read with the "utf8" option *)
  utf8_decode : list byte -> jstring;
  (* Buffer.from(v, "base64"); None when it throws *)
  buffer_from : JsVal -> option (list byte);
  (* fs.readFile rejects on this path although the file may exist *)
  read_fault : jstring -> bool;
  (* content of choices[0].message of the completion for a user message;
     None when the call rejects or the reply has no such choice *)
  completion : jstring -> option JsVal;
  (* speech request for the message at an index, with its input *)
  speech : nat -> JsVal -> SpeechOutcome;
  (* whether a shell command exits with status zero *)
  exec_ok : jstring -> bool;
  (* what a tool that succeeded leaves in its output file *)
  tool_output : jstring -> list byte;
  (* parsed answer of the transcription endpoint; None: rejected or not ok *)
  transcription : list byte -> option JsVal;
  (* parsed answer of the voice listing; None: rejected or not ok *)
  voices : option JsVal
}.

(** ** Computations *)

(** A computation runs on the world and either returns or throws. *)
Definition M (A : Type) : Type := World -> Res A * World.

Definition ret {A} (a : A) : M A := fun w => (Ok a, w).
Definition throw {A} (e : Exn) : M A := fun w => (Thrown e, w).

Definition bind {A B} (m : M A) (k : A -> M B) : M B :=
  fun w =>
    match m w with
    | (Ok a, w') => k a w'
    | (Thrown e, w') => (Thrown e, w')
    end.

(** [try { m } catch (e) { h e }]. *)
Definition try_catch {A} (m : M A) (h : Exn -> M A) : M A :=
  fun w =>
    match m w with
    | (Ok a, w') => (Ok a, w')
    | (Thrown e, w') => h e w'
    end.

(** Runs [m] and hands its completion to the caller as a value. *)
Definition attempt {A} (m : M A) : M (Res A) :=
  fun w => let (r, w') := m w in (Ok r, w').

Definition gets {A} (f : World -> A) : M A := fun w => (Ok (f w), w).
Definition modify (f : World -> World) : M unit := fun w => (Ok tt, f w).
Definition emit (e : Event) : M unit :=
  modify (fun w => with_trace (trace w ++ [e]) w).
Definition lift {A} (r : Res A) : M A := fun w => (r, w).

Declare Scope js_scope.
Delimit Scope js_scope with js.
Notation "x <- m ;; k" := (bind m (fun x => k))
  (at level 100, m at next level, right associativity) : js_scope.
Notation "m ;;; k" := (bind m (fun _ => k))
  (at level 100, right associativity) : js_scope.
Open Scope js_scope.

(** [await Promise.all(ps)]: the join resolves to the results in index
    order, or rejects when a task rejects; the other tasks are not
    cancelled, so every task runs to its end.  The tasks of one stage
    touch different files and read no cache entry that another one sets,
    so their results do not depend on the order in which they run; they
    are run in index order.  (Two tasks set the same cache key only when
    their messages have the same text, and the entry that stays is then
    the one of the task that ends last.) *)
Fixpoint promise_all {A} (ps : list (M A)) : M (list A) :=
  match ps with
  | [] => ret []
  | p :: rest =>
      fun w =>
        let (r, w1) := p w in
        let (rs, w2) := promise_all rest w1 in
        (match r, rs with
         | Ok a, Ok l => Ok (a :: l)
         | Thrown e, _ => Thrown e
         | Ok _, Thrown e => Thrown e
         end, w2)
  end.

(** [v.k] for the property names the handlers read ([message],
    [audioBase64], [messages], [text], [facialExpression], [animation]),
    none of which is inherited from a prototype. *)
Definition member (v : JsVal) (k : jstring) : Res JsVal :=
  match v with
  | JUndefined | JNull => Thrown TypeError
  | JObj props => Ok (default JUndefined (own_property k props))
  | _ => Ok JUndefined
  end.

(** ** The response cache *)

(** The store behind [new NodeCache({ stdTTL: 3600 })] is a dependency of
    the server, not part of it.  An entry carries the instant after which
    it is gone, in milliseconds; zero stands for "never". *)
Module Cache.

(** [stdTTL: 3600], in seconds. *)
Definition stdTTL : Z := 3600.

(** Modelled from the spec: an entry of the store of section 4.4 is
    present until its expiry has passed. *)
Definition live (t : Z) (entry : JsVal * Z) : bool :=
  (snd entry =? 0)%Z || (t <=? snd entry)%Z.

(** Modelled from the spec: [get(key)] of section 4.4 at time [t],
    [undefined] for a missing or expired key. *)
Definition get (t : Z) (c : gmap jstring (JsVal * Z)) (key : jstring) : JsVal :=
  match c !! key with
  | Some entry => if live t entry then fst entry else JUndefined
  | None => JUndefined
  end.

(** Modelled from the spec: [set(key, value)] of section 4.4 at time [t],
    the expiry being applied when the entry is set. *)
Definition set (t : Z) (c : gmap jstring (JsVal * Z)) (key : jstring) (value : JsVal)
  : gmap jstring (JsVal * Z) :=
  <[key := (value, (t + stdTTL * 1000)%Z)]> c.

End Cache.

(** ** The server *)

Record Response : Type := mkResponse { status : Z; payload : JsVal }.

(** [res.send(v)] and [res.status(n).send(v)]. *)
Definition send (v : JsVal) : M Response := ret (mkResponse 200 v).
Definition status_send (n : Z) (v : JsVal) : M Response := ret (mkResponse n v).

(** [{ messages: v }], [{ error: v }] and [{ text: v }]. *)
Definition messages_body (v : JsVal) : JsVal := JObj [(lit "messages", v)].
Definition error_body (v : jstring) : JsVal := JObj [(lit "error", JStr v)].
Definition text_body (v : JsVal) : JsVal := JObj [(lit "text", v)].

(** The value of [fallbackMessages] when the module is loaded. *)
Definition fallbackMessages0 : Fallback :=
  {| noApiKey :=
       JArr [JObj [(lit "text", JStr (lit "Please my dear, don't forget to add your Lemonfox API key!"));
                   (lit "audio", JStr []);
                   (lit "lipsync", JObj []);
                   (lit "facialExpression", JStr (lit "angry"));
                   (lit "animation", JStr (lit "Angry"))]];
     error :=
       JArr [JObj [(lit "text", JStr (lit "Oops, something went wrong! Can you try again, dear?"));
                   (lit "audio", JStr []);
                   (lit "lipsync", JObj []);
                   (lit "facialExpression", JStr (lit "sad"));
                   (lit "animation", JStr (lit "Crying"))]] |}.

(** [list[0].k = x]. *)
Definition assign_first (list : JsVal) (k : jstring) (x : JsVal) : JsVal :=
  match list with
  | JArr (o :: rest) => JArr (assign o k x :: rest)
  | _ => list
  end.

Section Server.

(** The credential the module reads when it is loaded. *)
Variable lemonfoxApiKey : jstring.

Variable E : Env.

(** [lemonfoxApiKey === "-"]. *)
Definition no_credential : bool := bool_decide (lemonfoxApiKey = lit "-").

Definition cache_get (i : Instant) (key : jstring) : M JsVal :=
  gets (fun w => Cache.get (now E i) (cache w) key).

Definition cache_set (i : Instant) (key : jstring) (value : JsVal) : M unit :=
  modify (fun w => with_cache (Cache.set (now E i) (cache w) key value) w).

(** [fs.readFile(file)]. *)
Definition readFile (file : jstring) : M (list byte) :=
  emit (EvRead file) ;;;
  if read_fault E file then throw IoError
  else
    content <- gets (fun w => files w !! file) ;;
    match content with
    | Some data => ret data
    | None => throw IoError
    end.

(** The file holds [data] from now on, whatever it held before. *)
Definition writeFile (file : jstring) (data : list byte) : M unit :=
  modify (fun w => with_files (<[file := data]> (files w)) w).

Definition readJsonTranscript (file : jstring) : M JsVal :=
  data <- readFile file ;;
  match JSON_parse E (utf8_decode E data) with
  | Some v => ret v
  | None => throw SyntaxError
  end.

Definition audioFileToBase64 (file : jstring) : M JsVal :=
  data <- readFile file ;;
  ret (JStr (Base64.encode data)).

(** One assignment of the start-up block: [list[0].k = await read.catch(() => dflt)]. *)
Definition preload_field (pick : Fallback -> JsVal) (put : JsVal -> Fallback -> Fallback)
    (k : jstring) (read : M JsVal) (dflt : JsVal) : M unit :=
  x <- try_catch read (fun _ => ret dflt) ;;
  modify (fun w =>
    with_fallback (put (assign_first (pick (fallbackMessages w)) k x) (fallbackMessages w)) w).

Definition put_noApiKey (v : JsVal) (fb : Fallback) : Fallback := mkFallback v (error fb).
Definition put_error (v : JsVal) (fb : Fallback) : Fallback := mkFallback (noApiKey fb) v.

(** The start-up block that loads the audio of the fallback lists.  A
    handler [() => {}] yields [undefined]. *)
Definition preload : M unit :=
  preload_field noApiKey put_noApiKey (lit "audio")
    (audioFileToBase64 (lit "audios/api_0.wav")) (JStr []) ;;;
  preload_field noApiKey put_noApiKey (lit "lipsync")
    (readJsonTranscript (lit "audios/api_0.json")) JUndefined ;;;
  preload_field error put_error (lit "audio")
    (audioFileToBase64 (lit "audios/api_0.wav")) (JStr []) ;;;
  preload_field error put_error (lit "lipsync")
    (readJsonTranscript (lit "audios/api_0.json")) JUndefined.

(** [GET /]. *)
Definition get_root : M Response := send (JStr (lit "Hello World!")).

(** [GET /voices]. *)
Definition get_voices : M Response :=
  try_catch
    (emit EvVoices ;;;
     match voices E with
     | Some v => send v
     | None => throw HttpError
     end)
    (fun _ => status_send 500 (error_body (lit "Failed to fetch voices"))).

(** [execCommand(command)]: the promise rejects when the command fails. *)
Definition execCommand (command : jstring) : M unit :=
  emit (EvExec command) ;;;
  if exec_ok E command then ret tt else throw ExecError.

(** A tool that succeeded has written its output file. *)
Definition tool_wrote (file : jstring) : M unit :=
  writeFile file (tool_output E file).

Definition ffmpeg_command (mp3Path wavPath : jstring) : jstring :=
  lit "ffmpeg -y -i " ++ mp3Path ++ lit " " ++ wavPath.

Definition convertMp3ToWav (mp3Path wavPath : jstring) : M unit :=
  execCommand (ffmpeg_command mp3Path wavPath) ;;;
  tool_wrote wavPath.

Definition message_file (index : nat) (ext : string) : jstring :=
  lit "audios/message_" ++ Str.of_nat index ++ lit ext.

Definition rhubarb_command (index : nat) (wavPath : jstring) : jstring :=
  lit "bin\rhubarb.exe -f json -o " ++ message_file index ".json"
    ++ lit " " ++ wavPath ++ lit " -r phonetic".

Definition lipSyncMessage (index : nat) : M unit :=
  let mp3Path := message_file index ".mp3" in
  let wavPath := message_file index ".wav" in
  convertMp3ToWav mp3Path wavPath ;;;
  execCommand (rhubarb_command index wavPath) ;;;
  tool_wrote (message_file index ".json").

(** [POST /transcribe]. *)
Definition post_transcribe (body : JsVal) : M Response :=
  audioBase64 <- lift (member body (lit "audioBase64")) ;;
  if negb (truthy audioBase64) || no_credential then
    status_send 400 (error_body (lit "Missing audio or API key"))
  else
    try_catch
      (match buffer_from E audioBase64 with
       | None => throw TypeError
       | Some audioBuffer =>
           emit (EvTranscription audioBase64) ;;;
           match transcription E audioBuffer with
           | None => throw HttpError
           | Some data =>
               text <- lift (member data (lit "text")) ;;
               send (text_body text)
           end
       end)
      (fun _ => status_send 500 (error_body (lit "Transcription failed"))).

(** [s.replace(...)] on a value: anything but a string has no callable
    [replace]. *)
Definition as_string (v : JsVal) : Res jstring :=
  match v with
  | JStr s => Ok s
  | _ => Thrown TypeError
  end.

(** The key under which [/chat] caches the reply to a user message. *)
Definition chat_cache_key (userMessage : jstring) : jstring :=
  lit "response_" ++ Str.replace_non_alnum userMessage.

(** The scripted greeting. *)
Definition greeting (audio lipsync : JsVal) : JsVal :=
  JArr [JObj [(lit "text", JStr (lit "Hey dear... How was your day?"));
              (lit "audio", audio);
              (lit "lipsync", lipsync);
              (lit "facialExpression", JStr (lit "smile"));
              (lit "animation", JStr (lit "Talking_1"))]].

(** The two clean-up replacements and the trim between them. *)
Definition clean (rawContent : jstring) : jstring :=
  Str.strip_control (Str.trim (Str.strip_fences rawContent)).

(** Body of the inner [try]: parse, then normalise to an array. *)
Definition parse_messages (rawContent : jstring) : Res JsVal :=
  match JSON_parse E rawContent with
  | None => Thrown SyntaxError
  | Some messages =>
      match member messages (lit "messages") with
      | Thrown e => Thrown e
      | Ok inner =>
          if truthy inner then Ok inner
          else if negb (isArray messages) then Ok (JArr [messages])
          else Ok messages
      end
  end.

(** An object with the five properties of a message, in the order of the
    literal in the validating [map]. *)
Definition chat_message (text facialExpression animation audio lipsync : JsVal) : JsVal :=
  JObj [(lit "text", text);
        (lit "facialExpression", facialExpression);
        (lit "animation", animation);
        (lit "audio", audio);
        (lit "lipsync", lipsync)].

(** The callback of the validating [map]. *)
Definition validate (msg : JsVal) : Res JsVal :=
  match member msg (lit "text") with
  | Thrown e => Thrown e
  | Ok text =>
      match member msg (lit "facialExpression") with
      | Thrown e => Thrown e
      | Ok facialExpression =>
          match member msg (lit "animation") with
          | Thrown e => Thrown e
          | Ok animation =>
              Ok (chat_message
                    (js_or text (JStr (lit "Oops, something went wrong!")))
                    (js_or facialExpression (JStr (lit "default")))
                    (js_or animation (JStr (lit "Idle")))
                    (JStr [])
                    (JObj []))
          end
      end
  end.

(** [items.map(f)] for a callback without effects that may throw. *)
Fixpoint map_res {A B} (f : A -> Res B) (items : list A) : Res (list B) :=
  match items with
  | [] => Ok []
  | x :: rest =>
      match f x with
      | Thrown e => Thrown e
      | Ok y =>
          match map_res f rest with
          | Thrown e => Thrown e
          | Ok ys => Ok (y :: ys)
          end
      end
  end.

(** [messages.map(...)]: only an array has a callable [map]. *)
Definition validate_all (messages : JsVal) : Res (list JsVal) :=
  match messages with
  | JArr items => map_res validate items
  | _ => Thrown TypeError
  end.

(** What a speech task resolves to: [{ fileName, message, index }]. *)
Record TtsResult : Type := mkTtsResult {
  fileName : jstring;
  message : JsVal;
  index : nat
}.

(** The callback of [ttsPromises]. *)
Definition ttsTask (i : nat) (message : JsVal) : M TtsResult :=
  let fileName := message_file i ".mp3" in
  textInput <- lift (member message (lit "text")) ;;
  emit (EvSpeech textInput) ;;;
  match speech E i textInput with
  | SpeechRefused => throw HttpError
  | SpeechBroken partial =>
      emit (EvWrite fileName) ;;; writeFile fileName partial ;;; throw IoError
  | SpeechOk body =>
      emit (EvWrite fileName) ;;; writeFile fileName body ;;;
      ret (mkTtsResult fileName message i)
  end.

Definition lipSyncCacheKey (message : JsVal) : Res jstring :=
  match member message (lit "text") with
  | Thrown e => Thrown e
  | Ok text =>
      match toString text with
      | Thrown e => Thrown e
      | Ok printed => Ok (lit "lipsync_" ++ printed)
      end
  end.

(** The callback of [lipSyncPromises] up to its first [await]: the key
    and the cache are read while [map] is still building the list of
    promises, so every message of a reply sees the cache as the stage
    found it.  A throw in this part rejects the promise of the message;
    it is handed to the rest of the callback. *)
Definition lipSyncLookup (r : TtsResult) : M (Res (jstring * JsVal)) :=
  attempt
    (key <- lift (lipSyncCacheKey (message r)) ;;
     cachedLipSync <- cache_get AtLipSync key ;;
     ret (key, cachedLipSync)).

(** The rest of the callback.  The [try] block assigns to the message as
    it goes, and the [catch] block assigns [audio] and [lipsync] again,
    so what a failed [try] left in the message is never seen. *)
Definition lipSyncTask (r : TtsResult) (looked : Res (jstring * JsVal)) : M JsVal :=
  match looked with
  | Thrown e => throw e
  | Ok (key, cachedLipSync) =>
      if truthy cachedLipSync then
        audio <- audioFileToBase64 (fileName r) ;;
        ret (assign (assign (message r) (lit "lipsync") cachedLipSync) (lit "audio") audio)
      else
        try_catch
          (lipSyncMessage (index r) ;;;
           audio <- audioFileToBase64 (fileName r) ;;
           lipsync <- readJsonTranscript (message_file (index r) ".json") ;;
           cache_set (AtLipSyncStore (index r)) key lipsync ;;;
           ret (assign (assign (message r) (lit "audio") audio) (lit "lipsync") lipsync))
          (fun _ =>
             audio <- audioFileToBase64 (fileName r) ;;
             ret (assign (assign (message r) (lit "audio") audio) (lit "lipsync") (JObj [])))
  end.

(** The synchronous parts of the callbacks, one after the other. *)
Fixpoint for_each {A B} (f : A -> M B) (items : list A) : M (list B) :=
  match items with
  | [] => ret []
  | x :: rest => y <- f x ;; ys <- for_each f rest ;; ret (y :: ys)
  end.

(** [await Promise.all(ttsResults.map(async ...))]. *)
Definition lipSyncStage (ttsResults : list TtsResult) : M (list JsVal) :=
  looked <- for_each lipSyncLookup ttsResults ;;
  promise_all (zip_with lipSyncTask ttsResults looked).

(** The outer [try] block of [/chat]. *)
Definition chat_pipeline (userMessage cacheKey : jstring) : M Response :=
  emit (EvCompletion userMessage) ;;;
  match completion E userMessage with
  | None => throw HttpError
  | Some content =>
      rawContent <- lift (as_string content) ;;
      let rawContent := clean rawContent in
      match parse_messages rawContent with
      | Thrown _ =>
          fb <- gets fallbackMessages ;;
          status_send 500 (messages_body (error fb))
      | Ok messages =>
          messages <- lift (validate_all messages) ;;
          ttsResults <- promise_all (imap ttsTask messages) ;;
          messages <- lipSyncStage ttsResults ;;
          cache_set AtStore cacheKey (JArr messages) ;;;
          send (messages_body (JArr messages))
      end
  end.

(** [POST /chat]. *)
Definition post_chat (body : JsVal) : M Response :=
  userMessage <- lift (member body (lit "message")) ;;
  text <- lift (as_string userMessage) ;;
  let cacheKey := chat_cache_key text in
  cachedResponse <- cache_get AtLookup cacheKey ;;
  if truthy cachedResponse then
    send (messages_body cachedResponse)
  else if negb (truthy userMessage) then
    audio <- try_catch (audioFileToBase64 (lit "audios/intro_0.wav"))
                       (fun _ => ret (JStr [])) ;;
    lipsync <- try_catch (readJsonTranscript (lit "audios/intro_0.json"))
                         (fun _ => ret JUndefined) ;;
    let messages := greeting audio lipsync in
    cache_set AtGreetingStore cacheKey messages ;;;
    send (messages_body messages)
  else if no_credential then
    fb <- gets fallbackMessages ;;
    send (messages_body (noApiKey fb))
  else
    try_catch
      (chat_pipeline text cacheKey)
      (fun _ =>
         fb <- gets fallbackMessages ;;
         status_send 500 (messages_body (error fb))).

End Server.

(** ** Runs of the server *)

(** The worlds the process can be in: it starts with an empty cache and
    the fallback lists of the module, and from then on the start-up block
    and the handlers run, each against an environment of its own, while
    the files may change from outside. *)
Inductive reachable (lemonfoxApiKey : jstring) : World -> Prop :=
| reach_start (disk : gmap jstring (list byte)) :
    reachable lemonfoxApiKey (mkWorld ∅ disk fallbackMessages0 [])
| reach_preload (E : Env) (w : World) :
    reachable lemonfoxApiKey w ->
    reachable lemonfoxApiKey (snd (preload E w))
| reach_root (w : World) :
    reachable lemonfoxApiKey w ->
    reachable lemonfoxApiKey (snd (get_root w))
| reach_voices (E : Env) (w : World) :
    reachable lemonfoxApiKey w ->
    reachable lemonfoxApiKey (snd (get_voices E w))
| reach_transcribe (E : Env) (body : JsVal) (w : World) :
    reachable lemonfoxApiKey w ->
    reachable lemonfoxApiKey (snd (post_transcribe lemonfoxApiKey E body w))
| reach_chat (E : Env) (body : JsVal) (w : World) :
    reachable lemonfoxApiKey w ->
    reachable lemonfoxApiKey (snd (post_chat lemonfoxApiKey E body w))
| reach_disk (disk : gmap jstring (list byte)) (w : World) :
    reachable lemonfoxApiKey w ->
    reachable lemonfoxApiKey (with_files disk w).

(** The events a computation adds to the record. *)
Definition performed {A} (m : M A) (w : World) : list Event :=
  drop (length (trace w)) (trace (snd (m w))).

(** A request body [{ message: text }]. *)
Definition chat_request (text : jstring) : JsVal :=
  JObj [(lit "message", JStr text)].

(** ** Vocabulary of the proofs *)

(** What a computation is allowed to touch: the cache keys it may set,
    the files it may write and the commands it may run. *)
Record Footprint : Type := mkFootprint {
  may_store : jstring -> Prop;
  may_write : jstring -> Prop;
  may_exec : jstring -> Prop
}.

(** [changes F w w']: from [w] to [w'] the cache and the files differ at
    most where [F] allows, and the record has grown by events whose
    commands [F] allows. *)
Definition changes (F : Footprint) (w w' : World) : Prop :=
  (forall k, ~ may_store F k -> cache w' !! k = cache w !! k)
  /\ (forall f, ~ may_write F f -> files w' !! f = files w !! f)
  /\ exists new, trace w' = trace w ++ new
                 /\ forall c, EvExec c ∈ new -> may_exec F c.

(** [within F m]: running [m] stays inside the footprint [F]. *)
Definition within (F : Footprint) {A} (m : M A) : Prop :=
  forall w, changes F w (snd (m w)).

(** The footprint that restricts the cache keys only. *)
Definition stores_only (P : jstring -> Prop) : Footprint :=
  mkFootprint P (fun _ => True) (fun _ => True).

(** What the synchronous part of the lip-sync callback finds for a speech
    result when the stage starts in world [w]. *)
Definition looked_up (E : Env) (w : World) (r : TtsResult) : Res (jstring * JsVal) :=
  match lipSyncCacheKey (message r) with
  | Thrown e => Thrown e
  | Ok key => Ok (key, Cache.get (now E AtLipSync) (cache w) key)
  end.

(** The commands [lipSyncMessage] runs for the message at an index. *)
Definition ffmpeg_of (i : nat) : jstring :=
  ffmpeg_command (message_file i ".mp3") (message_file i ".wav").
Definition rhubarb_of (i : nat) : jstring :=
  rhubarb_command i (message_file i ".wav").

(** What the lip-sync task of a speech result needs from a footprint when
    the stage starts in world [w]: nothing if the text of the message has
    a usable cache entry, and otherwise its key, its two commands and
    their output files. *)
Definition lipsync_allowed (F : Footprint) (E : Env) (w : World) (r : TtsResult) : Prop :=
  forall key,
    lipSyncCacheKey (message r) = Ok key ->
    truthy (Cache.get (now E AtLipSync) (cache w) key) = false ->
    may_store F key
    /\ may_write F (message_file (index r) ".wav")
    /\ may_write F (message_file (index r) ".json")
    /\ may_exec F (ffmpeg_of (index r))
    /\ may_exec F (rhubarb_of (index r)).

(** What a speech task that succeeds resolves to. *)
Definition tts_result (i : nat) (message : JsVal) : TtsResult :=
  mkTtsResult (message_file i ".mp3") message i.

(** The footprint of the conversion and extraction of one message. *)
Definition lipsync_files (i : nat) : Footprint :=
  mkFootprint (fun _ => True)
    (fun f => f = message_file i ".wav" \/ f = message_file i ".json")
    (fun _ => True).

(** The speech files written after the one of index [k]. *)
Definition later_speech_files (k : nat) : Footprint :=
  mkFootprint (fun _ => False)
    (fun f => exists i, f = message_file (S k + i) ".mp3")
    (fun _ => False).

(** [v.k], or [undefined] where the read would throw. *)
Definition field (v : JsVal) (k : jstring) : JsVal :=
  match member v k with
  | Ok x => x
  | Thrown _ => JUndefined
  end.

(** The bytes the speech endpoint returns for the message at an index. *)
Definition speech_audio (E : Env) (i : nat) (m : JsVal) : option (list byte) :=
  match speech E i (field m (lit "text")) with
  | SpeechOk body => Some body
  | _ => None
  end.

(** What the cache holds for the text of a message when the lip-sync
    stage starts in world [w]. *)
Definition cached_lipsync (E : Env) (w : World) (m : JsVal) : JsVal :=
  match lipSyncCacheKey m with
  | Ok key => Cache.get (now E AtLipSync) (cache w) key
  | Thrown _ => JUndefined
  end.

(** The timing data the message at index [i] ends up with, given what the
    cache held for its text. *)
Definition lipsync_result (E : Env) (cached : JsVal) (i : nat) : JsVal :=
  if truthy cached then cached
  else if exec_ok E (ffmpeg_of i) && exec_ok E (rhubarb_of i)
          && negb (read_fault E (message_file i ".json")) then
    match JSON_parse E (utf8_decode E (tool_output E (message_file i ".json"))) with
    | Some lipsync => lipsync
    | None => JObj []
    end
  else JObj [].

Definition with_media (m audio lipsync : JsVal) : JsVal :=
  assign (assign m (lit "audio") audio) (lit "lipsync") lipsync.

(** The message at index [i] as the pipeline returns it when nothing
    rejects. *)
Definition finished (E : Env) (w : World) (i : nat) (m : JsVal) : JsVal :=
  match speech_audio E i m with
  | Some body =>
      with_media m (JStr (Base64.encode body))
        (lipsync_result E (cached_lipsync E w m) i)
  | None => m
  end.

(** A message as the validating [map] leaves it. *)
Definition validated (m : JsVal) : Prop :=
  exists text facialExpression animation,
    m = chat_message text facialExpression animation (JStr []) (JObj []).

(** [E] with another answer to "does this command succeed". *)
Definition with_exec_ok (f : jstring -> bool) (E : Env) : Env :=
  mkEnv (now E) (JSON_parse E) (utf8_decode E) (buffer_from E) (read_fault E)
    (completion E) (speech E) f (tool_output E) (transcription E) (voices E).

(** How the pipeline fills a property of a message from a parsed entry:
    the value of the entry if it counts as true, the default otherwise,
    and so the default when the entry has no such property. *)
Definition fills (k : jstring) (dflt : JsVal) (entry m : JsVal) : Prop :=
  field m k = js_or (field entry k) dflt
  /\ (field entry k = JUndefined -> field m k = dflt).

(** What the caller gets for a parsed entry: an object with the five
    properties, the first three filled from the entry. *)
Definition returned_for (entry m : JsVal) : Prop :=
  (exists text facialExpression animation audio lipsync,
      m = chat_message text facialExpression animation audio lipsync)
  /\ fills (lit "text") (JStr (lit "Oops, something went wrong!")) entry m
  /\ fills (lit "facialExpression") (JStr (lit "default")) entry m
  /\ fills (lit "animation") (JStr (lit "Idle")) entry m.

(** ** Vocabulary of the further properties *)

(** A message of a fallback list, in the order of the literal. *)
Definition fallback_message (text : string) (audio lipsync : JsVal)
    (facialExpression animation : string) : JsVal :=
  JObj [(lit "text", JStr (lit text));
        (lit "audio", audio);
        (lit "lipsync", lipsync);
        (lit "facialExpression", JStr (lit facialExpression));
        (lit "animation", JStr (lit animation))].

(** The fallback lists with some audio and timing data in them. *)
Definition fallback_with (a1 l1 a2 l2 : JsVal) : Fallback :=
  {| noApiKey :=
       JArr [fallback_message "Please my dear, don't forget to add your Lemonfox API key!"
               a1 l1 "angry" "Angry"];
     error :=
       JArr [fallback_message "Oops, something went wrong! Can you try again, dear?"
               a2 l2 "sad" "Crying"] |}.

(** What [audioFileToBase64(file).catch(() => "")] yields in world [w]. *)
Definition audio_or_empty (E : Env) (w : World) (file : jstring) : JsVal :=
  if read_fault E file then JStr []
  else match files w !! file with
       | Some data => JStr (Base64.encode data)
       | None => JStr []
       end.

(** What [readJsonTranscript(file).catch(() => {})] yields in world [w]:
    the braces of the handler are an empty body, so a failure gives
    [undefined]. *)
Definition transcript_or_undefined (E : Env) (w : World) (file : jstring) : JsVal :=
  if read_fault E file then JUndefined
  else match files w !! file with
       | Some data => default JUndefined (JSON_parse E (utf8_decode E data))
       | None => JUndefined
       end.

(** [keeps_fallback m]: running [m] leaves the fallback lists alone. *)
Definition keeps_fallback {A} (m : M A) : Prop :=
  forall w, fallbackMessages (snd (m w)) = fallbackMessages w.

(** The footprint of the lip-sync entries: the keys [lipsync_...]. *)
Definition lipsync_keys : Footprint :=
  stores_only (fun k => exists m, lipSyncCacheKey m = Ok k).

(** The timing data the [try] block of the lip-sync callback reads back
    for the message at an index: both commands succeed, the timing file
    is readable and what the extraction left in it parses. *)
Definition extracted (E : Env) (i : nat) : option JsVal :=
  if exec_ok E (ffmpeg_of i) && exec_ok E (rhubarb_of i)
     && negb (read_fault E (message_file i ".json"))
  then JSON_parse E (utf8_decode E (tool_output E (message_file i ".json")))
  else None.

(** What the lip-sync task of a speech result needs from a footprint, step
    by step: the conversion; the extraction once the conversion has
    succeeded; the cache entry once the timing data has been read back. *)
Definition lipsync_needs (F : Footprint) (E : Env) (w : World) (r : TtsResult) : Prop :=
  forall key,
    lipSyncCacheKey (message r) = Ok key ->
    truthy (Cache.get (now E AtLipSync) (cache w) key) = false ->
    may_exec F (ffmpeg_of (index r))
    /\ may_write F (message_file (index r) ".wav")
    /\ (exec_ok E (ffmpeg_of (index r)) = true ->
        may_exec F (rhubarb_of (index r))
        /\ may_write F (message_file (index r) ".json"))
    /\ (is_Some (extracted E (index r)) -> may_store F key).

(** The files of the messages of a reply. *)
Definition message_files : Footprint :=
  mkFootprint (fun _ => True)
    (fun f => exists i, f = message_file i ".mp3" \/ f = message_file i ".wav"
                        \/ f = message_file i ".json")
    (fun _ => True).

(** The commands of a request: conversions, and extractions that follow a
    conversion that succeeded. *)
Definition ordered_commands (E : Env) : Footprint :=
  mkFootprint (fun _ => True) (fun _ => True)
    (fun c => (exists j, c = ffmpeg_of j)
              \/ (exists j, c = rhubarb_of j /\ exec_ok E (ffmpeg_of j) = true)).

(** The cache keys a request may set: its own, and those of the messages
    of the reply without a usable entry whose timing data was extracted. *)
Definition extracted_keys (E : Env) (w : World) (s : jstring) (vs : list JsVal) : Footprint :=
  mkFootprint
    (fun k => k = chat_cache_key s
              \/ exists i m, vs !! i = Some m /\ lipSyncCacheKey m = Ok k
                             /\ truthy (cached_lipsync E w m) = false
                             /\ is_Some (extracted E i))
    (fun _ => True) (fun _ => True).

(** Whether a read of [file] succeeds in world [w]. *)
Definition readable (E : Env) (w : World) (file : jstring) : bool :=
  negb (read_fault E file) && bool_decide (is_Some (files w !! file)).

(** What the lip-sync task of message [m] at index [i] has to store when
    the stage starts in world [w0]: nothing when the key cannot be built
    or the text has a usable entry, and otherwise the extracted timing
    data under the key of the text. *)
Definition stored_timing (E : Env) (w0 : World) (i : nat) (m : JsVal)
  : option (jstring * JsVal) :=
  match lipSyncCacheKey m with
  | Ok key =>
      if truthy (Cache.get (now E AtLipSync) (cache w0) key) then None
      else match extracted E i with
           | Some v => Some (key, v)
           | None => None
           end
  | Thrown _ => None
  end.

(** The footprint of a request that runs no command. *)
Definition no_commands : Footprint :=
  mkFootprint (fun _ => True) (fun _ => True) (fun _ => False).

(** ** A sample environment *)

(** The code units of [[{"text":"Hi!"},{}]]. *)
Definition sample_reply : jstring :=
  lit "[{" ++ [34%N] ++ lit "text" ++ [34%N] ++ lit ":" ++ [34%N] ++ lit "Hi!"
    ++ [34%N] ++ lit "},{}]".

(** The same between code fences, as models often send it. *)
Definition sample_fenced_reply : jstring :=
  lit "```json" ++ [10%N] ++ sample_reply ++ [10%N] ++ lit "```".

(** A parser that knows two texts, enough to run the handlers on concrete
    requests. *)
Definition sample_parse (s : jstring) : option JsVal :=
  if decide (s = sample_reply) then
    Some (JArr [JObj [(lit "text", JStr (lit "Hi!"))]; JObj []])
  else if decide (s = lit "{}") then Some (JObj [])
  else None.

(** Every call succeeds: the completion wraps [sample_reply] in a code
    fence, the speech endpoint returns two bytes, the tools succeed and the
    timing file holds [{}]. *)
Definition sample_env : Env :=
  {| now := fun _ => 1000%Z;
     JSON_parse := sample_parse;
     utf8_decode := map Byte.to_N;
     buffer_from := fun _ => Some [];
     read_fault := fun _ => false;
     completion := fun _ => Some (JStr sample_fenced_reply);
     speech := fun _ _ => SpeechOk [x61; x62]%byte;
     exec_ok := fun _ => true;
     tool_output := fun _ => [x7b; x7d]%byte;
     transcription := fun _ => None;
     voices := None |}.

(** The process right after its start, with an empty audio directory. *)
Definition sample_world : World := mkWorld ∅ ∅ fallbackMessages0 [].

(** The first request of a fresh server with a credential, and what it
    leaves behind. *)
Definition sample_run (text : jstring) : Res Response * World :=
  post_chat (lit "secret") sample_env (chat_request text) sample_world.

Definition sample_after (text : jstring) : World := snd (sample_run text).

Definition sample_payload (text : jstring) : JsVal :=
  match fst (sample_run text) with
  | Ok r => payload r
  | Thrown _ => JUndefined
  end.

(** As [sample_env], but the completion is not JSON. *)
Definition sample_env_unparsable : Env :=
  mkEnv (now sample_env) sample_parse (utf8_decode sample_env)
    (buffer_from sample_env) (read_fault sample_env)
    (fun _ => Some (JStr (lit "```json oops ```")))
    (speech sample_env) (exec_ok sample_env) (tool_output sample_env)
    (transcription sample_env) (voices sample_env).


(** The entries of [sample_reply] and what the validating [map] makes of
    them. *)
Definition sample_entries : list JsVal :=
  [JObj [(lit "text", JStr (lit "Hi!"))]; JObj []].

Definition sample_hi : JsVal :=
  chat_message (JStr (lit "Hi!")) (JStr (lit "default")) (JStr (lit "Idle"))
    (JStr []) (JObj []).

Definition sample_validated : list JsVal :=
  [sample_hi;
   chat_message (JStr (lit "Oops, something went wrong!")) (JStr (lit "default"))
     (JStr (lit "Idle")) (JStr []) (JObj [])].

(** As [sample_env], but every shell command fails. *)
Definition sample_env_failing : Env := with_exec_ok (fun _ => false) sample_env.

(** As [sample_env_failing], but the speech request of the second message
    is refused. *)
Definition sample_env_refusing : Env :=
  mkEnv (now sample_env) sample_parse (utf8_decode sample_env)
    (buffer_from sample_env) (read_fault sample_env) (completion sample_env)
    (fun i _ => match i with 0 => SpeechOk [x61; x62]%byte | _ => SpeechRefused end)
    (fun _ => false) (tool_output sample_env)
    (transcription sample_env) (voices sample_env).

(** Timing data as the extraction writes it, and the bytes of the file
    that holds it: [{"mouthCues":[]}]. *)
Definition sample_cues : JsVal := JObj [(lit "mouthCues", JArr [])].

Definition sample_cues_file : list byte :=
  [x7b; x22; x6d; x6f; x75; x74; x68; x43; x75; x65; x73; x22; x3a; x5b; x5d; x7d]%byte.

(** The code units of [[{"text":"Hi!"},{"text":{"toString":"x"}}]]: the
    text of the second entry cannot be turned into a string. *)
Definition sample_reply_odd : jstring :=
  lit "[{" ++ [34%N] ++ lit "text" ++ [34%N] ++ lit ":" ++ [34%N] ++ lit "Hi!"
    ++ [34%N] ++ lit "},{" ++ [34%N] ++ lit "text" ++ [34%N] ++ lit ":{" ++ [34%N]
    ++ lit "toString" ++ [34%N] ++ lit ":" ++ [34%N] ++ lit "x" ++ [34%N] ++ lit "}}]".

Definition sample_entries_odd : list JsVal :=
  [JObj [(lit "text", JStr (lit "Hi!"))];
   JObj [(lit "text", JObj [(lit "toString", JStr (lit "x"))])]].

(** [sample_parse], which also knows the timing file and the odd reply. *)
Definition sample_parse_cues (s : jstring) : option JsVal :=
  if decide (s = map Byte.to_N sample_cues_file) then Some sample_cues
  else if decide (s = sample_reply_odd) then Some (JArr sample_entries_odd)
  else sample_parse s.

(** As [sample_env], but the timing files hold [sample_cues]. *)
Definition sample_env_cues : Env :=
  mkEnv (now sample_env) sample_parse_cues (utf8_decode sample_env)
    (buffer_from sample_env) (read_fault sample_env) (completion sample_env)
    (speech sample_env) (exec_ok sample_env) (fun _ => sample_cues_file)
    (transcription sample_env) (voices sample_env).

(** The conversion of the first message fails, every other command
    succeeds. *)
Definition sample_env_first_fails : Env :=
  with_exec_ok (fun c => negb (bool_decide (c = ffmpeg_of 0))) sample_env_cues.

(** Every command fails, and the speech endpoint answers with other bytes
    than in [sample_env]. *)
Definition sample_env_tools_down : Env :=
  mkEnv (now sample_env) sample_parse_cues (utf8_decode sample_env)
    (buffer_from sample_env) (read_fault sample_env) (completion sample_env)
    (fun _ _ => SpeechOk [x63; x64]%byte) (fun _ => false)
    (fun _ => sample_cues_file) (transcription sample_env) (voices sample_env).

(** Every command fails and the speech file of the second message cannot
    be read. *)
Definition sample_env_unreadable_sibling : Env :=
  mkEnv (now sample_env) sample_parse_cues (utf8_decode sample_env)
    (buffer_from sample_env)
    (fun file => bool_decide (file = message_file 1 ".mp3"))
    (completion sample_env) (speech sample_env) (fun _ => false)
    (fun _ => sample_cues_file) (transcription sample_env) (voices sample_env).

(** Every command fails and the speech endpoint answers with an empty
    body. *)
Definition sample_env_silent : Env :=
  mkEnv (now sample_env) sample_parse_cues (utf8_decode sample_env)
    (buffer_from sample_env) (read_fault sample_env) (completion sample_env)
    (fun _ _ => SpeechOk []) (fun _ => false)
    (fun _ => sample_cues_file) (transcription sample_env) (voices sample_env).

(** Every command fails and the completion is [sample_reply_odd]. *)
Definition sample_env_odd_sibling : Env :=
  mkEnv (now sample_env) sample_parse_cues (utf8_decode sample_env)
    (buffer_from sample_env) (read_fault sample_env)
    (fun _ => Some (JStr sample_reply_odd))
    (speech sample_env) (fun _ => false)
    (fun _ => sample_cues_file) (transcription sample_env) (voices sample_env).

(** The server after a first request answered with every tool at work:
    the timing data of both texts of the reply is in the cache. *)
Definition sample_cued_world : World :=
  snd (post_chat (lit "secret") sample_env_cues (chat_request (lit "hello")) sample_world).

Definition sample_oops : JsVal :=
  chat_message (JStr (lit "Oops, something went wrong!")) (JStr (lit "default"))
    (JStr (lit "Idle")) (JStr []) (JObj []).

(** The completion is the empty list. *)
Definition sample_env_empty_reply : Env :=
  mkEnv (now sample_env)
    (fun s => if decide (s = lit "[]") then Some (JArr []) else None)
    (utf8_decode sample_env) (buffer_from sample_env) (read_fault sample_env)
    (fun _ => Some (JStr (lit "[]")))
    (speech sample_env) (exec_ok sample_env) (tool_output sample_env)
    (transcription sample_env) (voices sample_env).

(** The transcription endpoint answers [{ text: "hi" }] to every audio. *)
Definition sample_env_hearing : Env :=
  mkEnv (now sample_env) (JSON_parse sample_env) (utf8_decode sample_env)
    (buffer_from sample_env) (read_fault sample_env) (completion sample_env)
    (speech sample_env) (exec_ok sample_env) (tool_output sample_env)
    (fun _ => Some (JObj [(lit "text", JStr (lit "hi"))])) (voices sample_env).

(** * Properties *)

Example replace_non_alnum_ex :
  Str.replace_non_alnum (lit "Hi, you!") = lit "Hi__you_".
Proof. reflexivity. Qed.

Example strip_fences_ex :
  Str.strip_fences (lit "```json
[1]
```") = lit "[1]".
Proof. reflexivity. Qed.

Example base64_ex :
  Base64.encode [x61; x62]%byte = lit "YWI=".
Proof. reflexivity. Qed.

Example clean_ex : clean sample_fenced_reply = sample_reply.
Proof. reflexivity. Qed.

Example trim_ex : Str.trim (lit "  [1] ") = lit "[1]".
Proof. reflexivity. Qed.

Example toString_ex :
  toString (JArr [JNum (lit "1e+21"); JNull; JStr (lit "a"); JArr [JBool true]])
  = Ok (lit "1e+21,,a,true").
Proof. reflexivity. Qed.

Example toString_own_ex :
  toString (JArr [JStr (lit "a"); JObj [(lit "toString", JStr (lit "b"))]])
  = Thrown TypeError.
Proof. reflexivity. Qed.

Example message_file_ex : message_file 12 ".mp3" = lit "audios/message_12.mp3".
Proof. reflexivity. Qed.

Example rhubarb_command_ex :
  rhubarb_of 0
  = lit "bin\rhubarb.exe -f json -o audios/message_0.json audios/message_0.wav -r phonetic".
Proof. reflexivity. Qed.

Example sample_run_ex :
  fst (sample_run (lit "hello"))
  = Ok (mkResponse 200
          (messages_body
             (JArr [chat_message (JStr (lit "Hi!")) (JStr (lit "default"))
                      (JStr (lit "Idle")) (JStr (lit "YWI=")) (JObj []);
                    chat_message (JStr (lit "Oops, something went wrong!"))
                      (JStr (lit "default")) (JStr (lit "Idle")) (JStr (lit "YWI="))
                      (JObj [])]))).
Proof. vm_compute. reflexivity. Qed.

Example sample_run_trace_ex :
  trace (sample_after (lit "hello"))
  = [EvCompletion (lit "hello");
     EvSpeech (JStr (lit "Hi!")); EvWrite (message_file 0 ".mp3");
     EvSpeech (JStr (lit "Oops, something went wrong!")); EvWrite (message_file 1 ".mp3");
     EvExec (ffmpeg_of 0); EvExec (rhubarb_of 0);
     EvRead (message_file 0 ".mp3"); EvRead (message_file 0 ".json");
     EvExec (ffmpeg_of 1); EvExec (rhubarb_of 1);
     EvRead (message_file 1 ".mp3"); EvRead (message_file 1 ".json")].
Proof. vm_compute. reflexivity. Qed.

(** ** Strings, numerals and file names *)

Lemma lit_inj (a b : string) : lit a = lit b -> a = b.
Proof.
  unfold lit. intros H.
  rewrite <- (string_of_list_ascii_of_string a), <- (string_of_list_ascii_of_string b).
  f_equal.
  revert H. generalize (list_ascii_of_string a) (list_ascii_of_string b).
  induction l as [|x l IH]; intros [|y l']; simpl; intros H; try discriminate; auto.
  injection H as Hxy Hl. f_equal; auto.
  rewrite <- (ascii_N_embedding x), <- (ascii_N_embedding y). now rewrite Hxy.
Qed.

Lemma uint_string_digits (d : Decimal.uint) :
  Forall (fun c => Str.is_digit c = true) (lit (NilEmpty.string_of_uint d)).
Proof. induction d; simpl; constructor; auto. Qed.

Lemma of_nat_digits (n : nat) :
  Forall (fun c => Str.is_digit c = true) (Str.of_nat n).
Proof.
  unfold Str.of_nat, NilZero.string_of_uint.
  destruct (Nat.to_uint n); try apply uint_string_digits.
  repeat constructor.
Qed.

Lemma of_nat_inj (i j : nat) : Str.of_nat i = Str.of_nat j -> i = j.
Proof.
  unfold Str.of_nat. intros H%lit_inj.
  assert (Hread : forall d, exists d',
             NilZero.uint_of_string (NilZero.string_of_uint d) = Some d'
             /\ Nat.of_uint d' = Nat.of_uint d).
  { intros d. destruct d;
      try (eexists; split; [now apply NilZero.usu | reflexivity]).
    exists Decimal.zero. split; reflexivity. }
  destruct (Hread (Nat.to_uint i)) as (di & Hi & Hi').
  destruct (Hread (Nat.to_uint j)) as (dj & Hj & Hj').
  rewrite H in Hi. rewrite Hi in Hj. injection Hj as ->.
  rewrite <- (DecimalNat.Unsigned.of_to i), <- (DecimalNat.Unsigned.of_to j).
  congruence.
Qed.

(** A run of digits followed by something else splits in one way only. *)
Lemma digits_split (a b : jstring) (c d : N) (r r' : jstring) :
  Forall (fun c => Str.is_digit c = true) a ->
  Forall (fun c => Str.is_digit c = true) b ->
  Str.is_digit c = false -> Str.is_digit d = false ->
  a ++ c :: r = b ++ d :: r' -> a = b /\ c :: r = d :: r'.
Proof.
  intros Ha. revert b. induction Ha as [|x a Hx Ha IH]; intros b Hb Hc Hd H.
  - destruct Hb as [|y b Hy Hb]; simpl in H; [auto|].
    injection H as -> _. congruence.
  - destruct Hb as [|y b Hy Hb]; simpl in H.
    + injection H as -> _. congruence.
    + injection H as -> H. destruct (IH b Hb Hc Hd H) as [-> ?]. auto.
Qed.

Lemma message_file_inj (i j : nat) (e e' : string) :
  message_file i (String "." e) = message_file j (String "." e') ->
  i = j /\ e = e'.
Proof.
  unfold message_file. intros H%app_inv_head.
  change (lit (String "." e)) with (46%N :: lit e) in H.
  change (lit (String "." e')) with (46%N :: lit e') in H.
  apply digits_split in H; auto using of_nat_digits.
  destruct H as [Hn He]. split; [now apply of_nat_inj|].
  injection He as He. now apply lit_inj.
Qed.

Lemma message_file_index (i j : nat) (e e' : string) :
  message_file i (String "." e) = message_file j (String "." e') -> i = j.
Proof. intros H. now apply message_file_inj in H. Qed.

Lemma message_file_ext (i j : nat) (e e' : string) :
  e <> e' -> message_file i (String "." e) <> message_file j (String "." e').
Proof. intros Hne H. apply message_file_inj in H. tauto. Qed.

(** The commands of two messages differ. *)
Lemma ffmpeg_command_inj (i j : nat) :
  ffmpeg_command (message_file i ".mp3") (message_file i ".wav")
  = ffmpeg_command (message_file j ".mp3") (message_file j ".wav") ->
  i = j.
Proof.
  unfold ffmpeg_command, message_file. intros H%app_inv_head.
  rewrite <- !app_assoc in H. apply app_inv_head in H.
  change (lit ".mp3") with (46%N :: lit "mp3") in H.
  simpl in H. apply digits_split in H; auto using of_nat_digits.
  destruct H as [H _]. now apply of_nat_inj.
Qed.

Lemma rhubarb_command_inj (i j : nat) :
  rhubarb_command i (message_file i ".wav") = rhubarb_command j (message_file j ".wav") ->
  i = j.
Proof.
  unfold rhubarb_command, message_file. intros H%app_inv_head.
  rewrite <- !app_assoc in H. apply app_inv_head in H.
  change (lit ".json") with (46%N :: lit "json") in H.
  simpl in H. apply digits_split in H; auto using of_nat_digits.
  destruct H as [H _]. now apply of_nat_inj.
Qed.

Lemma ffmpeg_not_rhubarb (j : nat) (a b c : jstring) :
  ffmpeg_command a b <> rhubarb_command j c.
Proof. unfold ffmpeg_command, rhubarb_command. simpl. discriminate. Qed.

(** ** The cache keys *)

Lemma replace_non_alnum_length (s : jstring) :
  length (Str.replace_non_alnum s) = length s.
Proof. unfold Str.replace_non_alnum. apply length_map. Qed.

Lemma chat_cache_key_empty (s : jstring) :
  chat_cache_key s = chat_cache_key [] -> s = [].
Proof.
  unfold chat_cache_key. intros H%app_inv_head.
  apply (f_equal length) in H. rewrite replace_non_alnum_length in H.
  now destruct s.
Qed.

Lemma lipsync_key_not_chat_key (message : JsVal) (key s : jstring) :
  lipSyncCacheKey message = Ok key -> key <> chat_cache_key s.
Proof.
  unfold lipSyncCacheKey, chat_cache_key.
  destruct (member message (lit "text")) as [text|e]; [|discriminate].
  destruct (toString text); intros [= <-]. simpl. discriminate.
Qed.

(** ** The branches of [/chat] *)

Lemma try_catch_default {A} (m : M A) (d : A) (w w' : World) (e : Exn) :
  try_catch m (fun _ => ret d) w <> (Thrown e, w').
Proof. unfold try_catch, ret. destruct (m w) as [[a|e'] w1]; discriminate. Qed.


Section Branches.

Variable lemonfoxApiKey : jstring.
Variable E : Env.
Variable body : JsVal.
Variable s : jstring.
Variable w : World.
Hypothesis Hbody : member body (lit "message") = Ok (JStr s).

Let cached : JsVal := Cache.get (now E AtLookup) (cache w) (chat_cache_key s).

Lemma post_chat_hit :
  truthy cached = true ->
  post_chat lemonfoxApiKey E body w = (Ok (mkResponse 200 (messages_body cached)), w).
Proof.
  intros Hc. unfold post_chat, bind, lift. rewrite Hbody. simpl.
  unfold cache_get, gets. fold cached. now rewrite Hc.
Qed.

Lemma post_chat_no_credential :
  truthy cached = false -> s <> [] -> no_credential lemonfoxApiKey = true ->
  post_chat lemonfoxApiKey E body w
  = (Ok (mkResponse 200 (messages_body (noApiKey (fallbackMessages w)))), w).
Proof.
  intros Hc Hs Hk. unfold post_chat, bind, lift. rewrite Hbody. simpl.
  unfold cache_get, gets. fold cached. rewrite Hc.
  destruct s; [done|]. simpl. now rewrite Hk.
Qed.

Lemma post_chat_live :
  truthy cached = false -> s <> [] -> no_credential lemonfoxApiKey = false ->
  post_chat lemonfoxApiKey E body w
  = try_catch (chat_pipeline E s (chat_cache_key s))
      (fun _ => fb <- gets fallbackMessages ;;
                status_send 500 (messages_body (error fb))) w.
Proof.
  intros Hc Hs Hk. unfold post_chat, bind, lift. rewrite Hbody. simpl.
  unfold cache_get, gets. fold cached. rewrite Hc.
  destruct s; [done|]. simpl. now rewrite Hk.
Qed.

Lemma post_chat_greeting :
  truthy cached = false -> s = [] ->
  post_chat lemonfoxApiKey E body w
  = (audio <- try_catch (audioFileToBase64 E (lit "audios/intro_0.wav"))
                        (fun _ => ret (JStr [])) ;;
     lipsync <- try_catch (readJsonTranscript E (lit "audios/intro_0.json"))
                          (fun _ => ret JUndefined) ;;
     cache_set E AtGreetingStore (chat_cache_key []) (greeting audio lipsync) ;;;
     send (messages_body (greeting audio lipsync))) w.
Proof.
  intros Hc Hs. unfold post_chat, bind at 1 2 3, lift. rewrite Hbody. simpl.
  unfold cache_get, gets. fold cached. rewrite Hc. now subst s.
Qed.

End Branches.

Lemma post_chat_no_message (key : jstring) (E : Env) (body : JsVal) (w : World) (e : Exn) :
  member body (lit "message") = Thrown e ->
  post_chat key E body w = (Thrown e, w).
Proof. intros H. unfold post_chat, bind, lift. now rewrite H. Qed.

Lemma post_chat_not_string (key : jstring) (E : Env) (body v : JsVal) (w : World) :
  member body (lit "message") = Ok v -> (forall s, v <> JStr s) ->
  post_chat key E body w = (Thrown TypeError, w).
Proof.
  intros H Hv. unfold post_chat, bind, lift. rewrite H.
  destruct v; try reflexivity. now destruct (Hv s).
Qed.

(** ** Footprints *)

Section Footprints.

Variable F : Footprint.

Lemma changes_refl (w : World) : changes F w w.
Proof.
  repeat split; try done. exists []. split; [now rewrite app_nil_r|].
  intros c Hc. now apply elem_of_nil in Hc.
Qed.

Lemma changes_trans (w1 w2 w3 : World) :
  changes F w1 w2 -> changes F w2 w3 -> changes F w1 w3.
Proof.
  intros (Hc1 & Hf1 & new1 & Ht1 & He1) (Hc2 & Hf2 & new2 & Ht2 & He2).
  repeat split.
  - intros k Hk. now rewrite Hc2, Hc1.
  - intros f Hf. now rewrite Hf2, Hf1.
  - exists (new1 ++ new2). split; [now rewrite Ht2, Ht1, app_assoc|].
    intros c [Hc|Hc]%elem_of_app; auto.
Qed.

Lemma within_ret {A} (a : A) : within F (ret a).
Proof. intros w. apply changes_refl. Qed.

Lemma within_throw {A} (e : Exn) : within F (@throw A e).
Proof. intros w. apply changes_refl. Qed.

Lemma within_lift {A} (r : Res A) : within F (lift r).
Proof. intros w. apply changes_refl. Qed.

Lemma within_gets {A} (f : World -> A) : within F (gets f).
Proof. intros w. apply changes_refl. Qed.

Lemma within_send (v : JsVal) : within F (send v).
Proof. intros w. apply changes_refl. Qed.

Lemma within_status_send (n : Z) (v : JsVal) : within F (status_send n v).
Proof. intros w. apply changes_refl. Qed.

Lemma within_cache_get (E : Env) (i : Instant) (key : jstring) :
  within F (cache_get E i key).
Proof. intros w. apply changes_refl. Qed.

(** The second computation may rely on how the first one ended. *)
Lemma changes_bind {A B} (m : M A) (f : A -> M B) (w : World) :
  changes F w (snd (m w)) ->
  (forall a w1, m w = (Ok a, w1) -> changes F w1 (snd (f a w1))) ->
  changes F w (snd (bind m f w)).
Proof.
  intros Hm Hf. unfold bind.
  destruct (m w) as [[a|e] w1]; simpl in *; [|done].
  eapply changes_trans; [exact Hm|]. now apply Hf.
Qed.

Lemma changes_try_catch {A} (m : M A) (h : Exn -> M A) (w : World) :
  changes F w (snd (m w)) ->
  (forall e w1, m w = (Thrown e, w1) -> changes F w1 (snd (h e w1))) ->
  changes F w (snd (try_catch m h w)).
Proof.
  intros Hm Hh. unfold try_catch.
  destruct (m w) as [[a|e] w1]; simpl in *; [done|].
  eapply changes_trans; [exact Hm|]. now apply Hh.
Qed.

Lemma within_bind {A B} (m : M A) (f : A -> M B) :
  within F m -> (forall a, within F (f a)) -> within F (bind m f).
Proof. intros Hm Hf w. apply changes_bind; [apply Hm|]. intros a w1 _. apply Hf. Qed.

Lemma within_bind_lift {A B} (r : Res A) (f : A -> M B) :
  (forall a, r = Ok a -> within F (f a)) -> within F (bind (lift r) f).
Proof.
  intros Hf w. unfold bind, lift. destruct r as [a|e]; [|apply changes_refl].
  now apply Hf.
Qed.

Lemma within_try_catch {A} (m : M A) (h : Exn -> M A) :
  within F m -> (forall e, within F (h e)) -> within F (try_catch m h).
Proof. intros Hm Hh w. apply changes_try_catch; [apply Hm|]. intros e w1 _. apply Hh. Qed.

Lemma within_attempt {A} (m : M A) : within F m -> within F (attempt m).
Proof. intros Hm w. unfold attempt. specialize (Hm w). now destruct (m w). Qed.

Lemma within_if {A} (b : bool) (m1 m2 : M A) :
  within F m1 -> within F m2 -> within F (if b then m1 else m2).
Proof. now destruct b. Qed.

Lemma within_promise_all {A} (ps : list (M A)) :
  Forall (within F) ps -> within F (promise_all ps).
Proof.
  induction 1 as [|p ps Hp _ IH]; intros w; simpl; [apply changes_refl|].
  specialize (Hp w). destruct (p w) as [r w1]. simpl in Hp.
  specialize (IH w1). destruct (promise_all ps w1) as [rs w2]. simpl in *.
  eapply changes_trans; eauto.
Qed.

Lemma within_for_each {A B} (f : A -> M B) (items : list A) :
  (forall x, within F (f x)) -> within F (for_each f items).
Proof.
  intros Hf. induction items as [|x items IH]; simpl.
  - apply within_ret.
  - apply within_bind; [apply Hf|]. intros y.
    apply within_bind; [apply IH|]. intros ys. apply within_ret.
Qed.

Lemma within_emit (e : Event) :
  (forall c, e = EvExec c -> may_exec F c) -> within F (emit e).
Proof.
  intros He w. repeat split; try done. exists [e]. split; [done|].
  intros c Hc%list_elem_of_singleton. now apply He.
Qed.

Lemma within_emit_quiet (e : Event) : is_exec e = false -> within F (emit e).
Proof. intros He. apply within_emit. intros c ->. discriminate. Qed.

Lemma within_writeFile (file : jstring) (data : list byte) :
  may_write F file -> within F (writeFile file data).
Proof.
  intros Hw w. repeat split; try done.
  - intros f Hf. simpl. apply lookup_insert_ne. congruence.
  - exists []. split; [simpl; now rewrite app_nil_r|].
    intros c Hc. now apply elem_of_nil in Hc.
Qed.

Lemma within_cache_set (E : Env) (i : Instant) (key : jstring) (v : JsVal) :
  may_store F key -> within F (cache_set E i key v).
Proof.
  intros Hs w. repeat split; try done.
  - intros k Hk. simpl. unfold Cache.set. apply lookup_insert_ne. congruence.
  - exists []. split; [simpl; now rewrite app_nil_r|].
    intros c Hc. now apply elem_of_nil in Hc.
Qed.

Lemma within_set_fallback (f : World -> Fallback) :
  within F (modify (fun w => with_fallback (f w) w)).
Proof.
  intros w. repeat split; try done.
  exists []. split; [simpl; now rewrite app_nil_r|].
  intros c Hc. now apply elem_of_nil in Hc.
Qed.

End Footprints.

Create HintDb footprint.

#[export] Hint Resolve within_ret within_throw within_lift within_gets
  within_send within_status_send within_cache_get within_set_fallback
  within_writeFile within_cache_set : footprint.
#[export] Hint Extern 1 (within _ (emit _)) =>
  apply within_emit_quiet; reflexivity : footprint.

(** Steps through the binds, handlers and branches of a computation. *)
Ltac footprint :=
  repeat first
    [ progress auto with footprint
    | apply within_bind; [|intros ?]
    | apply within_try_catch; [|intros ?]
    | apply within_attempt
    | apply within_if
    | match goal with
      | |- within _ (match ?x with _ => _ end) => destruct x
      end ].

(** Nothing stored: the cache is the same. *)
Lemma changes_cache_same (F : Footprint) (w w' : World) :
  (forall k, ~ may_store F k) -> changes F w w' -> cache w' = cache w.
Proof. intros HF (Hc & _). apply map_eq. intros k. apply Hc, HF. Qed.

Lemma changes_performed (F : Footprint) {A} (m : M A) (w : World) :
  changes F w (snd (m w)) ->
  forall c, EvExec c ∈ performed m w -> may_exec F c.
Proof.
  intros (_ & _ & new & Ht & He) c Hc. apply He.
  unfold performed in Hc. now rewrite Ht, drop_app_length in Hc.
Qed.

Section HelpersFootprint.

Variable F : Footprint.
Variable E : Env.

Lemma within_readFile (file : jstring) : within F (readFile E file).
Proof. unfold readFile. footprint. Qed.

Lemma within_readJsonTranscript (file : jstring) : within F (readJsonTranscript E file).
Proof. unfold readJsonTranscript. footprint. Qed.

Lemma within_audioFileToBase64 (file : jstring) : within F (audioFileToBase64 E file).
Proof. unfold audioFileToBase64. footprint. Qed.

Lemma within_execCommand (command : jstring) :
  may_exec F command -> within F (execCommand E command).
Proof.
  intros Hc. unfold execCommand.
  apply within_bind; [|intros _; footprint].
  apply within_emit. now intros c [= <-].
Qed.

Lemma within_lipSyncMessage (i : nat) :
  may_exec F (ffmpeg_command (message_file i ".mp3") (message_file i ".wav")) ->
  may_exec F (rhubarb_command i (message_file i ".wav")) ->
  may_write F (message_file i ".wav") ->
  may_write F (message_file i ".json") ->
  within F (lipSyncMessage E i).
Proof.
  intros Hff Hrh Hwav Hjson.
  unfold lipSyncMessage, convertMp3ToWav, tool_wrote.
  apply within_bind; [|intros _].
  - apply within_bind; [now apply within_execCommand|intros _].
    now apply within_writeFile.
  - apply within_bind; [now apply within_execCommand|intros _].
    now apply within_writeFile.
Qed.

Lemma within_preload : within F (preload E).
Proof.
  unfold preload, preload_field.
  repeat first
    [ apply within_audioFileToBase64
    | apply within_readJsonTranscript
    | apply within_ret
    | apply within_set_fallback
    | apply within_try_catch; [|intros ?]
    | apply within_bind; [|intros ?] ].
Qed.

Lemma within_get_voices : within F (get_voices E).
Proof. unfold get_voices. footprint. Qed.

Lemma within_post_transcribe (key : jstring) (body : JsVal) :
  within F (post_transcribe key E body).
Proof. unfold post_transcribe. footprint. Qed.

Lemma within_ttsTask (i : nat) (message : JsVal) :
  may_write F (message_file i ".mp3") -> within F (ttsTask E i message).
Proof. intros Hw. unfold ttsTask. footprint. Qed.

End HelpersFootprint.

#[export] Hint Resolve within_readFile within_readJsonTranscript
  within_audioFileToBase64 : footprint.

(** ** The lip-sync stage reads the cache before any task resumes *)

Lemma lipSyncLookup_run (E : Env) (r : TtsResult) (w : World) :
  lipSyncLookup E r w = (Ok (looked_up E w r), w).
Proof.
  unfold lipSyncLookup, looked_up, attempt, bind, lift, cache_get, gets, ret.
  now destruct (lipSyncCacheKey (message r)).
Qed.

Lemma for_each_lipSyncLookup (E : Env) (results : list TtsResult) (w : World) :
  for_each (lipSyncLookup E) results w = (Ok (map (looked_up E w) results), w).
Proof.
  induction results as [|r results IH]; simpl; [done|].
  unfold bind. rewrite lipSyncLookup_run, IH. done.
Qed.

Lemma lipSyncStage_run (E : Env) (results : list TtsResult) (w : World) :
  lipSyncStage E results w
  = promise_all (zip_with (lipSyncTask E) results (map (looked_up E w) results)) w.
Proof. unfold lipSyncStage, bind. now rewrite for_each_lipSyncLookup. Qed.

(** ** Footprint of the pipeline *)

Lemma within_lipSyncTask (F : Footprint) (E : Env) (w0 : World) (r : TtsResult) :
  lipsync_allowed F E w0 r ->
  within F (lipSyncTask E r (looked_up E w0 r)).
Proof.
  intros Hallowed. unfold lipSyncTask, looked_up.
  destruct (lipSyncCacheKey (message r)) as [key|e] eqn:Hk; [|footprint].
  destruct (truthy (Cache.get (now E AtLipSync) (cache w0) key)) eqn:Hc; [footprint|].
  destruct (Hallowed key Hk Hc) as (Hkey & Hwav & Hjson & Hff & Hrh).
  apply within_try_catch; [|intros; footprint].
  apply within_bind; [now apply within_lipSyncMessage|intros _].
  footprint.
Qed.

Lemma changes_lipSyncStage (F : Footprint) (E : Env) (results : list TtsResult) (w : World) :
  Forall (lipsync_allowed F E w) results ->
  changes F w (snd (lipSyncStage E results w)).
Proof.
  intros Hall. rewrite lipSyncStage_run.
  apply within_promise_all.
  induction Hall as [|r results Hr _ IH]; simpl; constructor; auto.
  now apply within_lipSyncTask.
Qed.

Lemma within_tts_stage (F : Footprint) (E : Env) (messages : list JsVal) :
  (forall i, may_write F (message_file i ".mp3")) ->
  within F (promise_all (imap (ttsTask E) messages)).
Proof.
  intros Hw. apply within_promise_all.
  assert (Hf : forall i m, within F (ttsTask E i m))
    by (intros; now apply within_ttsTask).
  revert Hf. generalize (ttsTask E). intros f Hf.
  revert f Hf. induction messages as [|m ms IH]; intros f Hf; simpl; constructor; auto.
  apply IH. intros i. apply Hf.
Qed.

(** ** What the speech stage resolves to *)

Lemma promise_all_cons_ok {A} (p : M A) (ps : list (M A)) (w w' : World) (rs : list A) :
  promise_all (p :: ps) w = (Ok rs, w') ->
  exists r rest w1, rs = r :: rest /\ p w = (Ok r, w1) /\ promise_all ps w1 = (Ok rest, w').
Proof.
  simpl. destruct (p w) as [[r|e] w1];
    destruct (promise_all ps w1) as [[rest|e'] w2] eqn:Hrest;
    intros H; try discriminate.
  injection H as <- <-. exists r, rest, w1. auto.
Qed.

Lemma ttsTask_ok (E : Env) (i : nat) (m : JsVal) (w w' : World) (r : TtsResult) :
  ttsTask E i m w = (Ok r, w') ->
  r = tts_result i m
  /\ exists textInput body,
       member m (lit "text") = Ok textInput
       /\ speech E i textInput = SpeechOk body
       /\ w' = with_files (<[message_file i ".mp3" := body]> (files w))
                 (with_trace (trace w ++ [EvSpeech textInput; EvWrite (message_file i ".mp3")]) w).
Proof.
  unfold ttsTask, bind, lift, emit, modify, writeFile.
  destruct (member m (lit "text")) as [textInput|e]; [|discriminate]. simpl.
  destruct (speech E i textInput) as [body| |partial] eqn:Hs; intros [= <- <-].
  split; [reflexivity|]. exists textInput, body. repeat split; [done|].
  unfold with_files, with_trace. simpl. now rewrite <- app_assoc.
Qed.

Lemma tts_stage_ok (E : Env) (messages : list JsVal) (w w' : World) (rs : list TtsResult) :
  promise_all (imap (ttsTask E) messages) w = (Ok rs, w') ->
  rs = imap tts_result messages.
Proof.
  assert (Hgen : forall (k : nat) (w w' : World) (rs : list TtsResult),
             promise_all (imap (fun i => ttsTask E (k + i)) messages) w = (Ok rs, w') ->
             rs = imap (fun i => tts_result (k + i)) messages).
  { induction messages as [|m ms IH]; intros k w1 w2 rs1 H.
    - now injection H as <- _.
    - simpl in H. apply promise_all_cons_ok in H as (r & rest & w3 & -> & Hr & Hrest).
      apply ttsTask_ok in Hr as [-> _]. simpl. f_equal.
      rewrite (imap_ext _ (fun i => ttsTask E (S k + i))) in Hrest
        by (intros; simpl; f_equal; lia).
      apply IH in Hrest. rewrite Hrest. apply imap_ext. intros; simpl. f_equal. lia. }
  apply (Hgen 0).
Qed.

Lemma lipsync_allowed_cache (F : Footprint) (E : Env) (w w' : World) (r : TtsResult) :
  cache w' = cache w -> lipsync_allowed F E w r -> lipsync_allowed F E w' r.
Proof. unfold lipsync_allowed. now intros ->. Qed.

Lemma emit_run (e : Event) (w : World) :
  emit e w = (Ok tt, with_trace (trace w ++ [e]) w).
Proof. reflexivity. Qed.

(** The pipeline stays within a footprint that allows the key of the
    request, the speech files, and what the messages without a usable
    lip-sync entry need. *)
Lemma changes_chat_pipeline (F : Footprint) (E : Env) (s cacheKey : jstring) (w : World) :
  may_store F cacheKey ->
  (forall i, may_write F (message_file i ".mp3")) ->
  (forall content rawContent parsed validated,
      completion E s = Some content ->
      as_string content = Ok rawContent ->
      parse_messages E (clean rawContent) = Ok parsed ->
      validate_all parsed = Ok validated ->
      Forall (lipsync_allowed F E w) (imap tts_result validated)) ->
  changes F w (snd (chat_pipeline E s cacheKey w)).
Proof.
  intros Hkey Hmp3 Hlip. unfold chat_pipeline.
  apply changes_bind; [apply within_emit_quiet; reflexivity|].
  intros [] w1 Hw1. rewrite emit_run in Hw1. injection Hw1 as <-.
  destruct (completion E s) as [content|] eqn:Hcontent; [|apply changes_refl].
  apply changes_bind; [apply within_lift|].
  intros rawContent w2 Hraw. injection Hraw as Hraw <-.
  destruct (parse_messages E (clean rawContent)) as [parsed|e] eqn:Hparsed;
    [|apply within_bind; [apply within_gets|intros; apply within_status_send]].
  apply changes_bind; [apply within_lift|].
  intros validated w3 Hval. injection Hval as Hval <-.
  apply changes_bind; [now apply within_tts_stage|].
  intros ttsResults w4 Htts.
  assert (Hcache : cache w4 = cache w).
  { pose proof (within_tts_stage (mkFootprint (fun _ => False) (fun _ => True) (fun _ => True))
                  E validated (fun _ => I) (with_trace (trace w ++ [EvCompletion s]) w)) as Hch.
    rewrite Htts in Hch. apply changes_cache_same in Hch; [exact Hch|tauto]. }
  apply tts_stage_ok in Htts as ->.
  apply changes_bind.
  - apply changes_lipSyncStage.
    eapply Forall_impl; [now apply (Hlip content rawContent parsed validated)|].
    intros r. now apply lipsync_allowed_cache.
  - intros messages w5 _.
    apply within_bind; [now apply within_cache_set|]. intros; apply within_send.
Qed.

(** The same when only the cache matters. *)
Lemma changes_chat_pipeline_stores (P : jstring -> Prop) (E : Env) (s cacheKey : jstring)
    (w : World) :
  P cacheKey ->
  (forall m key, lipSyncCacheKey m = Ok key -> P key) ->
  changes (stores_only P) w (snd (chat_pipeline E s cacheKey w)).
Proof.
  intros Hkey Hlip. apply changes_chat_pipeline; [done|done|].
  intros _ _ _ validated _ _ _ _. apply Forall_forall. intros r _ key Hk _.
  repeat split. simpl. eauto.
Qed.

Lemma as_string_ok (v : JsVal) (s : jstring) : as_string v = Ok s -> v = JStr s.
Proof. destruct v; simpl; congruence. Qed.

(** Without a credential [/chat] can only store the greeting. *)
Lemma within_post_chat_no_credential (key : jstring) (E : Env) (body : JsVal) :
  no_credential key = true ->
  within (stores_only (fun k => k = chat_cache_key [])) (post_chat key E body).
Proof.
  intros Hk. unfold post_chat. rewrite Hk.
  apply within_bind_lift. intros userMessage _.
  apply within_bind_lift. intros text ->%as_string_ok.
  apply within_bind; [auto with footprint|intros cachedResponse].
  destruct (truthy cachedResponse); [auto with footprint|].
  destruct text as [|c text]; simpl; [|footprint].
  footprint. now apply within_cache_set.
Qed.

(** The greeting branch answers and stores one and the same list. *)
Lemma greeting_run (E : Env) (key : jstring) (w : World) :
  exists audio lipsync w1,
    (audio <- try_catch (audioFileToBase64 E (lit "audios/intro_0.wav"))
                        (fun _ => ret (JStr [])) ;;
     lipsync <- try_catch (readJsonTranscript E (lit "audios/intro_0.json"))
                          (fun _ => ret JUndefined) ;;
     cache_set E AtGreetingStore key (greeting audio lipsync) ;;;
     send (messages_body (greeting audio lipsync))) w
    = (Ok (mkResponse 200 (messages_body (greeting audio lipsync))),
       with_cache (Cache.set (now E AtGreetingStore) (cache w1) key
                     (greeting audio lipsync)) w1)
    /\ cache w1 = cache w.
Proof.
  unfold bind at 1.
  destruct (try_catch (audioFileToBase64 E _) _ w) as [[audio|e] w1] eqn:Ha;
    [|now apply try_catch_default in Ha].
  unfold bind at 1.
  destruct (try_catch (readJsonTranscript E _) _ w1) as [[lipsync|e] w2] eqn:Hl;
    [|now apply try_catch_default in Hl].
  exists audio, lipsync, w2. split; [reflexivity|].
  set (F := stores_only (fun _ => False)).
  assert (H1 : within F (try_catch (audioFileToBase64 E (lit "audios/intro_0.wav"))
                           (fun _ => ret (JStr [])))) by footprint.
  assert (H2 : within F (try_catch (readJsonTranscript E (lit "audios/intro_0.json"))
                           (fun _ => ret JUndefined))) by footprint.
  specialize (H1 w). specialize (H2 w1). rewrite Ha in H1. rewrite Hl in H2.
  apply changes_cache_same in H1, H2; simpl; try tauto. simpl in *. congruence.
Qed.

(** With a credential, the entry of the empty message is still written by
    the greeting branch only. *)
Lemma post_chat_greeting_entry (key : jstring) (E : Env) (body : JsVal) (w : World) :
  cache (snd (post_chat key E body w)) !! chat_cache_key [] = cache w !! chat_cache_key []
  \/ exists audio lipsync t,
       cache (snd (post_chat key E body w)) !! chat_cache_key []
       = Some (greeting audio lipsync, t).
Proof.
  destruct (member body (lit "message")) as [v|e] eqn:Hbody;
    [|left; now rewrite (post_chat_no_message _ _ _ _ _ Hbody)].
  destruct (as_string v) as [s|e] eqn:Hs.
  2:{ left. rewrite (post_chat_not_string _ _ _ _ _ Hbody); [done|].
      intros s ->. discriminate. }
  apply as_string_ok in Hs as ->.
  destruct (truthy (Cache.get (now E AtLookup) (cache w) (chat_cache_key s))) eqn:Hc;
    [left; now rewrite (post_chat_hit _ _ _ _ _ Hbody Hc)|].
  destruct s as [|c s].
  - right. rewrite (post_chat_greeting _ _ _ _ _ Hbody Hc eq_refl).
    destruct (greeting_run E (chat_cache_key []) w) as (audio & lipsync & w1 & -> & _).
    exists audio, lipsync. eexists. simpl. unfold Cache.set. apply lookup_insert_eq.
  - left. destruct (no_credential key) eqn:Hk.
    + now rewrite (post_chat_no_credential _ _ _ _ _ Hbody Hc).
    + rewrite (post_chat_live _ _ _ _ _ Hbody Hc) by done.
      assert (Hframe : changes (stores_only (fun k => k <> chat_cache_key [])) w
                (snd (try_catch (chat_pipeline E (c :: s) (chat_cache_key (c :: s)))
                        (fun _ => fb <- gets fallbackMessages ;;
                                  status_send 500 (messages_body (error fb))) w))).
      { apply changes_try_catch; [|intros; footprint].
        apply changes_chat_pipeline_stores.
        - intros H%chat_cache_key_empty. discriminate.
        - intros m k. apply lipsync_key_not_chat_key. }
      apply Hframe. simpl. tauto.
Qed.

(** ** Invariants of the cache *)

Lemma within_cache_same {A} (m : M A) (w : World) :
  within (stores_only (fun _ => False)) m -> cache (snd (m w)) = cache w.
Proof.
  intros H.
  apply (changes_cache_same (stores_only (fun _ => False)) _ _ (fun _ HF => HF) (H w)).
Qed.

(** Without a credential the cache holds at most the greeting. *)
Lemma reachable_cache_no_credential (w : World) :
  reachable (lit "-") w ->
  forall k, is_Some (cache w !! k) -> k = chat_cache_key [].
Proof.
  induction 1 as [disk|E w _ IH|w _ IH|E w _ IH|E body w _ IH|E body w _ IH|disk w _ IH];
    intros k Hk; simpl in *.
  - rewrite lookup_empty in Hk. now destruct Hk.
  - rewrite within_cache_same in Hk by apply within_preload. auto.
  - auto.
  - rewrite within_cache_same in Hk by apply within_get_voices. auto.
  - rewrite within_cache_same in Hk by apply within_post_transcribe. auto.
  - destruct (decide (k = chat_cache_key [])) as [|Hne]; [done|].
    destruct (within_post_chat_no_credential (lit "-") E body eq_refl w) as [Hsame _].
    rewrite (Hsame k Hne) in Hk.
    auto.
  - auto.
Qed.

(** Whatever the credential, the entry of the empty message is a greeting. *)
Lemma reachable_greeting_entry (key : jstring) (w : World) :
  reachable key w ->
  forall v t, cache w !! chat_cache_key [] = Some (v, t) ->
  exists audio lipsync, v = greeting audio lipsync.
Proof.
  induction 1 as [disk|E w _ IH|w _ IH|E w _ IH|E body w _ IH|E body w _ IH|disk w _ IH];
    intros v t Hv; simpl in *.
  - now rewrite lookup_empty in Hv.
  - rewrite within_cache_same in Hv by apply within_preload. eauto.
  - eauto.
  - rewrite within_cache_same in Hv by apply within_get_voices. eauto.
  - rewrite within_cache_same in Hv by apply within_post_transcribe. eauto.
  - destruct (post_chat_greeting_entry key E body w) as [Heq|(a & l & t' & Heq)];
      rewrite Heq in Hv; [eauto|].
    injection Hv as <- _. eauto.
  - eauto.
Qed.

Lemma performed_nothing {A} (m : M A) (w : World) (r : Res A) :
  m w = (r, w) -> performed m w = [].
Proof. intros H. unfold performed. rewrite H. apply drop_all. Qed.

Lemma performed_app {A} (m : M A) (w w' : World) (r : Res A) (evs : list Event) :
  m w = (r, w') -> trace w' = trace w ++ evs -> performed m w = evs.
Proof. intros H Ht. unfold performed. rewrite H. simpl. rewrite Ht. apply drop_app_length. Qed.

(** ** The scripted greeting *)

(** C1, the failing request: a body without a [message] makes the
    handler throw a [TypeError] when it builds the cache key, before the
    test for an empty message is reached; no response is produced, for
    every credential and in every world. *)
Theorem chat_absent_message_rejects (key : jstring) (E : Env) (w : World) :
  post_chat key E (JObj []) w = (Thrown TypeError, w).
Proof. reflexivity. Qed.

(** The same for every body that lacks the field or holds something else
    than a string there. *)
Lemma chat_message_not_a_string (key : jstring) (E : Env) (props : list (jstring * JsVal))
    (w : World) :
  (forall s, own_property (lit "message") props <> Some (JStr s)) ->
  post_chat key E (JObj props) w = (Thrown TypeError, w).
Proof.
  intros H. eapply post_chat_not_string; [reflexivity|].
  intros s Hs. apply (H s). now destruct (own_property _ props) as [v|]; simpl in *; subst.
Qed.

(** The other half of C1 holds: an empty string is answered by the one
    greeting message, in every world the server can reach and for every
    credential. *)
Lemma chat_empty_message_greets (key : jstring) (E : Env) (w : World) :
  reachable key w ->
  exists audio lipsync w',
    post_chat key E (chat_request []) w
    = (Ok (mkResponse 200 (messages_body (greeting audio lipsync))), w').
Proof.
  intros Hw.
  assert (Hbody : member (chat_request []) (lit "message") = Ok (JStr [])) by reflexivity.
  destruct (truthy (Cache.get (now E AtLookup) (cache w) (chat_cache_key []))) eqn:Hc.
  - rewrite (post_chat_hit _ _ _ _ _ Hbody Hc).
    unfold Cache.get in *.
    destruct (cache w !! chat_cache_key []) as [[v t]|] eqn:Hv; [|discriminate].
    destruct (Cache.live _ _); [|discriminate].
    destruct (reachable_greeting_entry key w Hw v t Hv) as (a & l & ->). eauto.
  - rewrite (post_chat_greeting _ _ _ _ _ Hbody Hc eq_refl).
    destruct (greeting_run E (chat_cache_key []) w) as (a & l & w1 & -> & _). eauto.
Qed.

(** ** The no-credential mode *)

(** C2: in every world the server reaches with the credential ["-"], a
    request with a non-empty message is answered with the [noApiKey]
    list, and the world is left as it was: nothing is added to the record
    of outside calls, so there is no network call. *)
Theorem chat_no_credential_fallback (E : Env) (body : JsVal) (s : jstring) (w : World) :
  reachable (lit "-") w ->
  member body (lit "message") = Ok (JStr s) ->
  s <> [] ->
  post_chat (lit "-") E body w
  = (Ok (mkResponse 200 (messages_body (noApiKey (fallbackMessages w)))), w)
  /\ filter (fun e => is_network e = true) (performed (post_chat (lit "-") E body) w) = [].
Proof.
  intros Hw Hbody Hs.
  assert (Hmiss : truthy (Cache.get (now E AtLookup) (cache w) (chat_cache_key s)) = false).
  { unfold Cache.get.
    destruct (cache w !! chat_cache_key s) as [entry|] eqn:Hentry; [|reflexivity].
    assert (Hk : chat_cache_key s = chat_cache_key [])
      by (apply (reachable_cache_no_credential w Hw); eauto).
    now apply chat_cache_key_empty in Hk. }
  pose proof (post_chat_no_credential (lit "-") E body s w Hbody Hmiss Hs eq_refl) as Hrun.
  split; [exact Hrun|].
  now rewrite (performed_nothing _ _ _ Hrun).
Qed.

Lemma chat_no_credential_fallback_witness :
  post_chat (lit "-") sample_env (chat_request (lit "hello")) sample_world
  = (Ok (mkResponse 200 (messages_body (noApiKey fallbackMessages0))), sample_world)
  /\ filter (fun e => is_network e = true)
       (performed (post_chat (lit "-") sample_env (chat_request (lit "hello"))) sample_world) = [].
Proof.
  apply (chat_no_credential_fallback sample_env (chat_request (lit "hello")) (lit "hello")).
  - apply reach_start.
  - reflexivity.
  - discriminate.
Defined.

(** C10: a non-empty message that is not in the cache gets, without a
    credential, the [noApiKey] list under status 200 (the failure paths
    answer with 500). *)
Theorem chat_no_credential_status (E : Env) (body : JsVal) (s : jstring) (w : World) :
  member body (lit "message") = Ok (JStr s) ->
  s <> [] ->
  truthy (Cache.get (now E AtLookup) (cache w) (chat_cache_key s)) = false ->
  exists r,
    fst (post_chat (lit "-") E body w) = Ok r
    /\ status r = 200%Z
    /\ payload r = messages_body (noApiKey (fallbackMessages w)).
Proof.
  intros Hbody Hs Hmiss.
  rewrite (post_chat_no_credential (lit "-") E body s w Hbody Hmiss Hs eq_refl).
  eexists. split; [reflexivity|]. split; reflexivity.
Qed.

Lemma chat_no_credential_status_witness :
  exists r,
    fst (post_chat (lit "-") sample_env (chat_request (lit "hello")) sample_world) = Ok r
    /\ status r = 200%Z
    /\ payload r = messages_body (noApiKey (fallbackMessages sample_world)).
Proof.
  apply (chat_no_credential_status sample_env (chat_request (lit "hello")) (lit "hello")).
  - reflexivity.
  - discriminate.
  - reflexivity.
Defined.

(** ** Replies that do not parse *)

(** C4: when the completion content, cleaned of code fences and control
    characters, is rejected by [JSON.parse], the answer is the [error]
    list under status 500; the only thing done outside the process is the
    completion call, and no file is touched. *)
Theorem chat_unparsable_reply (key : jstring) (E : Env) (body : JsVal)
    (s rawContent : jstring) (w : World) :
  member body (lit "message") = Ok (JStr s) ->
  s <> [] ->
  truthy (Cache.get (now E AtLookup) (cache w) (chat_cache_key s)) = false ->
  no_credential key = false ->
  completion E s = Some (JStr rawContent) ->
  JSON_parse E (clean rawContent) = None ->
  post_chat key E body w
  = (Ok (mkResponse 500 (messages_body (error (fallbackMessages w)))),
     with_trace (trace w ++ [EvCompletion s]) w)
  /\ performed (post_chat key E body) w = [EvCompletion s]
  /\ files (snd (post_chat key E body w)) = files w.
Proof.
  intros Hbody Hs Hmiss Hkey Hreply Hparse.
  assert (Hrun : post_chat key E body w
                 = (Ok (mkResponse 500 (messages_body (error (fallbackMessages w)))),
                    with_trace (trace w ++ [EvCompletion s]) w)).
  { rewrite (post_chat_live key E body s w Hbody Hmiss Hs Hkey).
    unfold try_catch, chat_pipeline, bind, emit, modify. simpl.
    rewrite Hreply. simpl. unfold parse_messages. now rewrite Hparse. }
  split; [exact Hrun|]. split.
  - now apply (performed_app _ _ _ _ _ Hrun).
  - now rewrite Hrun.
Qed.

Lemma chat_unparsable_reply_witness :
  post_chat (lit "secret") sample_env_unparsable (chat_request (lit "hello")) sample_world
  = (Ok (mkResponse 500 (messages_body (error fallbackMessages0))),
     with_trace [EvCompletion (lit "hello")] sample_world)
  /\ performed (post_chat (lit "secret") sample_env_unparsable (chat_request (lit "hello")))
       sample_world
     = [EvCompletion (lit "hello")]
  /\ files (snd (post_chat (lit "secret") sample_env_unparsable
                   (chat_request (lit "hello")) sample_world))
     = files sample_world.
Proof.
  apply (chat_unparsable_reply (lit "secret") sample_env_unparsable
           (chat_request (lit "hello")) (lit "hello") (lit "```json oops ```")).
  - reflexivity.
  - discriminate.
  - reflexivity.
  - reflexivity.
  - reflexivity.
  - reflexivity.
Defined.

(** ** Transcription *)

(** C8: a body without [audioBase64], or any body when the credential is
    ["-"], is answered with status 400, and the world is left as it was:
    no call to the transcription endpoint. *)
Theorem transcribe_rejects (key : jstring) (E : Env) (body v : JsVal) (w : World) :
  member body (lit "audioBase64") = Ok v ->
  v = JUndefined \/ key = lit "-" ->
  post_transcribe key E body w
  = (Ok (mkResponse 400 (error_body (lit "Missing audio or API key"))), w)
  /\ filter (fun e => is_network e = true)
       (performed (post_transcribe key E body) w) = [].
Proof.
  intros Hbody H.
  assert (Hrun : post_transcribe key E body w
                 = (Ok (mkResponse 400 (error_body (lit "Missing audio or API key"))), w)).
  { unfold post_transcribe, bind, lift. rewrite Hbody.
    destruct H as [-> | ->].
    - reflexivity.
    - unfold no_credential. rewrite bool_decide_eq_true_2 by reflexivity.
      now rewrite orb_true_r. }
  split; [exact Hrun|].
  now rewrite (performed_nothing _ _ _ Hrun).
Qed.

Lemma transcribe_rejects_witness :
  post_transcribe (lit "secret") sample_env (JObj []) sample_world
  = (Ok (mkResponse 400 (error_body (lit "Missing audio or API key"))), sample_world)
  /\ filter (fun e => is_network e = true)
       (performed (post_transcribe (lit "secret") sample_env (JObj [])) sample_world) = [].
Proof.
  apply (transcribe_rejects (lit "secret") sample_env (JObj []) JUndefined sample_world).
  - reflexivity.
  - left. reflexivity.
Defined.

(** ** Successful requests and the cache *)

Lemma bind_ok_inv {A B} (m : M A) (f : A -> M B) (w w' : World) (b : B) :
  bind m f w = (Ok b, w') ->
  exists a w1, m w = (Ok a, w1) /\ f a w1 = (Ok b, w').
Proof.
  unfold bind. destruct (m w) as [[a|e] w1]; [eauto|discriminate].
Qed.

(** A reply with status 200 leaves the pipeline only through its last
    line, just after the list was stored under the key of the request. *)
Lemma chat_pipeline_ok (E : Env) (s key : jstring) (w w' : World) (r : Response) :
  chat_pipeline E s key w = (Ok r, w') ->
  status r = 200%Z ->
  exists messages,
    r = mkResponse 200 (messages_body (JArr messages))
    /\ cache w' !! key = Some (JArr messages, (now E AtStore + Cache.stdTTL * 1000)%Z).
Proof.
  unfold chat_pipeline. intros H Hst.
  apply bind_ok_inv in H as (_ & w1 & _ & H).
  destruct (completion E s) as [content|]; [|discriminate].
  apply bind_ok_inv in H as (rawContent & w2 & _ & H).
  destruct (parse_messages E (clean rawContent)) as [parsed|e].
  - apply bind_ok_inv in H as (validated & w3 & _ & H).
    apply bind_ok_inv in H as (ttsResults & w4 & _ & H).
    apply bind_ok_inv in H as (messages & w5 & _ & H).
    apply bind_ok_inv in H as ([] & w6 & Hset & H).
    injection H as <- <-. injection Hset as <-.
    exists messages. split; [reflexivity|].
    simpl. unfold Cache.set. apply lookup_insert_eq.
  - apply bind_ok_inv in H as (fb & w3 & _ & H).
    injection H as <- _. discriminate.
Qed.

Lemma cache_get_live (t : Z) (c : gmap jstring (JsVal * Z)) (key : jstring)
    (entry : JsVal * Z) :
  c !! key = Some entry -> Cache.live t entry = true -> Cache.get t c key = fst entry.
Proof. intros H Hl. unfold Cache.get. now rewrite H, Hl. Qed.

Lemma cache_live_earlier (t t' : Z) (entry : JsVal * Z) :
  (t <= t')%Z -> Cache.live t' entry = true -> Cache.live t entry = true.
Proof.
  unfold Cache.live. intros Ht H.
  apply orb_true_iff in H as [H|H]; apply orb_true_iff; [now left|right].
  apply Z.leb_le in H. apply Z.leb_le. lia.
Qed.

(** The four ways in which [/chat] answers with status 200. *)
Lemma post_chat_ok (key : jstring) (E : Env) (body : JsVal) (s : jstring)
    (w w' : World) (p : JsVal) :
  member body (lit "message") = Ok (JStr s) ->
  post_chat key E body w = (Ok (mkResponse 200 p), w') ->
  let cached := Cache.get (now E AtLookup) (cache w) (chat_cache_key s) in
  (truthy cached = true /\ p = messages_body cached /\ w' = w)
  \/ (truthy cached = false /\ s <> [] /\ no_credential key = true
      /\ p = messages_body (noApiKey (fallbackMessages w)) /\ w' = w)
  \/ (exists v t, truthy v = true /\ p = messages_body v
                  /\ cache w' !! chat_cache_key s = Some (v, t)).
Proof.
  intros Hbody H cached.
  destruct (truthy cached) eqn:Hc.
  { rewrite (post_chat_hit key E body s w Hbody Hc) in H. injection H as <- <-. auto. }
  destruct s as [|c s].
  { rewrite (post_chat_greeting key E body [] w Hbody Hc eq_refl) in H.
    destruct (greeting_run E (chat_cache_key []) w) as (a & l & w1 & Hrun & _).
    rewrite Hrun in H. injection H as <- <-.
    right. right. exists (greeting a l). eexists. split; [reflexivity|].
    split; [reflexivity|]. simpl. unfold Cache.set. apply lookup_insert_eq. }
  destruct (no_credential key) eqn:Hk.
  { rewrite (post_chat_no_credential key E body _ w Hbody Hc) in H by done.
    injection H as <- <-. right. left. repeat split; done. }
  rewrite (post_chat_live key E body _ w Hbody Hc) in H by done.
  unfold try_catch in H.
  destruct (chat_pipeline E (c :: s) (chat_cache_key (c :: s)) w) as [[r|e] w1] eqn:Hrun.
  - injection H as -> <-.
    apply chat_pipeline_ok in Hrun as (messages & [= ->] & Hentry); [|reflexivity].
    right. right. exists (JArr messages). eauto.
  - apply bind_ok_inv in H as (fb & w2 & _ & H). discriminate.
Qed.

(** A successful request followed, while the entry of its key lasts, by a
    request whose message has the same key: the second one returns what
    the first returned and changes nothing. *)
Lemma chat_replay (key : jstring) (E1 E2 : Env) (body1 body2 : JsVal) (s1 s2 : jstring)
    (w w' : World) (p : JsVal) :
  member body1 (lit "message") = Ok (JStr s1) ->
  member body2 (lit "message") = Ok (JStr s2) ->
  chat_cache_key s1 = chat_cache_key s2 ->
  post_chat key E1 body1 w = (Ok (mkResponse 200 p), w') ->
  (now E1 AtLookup <= now E2 AtLookup)%Z ->
  (exists entry, cache w' !! chat_cache_key s1 = Some entry
                 /\ Cache.live (now E2 AtLookup) entry = true) ->
  post_chat key E2 body2 w' = (Ok (mkResponse 200 p), w').
Proof.
  intros Hb1 Hb2 Hkey Hrun Hlater (entry & Hentry & Hlive).
  pose proof (cache_get_live _ _ _ _ Hentry Hlive) as Hget2. rewrite Hkey in Hget2.
  destruct (post_chat_ok key E1 body1 s1 w w' p Hb1 Hrun)
    as [(Hc & -> & ->) | [(Hc & Hs & Hk & -> & ->) | (v & t & Hv & -> & Hset)]].
  - pose proof (cache_live_earlier _ _ _ Hlater Hlive) as Hlive1.
    rewrite (cache_get_live _ _ _ _ Hentry Hlive1) in *.
    rewrite <- Hget2 at 1.
    apply (post_chat_hit key E2 body2 s2 w Hb2). now rewrite Hget2.
  - pose proof (cache_live_earlier _ _ _ Hlater Hlive) as Hlive1.
    rewrite (cache_get_live _ _ _ _ Hentry Hlive1) in Hc.
    apply (post_chat_no_credential key E2 body2 s2 w Hb2); [now rewrite Hget2| |done].
    intros ->. apply Hs. now apply chat_cache_key_empty.
  - rewrite Hentry in Hset. injection Hset as ->.
    rewrite <- Hget2 at 1.
    apply (post_chat_hit key E2 body2 s2 w' Hb2). now rewrite Hget2.
Qed.

(** C3: when a request for a text was answered with status 200 and the
    same text is sent again, no earlier, while the entry under its key
    has not expired, the second answer carries the same payload under
    status 200 and the world is left as it was: nothing is done outside
    the process. *)
Theorem chat_repeat_served_from_cache (key : jstring) (E1 E2 : Env) (body : JsVal)
    (s : jstring) (w w' : World) (p : JsVal) :
  member body (lit "message") = Ok (JStr s) ->
  post_chat key E1 body w = (Ok (mkResponse 200 p), w') ->
  (now E1 AtLookup <= now E2 AtLookup)%Z ->
  (exists entry, cache w' !! chat_cache_key s = Some entry
                 /\ Cache.live (now E2 AtLookup) entry = true) ->
  post_chat key E2 body w' = (Ok (mkResponse 200 p), w')
  /\ performed (post_chat key E2 body) w' = [].
Proof.
  intros Hbody Hrun Hlater Hlive.
  pose proof (chat_replay key E1 E2 body body s s w w' p Hbody Hbody eq_refl
                Hrun Hlater Hlive) as Hagain.
  split; [exact Hagain|]. now apply (performed_nothing _ _ _ Hagain).
Qed.

Lemma chat_repeat_served_from_cache_witness :
  post_chat (lit "secret") sample_env (chat_request (lit "hello")) (sample_after (lit "hello"))
  = (Ok (mkResponse 200 (sample_payload (lit "hello"))), sample_after (lit "hello"))
  /\ performed (post_chat (lit "secret") sample_env (chat_request (lit "hello")))
       (sample_after (lit "hello")) = [].
Proof.
  apply (chat_repeat_served_from_cache (lit "secret") sample_env sample_env
           (chat_request (lit "hello")) (lit "hello") sample_world).
  - reflexivity.
  - vm_compute. reflexivity.
  - reflexivity.
  - eexists. split; [vm_compute; reflexivity | reflexivity].
Defined.

(** C9: two different non-empty messages can have the same key, and for
    every such pair the key is the same and the second message, sent
    while the entry of the first lasts, is answered with the payload
    that the first request returned and stored. *)
Theorem chat_key_collision :
  (exists s1 s2 : jstring,
      s1 <> [] /\ s2 <> [] /\ s1 <> s2
      /\ Str.replace_non_alnum s1 = Str.replace_non_alnum s2)
  /\ forall (key : jstring) (E1 E2 : Env) (s1 s2 : jstring) (w w' : World) (p : JsVal),
      s1 <> [] -> s2 <> [] -> s1 <> s2 ->
      Str.replace_non_alnum s1 = Str.replace_non_alnum s2 ->
      chat_cache_key s1 = chat_cache_key s2
      /\ (post_chat key E1 (chat_request s1) w = (Ok (mkResponse 200 p), w') ->
          (now E1 AtLookup <= now E2 AtLookup)%Z ->
          (exists entry, cache w' !! chat_cache_key s1 = Some entry
                         /\ Cache.live (now E2 AtLookup) entry = true) ->
          post_chat key E2 (chat_request s2) w' = (Ok (mkResponse 200 p), w')
          /\ performed (post_chat key E2 (chat_request s2)) w' = []).
Proof.
  split.
  - exists (lit "hi!"), (lit "hi?"). repeat split; discriminate || reflexivity.
  - intros key E1 E2 s1 s2 w w' p _ _ _ Hsame.
    assert (Hkey : chat_cache_key s1 = chat_cache_key s2)
      by (unfold chat_cache_key; now rewrite Hsame).
    split; [exact Hkey|]. intros Hrun Hlater Hlive.
    pose proof (chat_replay key E1 E2 (chat_request s1) (chat_request s2) s1 s2 w w' p
                  eq_refl eq_refl Hkey Hrun Hlater Hlive) as Hagain.
    split; [exact Hagain|]. now apply (performed_nothing _ _ _ Hagain).
Qed.

Lemma chat_key_collision_witness :
  chat_cache_key (lit "hi!") = chat_cache_key (lit "hi?")
  /\ post_chat (lit "secret") sample_env (chat_request (lit "hi?")) (sample_after (lit "hi!"))
     = (Ok (mkResponse 200 (sample_payload (lit "hi!"))), sample_after (lit "hi!"))
  /\ performed (post_chat (lit "secret") sample_env (chat_request (lit "hi?")))
       (sample_after (lit "hi!")) = [].
Proof.
  destruct (proj2 chat_key_collision (lit "secret") sample_env sample_env
              (lit "hi!") (lit "hi?") sample_world (sample_after (lit "hi!"))
              (sample_payload (lit "hi!")))
    as [Hkey Hserved]; try discriminate; try reflexivity.
  split; [exact Hkey|]. apply Hserved.
  - vm_compute. reflexivity.
  - reflexivity.
  - eexists. split; [vm_compute; reflexivity | reflexivity].
Defined.

(** ** Running the primitives *)

Lemma readFile_run (E : Env) (file : jstring) (w : World) (data : list byte) :
  read_fault E file = false -> files w !! file = Some data ->
  readFile E file w = (Ok data, with_trace (trace w ++ [EvRead file]) w).
Proof.
  intros Hf Hd. unfold readFile, bind, emit, modify, gets. simpl.
  rewrite Hf. simpl. now rewrite Hd.
Qed.

Lemma readFile_ok (E : Env) (file : jstring) (w w' : World) (data : list byte) :
  readFile E file w = (Ok data, w') -> read_fault E file = false.
Proof.
  unfold readFile, bind, emit, modify. simpl.
  destruct (read_fault E file); [discriminate|done].
Qed.

Lemma audioFileToBase64_run (E : Env) (file : jstring) (w : World) (data : list byte) :
  read_fault E file = false -> files w !! file = Some data ->
  audioFileToBase64 E file w
  = (Ok (JStr (Base64.encode data)), with_trace (trace w ++ [EvRead file]) w).
Proof.
  intros Hf Hd. unfold audioFileToBase64, bind. now rewrite (readFile_run E file w data).
Qed.

Lemma audioFileToBase64_ok (E : Env) (file : jstring) (w w' : World) (v : JsVal) :
  audioFileToBase64 E file w = (Ok v, w') -> read_fault E file = false.
Proof.
  unfold audioFileToBase64. intros (data & w1 & H & _)%bind_ok_inv.
  now apply readFile_ok in H.
Qed.

Lemma lipSyncMessage_result (E : Env) (i : nat) (w : World) :
  fst (lipSyncMessage E i w)
  = if exec_ok E (ffmpeg_of i) && exec_ok E (rhubarb_of i) then Ok tt
    else Thrown ExecError.
Proof.
  unfold lipSyncMessage, convertMp3ToWav, execCommand, tool_wrote, bind, emit,
    modify, writeFile, ffmpeg_of, rhubarb_of. simpl.
  destruct (exec_ok E (ffmpeg_command _ _)); simpl; [|done].
  now destruct (exec_ok E (rhubarb_command _ _)).
Qed.

Lemma lipSyncMessage_json (E : Env) (i : nat) (w w' : World) :
  lipSyncMessage E i w = (Ok tt, w') ->
  files w' !! message_file i ".json" = Some (tool_output E (message_file i ".json")).
Proof.
  unfold lipSyncMessage, convertMp3ToWav, execCommand, tool_wrote, bind, emit,
    modify, writeFile. simpl.
  destruct (exec_ok E (ffmpeg_command _ _)); simpl; [|discriminate].
  destruct (exec_ok E (rhubarb_command _ _)); simpl; [|discriminate].
  intros [= <-]. simpl. apply lookup_insert_eq.
Qed.


Lemma lipsync_files_mp3 (i j : nat) (w w' : World) :
  changes (lipsync_files i) w w' ->
  files w' !! message_file j ".mp3" = files w !! message_file j ".mp3".
Proof.
  intros (_ & Hf & _). apply Hf. simpl.
  intros [H|H]; eapply message_file_ext in H; auto; discriminate.
Qed.

(** ** Running the lip-sync task of one message *)

Section TaskRun.

Variable E : Env.
Variable w0 : World.
Variable i : nat.
Variables t f a au l : JsVal.
Variable body : list byte.

Variable key : jstring.

Let m : JsVal := chat_message t f a au l.
Let mp3 : jstring := message_file i ".mp3".
Let json : jstring := message_file i ".json".
Let cached : JsVal := cached_lipsync E w0 m.

Hypothesis Hfault : read_fault E mp3 = false.
Hypothesis Hkey : lipSyncCacheKey m = Ok key.

(** The [catch] block, and the branch of a cached entry, read the audio
    and return. *)
Lemma audio_then_return (w : World) (k : JsVal -> JsVal) :
  files w !! mp3 = Some body ->
  fst ((audio <- audioFileToBase64 E mp3 ;; ret (k audio)) w)
  = Ok (k (JStr (Base64.encode body))).
Proof.
  intros Hfile. unfold bind. now rewrite (audioFileToBase64_run E mp3 w body).
Qed.

(** What follows [lipSyncMessage] in the [try] block. *)
Lemma after_lipSyncMessage (w : World) :
  files w !! mp3 = Some body ->
  files w !! json = Some (tool_output E json) ->
  exists w',
    (audio <- audioFileToBase64 E mp3 ;;
     lipsync <- readJsonTranscript E json ;;
     cache_set E (AtLipSyncStore i) key lipsync ;;;
     ret (assign (assign m (lit "audio") audio) (lit "lipsync") lipsync)) w
    = (match (if read_fault E json then None
              else JSON_parse E (utf8_decode E (tool_output E json))) with
       | Some lipsync => Ok (chat_message t f a (JStr (Base64.encode body)) lipsync)
       | None => Thrown (if read_fault E json then IoError else SyntaxError)
       end, w')
    /\ files w' = files w.
Proof.
  intros Hfile Hjson. unfold bind at 1.
  rewrite (audioFileToBase64_run E mp3 w body) by done.
  set (w1 := with_trace _ w).
  unfold bind at 1, readJsonTranscript, bind at 1.
  destruct (read_fault E json) eqn:Hjf.
  - unfold readFile, bind, emit, modify. simpl. rewrite Hjf. simpl. eauto.
  - rewrite (readFile_run E json w1 (tool_output E json)) by done.
    destruct (JSON_parse E (utf8_decode E (tool_output E json))) as [lipsync|]; simpl; eauto.
Qed.

Lemma lipSyncTask_run (w : World) :
  files w !! mp3 = Some body ->
  fst (lipSyncTask E (tts_result i m) (looked_up E w0 (tts_result i m)) w)
  = Ok (chat_message t f a (JStr (Base64.encode body)) (lipsync_result E cached i)).
Proof.
  intros Hfile. unfold cached.
  unfold lipSyncTask, looked_up, lipsync_result, cached_lipsync, tts_result.
  cbn [message fileName index].
  rewrite Hkey. unfold m.
  set (c := Cache.get (now E AtLipSync) (cache w0) key).
  destruct (truthy c) eqn:Hc.
  { exact (audio_then_return w
             (fun audio => assign (assign (chat_message t f a au l) (lit "lipsync") c)
                             (lit "audio") audio) Hfile). }
  fold mp3. fold json.
  unfold try_catch, bind at 1.
  pose proof (lipSyncMessage_result E i w) as Hres.
  pose proof (within_lipSyncMessage (lipsync_files i) E i I I
                (or_introl eq_refl) (or_intror eq_refl) w) as Hfoot.
  destruct (lipSyncMessage E i w) as [[[]|e] w1] eqn:Hrun; simpl in Hres, Hfoot.
  - assert (Hfile1 : files w1 !! mp3 = Some body)
      by exact (eq_trans (lipsync_files_mp3 i i w w1 Hfoot) Hfile).
    destruct (after_lipSyncMessage w1 Hfile1 (lipSyncMessage_json E i w w1 Hrun))
      as (w2 & Hrest & Hfiles2).
    unfold m in Hrest. rewrite Hrest.
    destruct (exec_ok E (ffmpeg_of i) && exec_ok E (rhubarb_of i)); [|discriminate].
    simpl andb.
    destruct (read_fault E json); simpl negb; cbv iota.
    + apply (audio_then_return w2). now rewrite Hfiles2.
    + destruct (JSON_parse E (utf8_decode E (tool_output E json))); [reflexivity|].
      apply (audio_then_return w2). now rewrite Hfiles2.
  - destruct (exec_ok E (ffmpeg_of i) && exec_ok E (rhubarb_of i)); [discriminate|].
    simpl andb. cbv iota.
    apply (audio_then_return w1).
    exact (eq_trans (lipsync_files_mp3 i i w w1 Hfoot) Hfile).
Qed.

Lemma lipSyncTask_changes (w : World) :
  changes (lipsync_files i) w
    (snd (lipSyncTask E (tts_result i m) (looked_up E w0 (tts_result i m)) w)).
Proof.
  apply within_lipSyncTask. intros k _ _. simpl. tauto.
Qed.

End TaskRun.

(** ** Running the two stages *)

Lemma validate_validated (msg v : JsVal) : validate msg = Ok v -> validated v.
Proof.
  unfold validate, validated.
  destruct (member msg (lit "text")); [|discriminate].
  destruct (member msg (lit "facialExpression")); [|discriminate].
  destruct (member msg (lit "animation")); [|discriminate].
  intros [= <-]. eauto.
Qed.

Lemma map_res_ok {A B} (f : A -> Res B) (items : list A) (out : list B) :
  map_res f items = Ok out -> Forall2 (fun x y => f x = Ok y) items out.
Proof.
  revert out. induction items as [|x items IH]; intros out; simpl.
  - intros [= <-]. constructor.
  - destruct (f x) as [y|e] eqn:Hx; [|discriminate].
    destruct (map_res f items) as [ys|e]; [|discriminate].
    intros [= <-]. constructor; auto.
Qed.

Lemma validate_all_validated (parsed : JsVal) (vs : list JsVal) :
  validate_all parsed = Ok vs -> Forall validated vs.
Proof.
  destruct parsed; try discriminate. simpl. intros H%map_res_ok.
  induction H; constructor; eauto using validate_validated.
Qed.

Lemma validated_text (m : JsVal) :
  validated m -> member m (lit "text") = Ok (field m (lit "text")).
Proof. intros (t & f & a & ->). reflexivity. Qed.

Lemma ttsTask_run (E : Env) (i : nat) (m : JsVal) (w : World) (body : list byte) :
  validated m -> speech_audio E i m = Some body ->
  ttsTask E i m w
  = (Ok (tts_result i m),
     with_files (<[message_file i ".mp3" := body]> (files w))
       (with_trace (trace w ++ [EvSpeech (field m (lit "text"));
                                EvWrite (message_file i ".mp3")]) w)).
Proof.
  intros Hm Hs. unfold ttsTask, bind, lift, emit, modify, writeFile.
  rewrite (validated_text m Hm). simpl. unfold speech_audio in Hs.
  destruct (speech E i (field m (lit "text"))); try discriminate.
  injection Hs as ->. unfold with_files, with_trace. simpl.
  now rewrite <- app_assoc.
Qed.

Lemma within_tts_tasks (F : Footprint) (E : Env) (messages : list JsVal) (k : nat) :
  (forall i, may_write F (message_file (k + i) ".mp3")) ->
  within F (promise_all (imap (fun i => ttsTask E (k + i)) messages)).
Proof.
  intros Hw. apply within_promise_all.
  revert k Hw. induction messages as [|m ms IH]; intros k Hw; simpl; constructor.
  - now apply within_ttsTask.
  - rewrite (imap_ext _ (fun i => ttsTask E (S k + i)))
      by (intros; simpl; f_equal; lia).
    apply IH. intros i. replace (S k + i) with (k + S i) by lia. apply Hw.
Qed.

Lemma tts_stage_run (E : Env) (messages : list JsVal) :
  Forall validated messages ->
  forall (k : nat) (w : World),
    (forall i m, messages !! i = Some m -> is_Some (speech_audio E (k + i) m)) ->
    exists w',
      promise_all (imap (fun i => ttsTask E (k + i)) messages) w
      = (Ok (imap (fun i => tts_result (k + i)) messages), w')
      /\ (forall i m body,
             messages !! i = Some m -> speech_audio E (k + i) m = Some body ->
             files w' !! message_file (k + i) ".mp3" = Some body)
      /\ exists new,
           trace w' = trace w ++ new
           /\ forall i m, messages !! i = Some m ->
                          EvWrite (message_file (k + i) ".mp3") ∈ new.
Proof.
  induction 1 as [|m ms Hm _ IH]; intros k w Hspeech.
  - exists w. split; [reflexivity|]. split.
    + intros i m body Hi. now rewrite lookup_nil in Hi.
    + exists []. split; [now rewrite app_nil_r|].
      intros i m Hi. now rewrite lookup_nil in Hi.
  - destruct (Hspeech 0 m eq_refl) as [body Hbody].
    rewrite Nat.add_0_r in Hbody.
    simpl imap. cbn [promise_all]. rewrite Nat.add_0_r.
    rewrite (ttsTask_run E k m w body Hm Hbody).
    set (w1 := with_files _ _).
    rewrite (imap_ext _ (fun i => ttsTask E (S k + i)))
      by (intros; simpl; f_equal; lia).
    destruct (IH (S k) w1) as (w' & Hrun & Hfiles & new & Htrace & Hnew).
    { intros i m' Hi. replace (S k + i) with (k + S i) by lia. now apply (Hspeech (S i)). }
    pose proof (within_tts_tasks (later_speech_files k) E ms (S k)
                  (fun i => ex_intro _ i eq_refl) w1) as Hlater.
    rewrite Hrun in *. exists w'. split; [|split].
    + do 3 f_equal. apply imap_ext. intros; simpl. f_equal. lia.
    + intros [|i] m' body' Hi Hb.
      * injection Hi as <-. rewrite Nat.add_0_r in *.
        destruct Hlater as (_ & Hf & _). simpl in Hf. rewrite Hf.
        -- subst w1. simpl. rewrite lookup_insert_eq. congruence.
        -- intros (j & Hj). apply message_file_index in Hj. lia.
      * replace (k + S i) with (S k + i) in * by lia. eauto.
    + exists ([EvSpeech (field m (lit "text")); EvWrite (message_file k ".mp3")] ++ new).
      split; [rewrite Htrace; subst w1; simpl; now rewrite <- app_assoc|].
      intros [|i] m' Hi.
      * rewrite Nat.add_0_r. apply elem_of_app. left. set_solver.
      * replace (k + S i) with (S k + i) by lia. apply elem_of_app. right. eauto.
Qed.

Lemma lipsync_stage_run (E : Env) (w0 : World) (bodies : nat -> list byte)
    (messages : list JsVal) :
  Forall (fun m => validated m /\ exists key, lipSyncCacheKey m = Ok key) messages ->
  forall (k : nat) (w : World),
    (forall i, i < length messages ->
       read_fault E (message_file (k + i) ".mp3") = false
       /\ files w !! message_file (k + i) ".mp3" = Some (bodies (k + i))) ->
    exists w',
      promise_all
        (zip_with (lipSyncTask E)
           (imap (fun i => tts_result (k + i)) messages)
           (map (looked_up E w0) (imap (fun i => tts_result (k + i)) messages))) w
      = (Ok (imap (fun i m =>
                     with_media m (JStr (Base64.encode (bodies (k + i))))
                       (lipsync_result E (cached_lipsync E w0 m) (k + i)))
               messages), w')
      /\ forall j, files w' !! message_file j ".mp3" = files w !! message_file j ".mp3".
Proof.
  induction 1 as [|m ms [Hm [key Hkey]] _ IH]; intros k w Hfiles.
  - exists w. split; reflexivity || done.
  - destruct Hm as (t & f & a & ->).
    destruct (Hfiles 0) as [Hfault Hfile]; [simpl; lia|].
    rewrite Nat.add_0_r in Hfault, Hfile.
    rewrite imap_cons. cbn [map zip_with promise_all]. rewrite Nat.add_0_r.
    pose proof (lipSyncTask_run E w0 k t f a (JStr []) (JObj []) (bodies k) key Hfault Hkey
                  w Hfile) as Hfst.
    pose proof (lipSyncTask_changes E w0 k t f a (JStr []) (JObj []) w) as Hch.
    destruct (lipSyncTask E _ _ w) as [r w1]. simpl in Hfst, Hch. subst r.
    destruct (IH (S k) w1) as (w' & Hrun & Hsame).
    { intros i Hi. destruct (Hfiles (S i)) as [Hf1 Hf2]; [simpl; lia|].
      replace (k + S i) with (S k + i) in * by lia. split; [done|].
      now rewrite (lipsync_files_mp3 k (S k + i) w w1 Hch). }
    rewrite (imap_ext _ (fun i => tts_result (S k + i)))
      by (intros; simpl; f_equal; lia).
    rewrite Hrun. exists w'. split.
    + rewrite imap_cons, Nat.add_0_r. do 3 f_equal. apply imap_ext. intros; simpl.
      replace (k + S i) with (S (k + i)) by lia. reflexivity.
    + intros j. rewrite Hsame. apply (lipsync_files_mp3 k j w w1 Hch).
Qed.

Lemma cached_lipsync_cache (E : Env) (w w' : World) (m : JsVal) :
  cache w' = cache w -> cached_lipsync E w' m = cached_lipsync E w m.
Proof. unfold cached_lipsync. now intros ->. Qed.

(** When every speech request succeeds and no read of a speech file
    fails, the pipeline answers with status 200 and the finished
    messages, and the speech files hold what the endpoint returned. *)
Lemma chat_pipeline_run (E : Env) (s key : jstring) (w : World)
    (content : JsVal) (rawContent : jstring) (parsed : JsVal) (vs : list JsVal) :
  completion E s = Some content ->
  as_string content = Ok rawContent ->
  parse_messages E (clean rawContent) = Ok parsed ->
  validate_all parsed = Ok vs ->
  (forall i m, vs !! i = Some m -> is_Some (speech_audio E i m)) ->
  (forall i m, vs !! i = Some m -> exists k, lipSyncCacheKey m = Ok k) ->
  (forall i, i < length vs -> read_fault E (message_file i ".mp3") = false) ->
  exists w',
    chat_pipeline E s key w
    = (Ok (mkResponse 200 (messages_body (JArr (imap (finished E w) vs)))), w')
    /\ (forall i m body,
          vs !! i = Some m -> speech_audio E i m = Some body ->
          files w' !! message_file i ".mp3" = Some body)
    /\ (forall i m,
          vs !! i = Some m ->
          EvWrite (message_file i ".mp3") ∈ drop (length (trace w)) (trace w')).
Proof.
  intros Hcontent Hraw Hparsed Hval Hspeech Hkeys Hread.
  pose proof (validate_all_validated parsed vs Hval) as Hvs.
  assert (Hvk : Forall (fun m => validated m /\ exists k, lipSyncCacheKey m = Ok k) vs).
  { apply Forall_lookup. intros i m Hm. split; [|now apply (Hkeys i)].
    now apply (proj1 (Forall_lookup _ _) Hvs i). }
  set (w1 := with_trace (trace w ++ [EvCompletion s]) w).
  destruct (tts_stage_run E vs Hvs 0 w1 Hspeech) as (w2 & Htts & Hfiles2 & new & Htrace2 & Hnew).
  assert (Htts' : promise_all (imap (ttsTask E) vs) w1 = (Ok (imap tts_result vs), w2))
    by exact Htts.
  assert (Hcache : cache w2 = cache w).
  { pose proof (within_tts_tasks (mkFootprint (fun _ => False) (fun _ => True) (fun _ => True))
                  E vs 0 (fun _ => I) w1) as Hch.
    rewrite Htts in Hch. apply changes_cache_same in Hch; [exact Hch|tauto]. }
  set (bodies := fun j => match vs !! j with
                          | Some m => default [] (speech_audio E j m)
                          | None => []
                          end).
  destruct (lipsync_stage_run E w2 bodies vs Hvk 0 w2) as (w3 & Hstage & Hfiles3).
  { intros i Hi. split; [now apply Hread|].
    destruct (lookup_lt_is_Some_2 vs i Hi) as [m Hm].
    destruct (Hspeech i m Hm) as [body Hbody].
    rewrite (Hfiles2 i m body Hm Hbody). subst bodies. simpl. now rewrite Hm, Hbody. }
  assert (Hstage' : lipSyncStage E (imap tts_result vs) w2
                    = (Ok (imap (finished E w) vs), w3)).
  { rewrite lipSyncStage_run.
    etransitivity; [exact Hstage|]. do 2 f_equal. apply imap_ext.
    intros i m Hm. simpl. destruct (Hspeech i m Hm) as [body Hbody].
    unfold finished. rewrite Hbody. subst bodies. simpl. rewrite Hm, Hbody. simpl.
    now rewrite (cached_lipsync_cache E w w2 m Hcache). }
  assert (Htrace3 : exists new', trace w3 = trace w2 ++ new').
  { pose proof (changes_lipSyncStage
                  (mkFootprint (fun _ => True) (fun _ => True) (fun _ => True))
                  E (imap tts_result vs) w2) as Hch.
    rewrite Hstage' in Hch. destruct Hch as (_ & _ & new' & Hnew' & _); [|eauto].
    apply Forall_forall. intros r _ k _ _. simpl. tauto. }
  destruct Htrace3 as (new' & Htrace3).
  eexists. split; [|split].
  - unfold chat_pipeline. unfold bind at 1. rewrite emit_run. rewrite Hcontent.
    unfold bind at 1, lift at 1. rewrite Hraw. rewrite Hparsed.
    unfold bind at 1, lift at 1. rewrite Hval.
    unfold bind at 1. fold w1. rewrite Htts'.
    unfold bind at 1. rewrite Hstage'. reflexivity.
  - intros i m body Hm Hbody. simpl. rewrite Hfiles3. eauto.
  - intros i m Hm. simpl. rewrite Htrace3, Htrace2. subst w1. simpl.
    rewrite <- !app_assoc, drop_app_length.
    apply elem_of_app. right. apply elem_of_app. left. now apply (Hnew i m).
Qed.

(** ** What a status 200 says about the run *)

Lemma tts_stage_speech (E : Env) (messages : list JsVal) (w w' : World)
    (rs : list TtsResult) :
  promise_all (imap (ttsTask E) messages) w = (Ok rs, w') ->
  forall i m, messages !! i = Some m -> is_Some (speech_audio E i m).
Proof.
  assert (Hgen : forall (k : nat) (w w' : World) (rs : list TtsResult),
             promise_all (imap (fun i => ttsTask E (k + i)) messages) w = (Ok rs, w') ->
             forall i m, messages !! i = Some m -> is_Some (speech_audio E (k + i) m)).
  { induction messages as [|m ms IH]; intros k w1 w2 rs1 H i m' Hi.
    - now rewrite lookup_nil in Hi.
    - simpl in H. apply promise_all_cons_ok in H as (r & rest & w3 & -> & Hr & Hrest).
      rewrite (imap_ext _ (fun i => ttsTask E (S k + i))) in Hrest
        by (intros; simpl; f_equal; lia).
      destruct i as [|i].
      + injection Hi as <-.
        apply ttsTask_ok in Hr as (_ & textInput & body & Ht & Hs & _).
        rewrite Nat.add_0_r in *. unfold speech_audio, field. rewrite Ht, Hs. eauto.
      + replace (k + S i) with (S k + i) by lia. eapply IH; eauto. }
  apply (Hgen 0).
Qed.

Lemma lipSyncTask_ok_read (E : Env) (r : TtsResult) (looked : Res (jstring * JsVal))
    (w w' : World) (v : JsVal) :
  lipSyncTask E r looked w = (Ok v, w') -> read_fault E (fileName r) = false.
Proof.
  unfold lipSyncTask. destruct looked as [[key c]|e]; [|discriminate].
  destruct (truthy c).
  - intros (audio & w1 & H & _)%bind_ok_inv. now apply audioFileToBase64_ok in H.
  - unfold try_catch.
    destruct (bind (lipSyncMessage E (index r)) _ w) as [[v'|e] w1] eqn:Htry.
    + intros _. apply bind_ok_inv in Htry as (_ & w2 & _ & Htry).
      apply bind_ok_inv in Htry as (audio & w3 & H & _).
      now apply audioFileToBase64_ok in H.
    + intros (audio & w2 & H & _)%bind_ok_inv. now apply audioFileToBase64_ok in H.
Qed.

Lemma lipsync_stage_reads (E : Env) (rs : list TtsResult)
    (ls : list (Res (jstring * JsVal))) (w w' : World) (out : list JsVal) :
  length ls = length rs ->
  promise_all (zip_with (lipSyncTask E) rs ls) w = (Ok out, w') ->
  Forall (fun r => read_fault E (fileName r) = false) rs.
Proof.
  revert ls w out. induction rs as [|r rs IH]; intros [|l ls] w out Hlen H;
    try discriminate; constructor.
  - simpl in H. apply promise_all_cons_ok in H as (v & rest & w1 & _ & Hv & _).
    now apply lipSyncTask_ok_read in Hv.
  - simpl in H. apply promise_all_cons_ok in H as (v & rest & w1 & _ & _ & Hrest).
    injection Hlen as Hlen. eauto.
Qed.

Lemma lipSyncTask_ok_key (E : Env) (w0 : World) (r : TtsResult) (w w' : World) (v : JsVal) :
  lipSyncTask E r (looked_up E w0 r) w = (Ok v, w') ->
  exists key, lipSyncCacheKey (message r) = Ok key.
Proof.
  unfold lipSyncTask, looked_up.
  destruct (lipSyncCacheKey (message r)) as [key|e]; [eauto|discriminate].
Qed.

Lemma lipsync_stage_keys (E : Env) (w0 : World) (rs : list TtsResult) (w w' : World)
    (out : list JsVal) :
  promise_all (zip_with (lipSyncTask E) rs (map (looked_up E w0) rs)) w = (Ok out, w') ->
  Forall (fun r => exists key, lipSyncCacheKey (message r) = Ok key) rs.
Proof.
  revert w out. induction rs as [|r rs IH]; intros w out H; constructor.
  - simpl in H. apply promise_all_cons_ok in H as (v & rest & w1 & _ & Hv & _).
    now apply lipSyncTask_ok_key in Hv.
  - simpl in H. apply promise_all_cons_ok in H as (v & rest & w1 & _ & _ & Hrest). eauto.
Qed.

Lemma chat_pipeline_answered (E : Env) (s key : jstring) (w w' : World) (r : Response) :
  chat_pipeline E s key w = (Ok r, w') ->
  status r = 200%Z ->
  exists content rawContent parsed vs,
    completion E s = Some content
    /\ as_string content = Ok rawContent
    /\ parse_messages E (clean rawContent) = Ok parsed
    /\ validate_all parsed = Ok vs
    /\ (forall i m, vs !! i = Some m -> is_Some (speech_audio E i m))
    /\ (forall i m, vs !! i = Some m -> exists k, lipSyncCacheKey m = Ok k)
    /\ (forall i, i < length vs -> read_fault E (message_file i ".mp3") = false).
Proof.
  unfold chat_pipeline. intros H Hst.
  apply bind_ok_inv in H as (_ & w1 & _ & H).
  destruct (completion E s) as [content|] eqn:Hcontent; [|discriminate].
  apply bind_ok_inv in H as (rawContent & w2 & Hraw & H).
  injection Hraw as Hraw _.
  destruct (parse_messages E (clean rawContent)) as [parsed|e] eqn:Hparsed.
  2:{ apply bind_ok_inv in H as (fb & w3 & _ & H). injection H as <- _. discriminate. }
  apply bind_ok_inv in H as (vs & w3 & Hval & H). injection Hval as Hval _.
  apply bind_ok_inv in H as (ttsResults & w4 & Htts & H).
  apply bind_ok_inv in H as (messages & w5 & Hstage & _).
  exists content, rawContent, parsed, vs. repeat split; auto.
  - eapply tts_stage_speech; eauto.
  - intros i m Hm. pose proof (tts_stage_ok _ _ _ _ _ Htts) as ->.
    rewrite lipSyncStage_run in Hstage.
    apply lipsync_stage_keys in Hstage. rewrite Forall_forall in Hstage.
    apply (Hstage (tts_result i m)).
    apply list_elem_of_lookup. exists i. rewrite list_lookup_imap, Hm. reflexivity.
  - intros i Hi. pose proof (tts_stage_ok _ _ _ _ _ Htts) as ->.
    rewrite lipSyncStage_run in Hstage.
    apply lipsync_stage_reads in Hstage; [|now rewrite length_map].
    destruct (lookup_lt_is_Some_2 vs i Hi) as [m Hm].
    rewrite Forall_forall in Hstage.
    apply (Hstage (tts_result i m)).
    apply list_elem_of_lookup. exists i. rewrite list_lookup_imap, Hm. reflexivity.
Qed.

(** ** Requests that go through the pipeline *)

Section Pipeline.

Variable lemonfoxApiKey : jstring.
Variable E : Env.
Variable body : JsVal.
Variable s : jstring.
Variable w : World.

Hypothesis Hbody : member body (lit "message") = Ok (JStr s).
Hypothesis Htext : s <> [].
Hypothesis Hmiss :
  truthy (Cache.get (now E AtLookup) (cache w) (chat_cache_key s)) = false.
Hypothesis Hcredential : no_credential lemonfoxApiKey = false.

Lemma post_chat_pipeline_run (content : JsVal) (rawContent : jstring) (parsed : JsVal)
    (vs : list JsVal) :
  completion E s = Some content ->
  as_string content = Ok rawContent ->
  parse_messages E (clean rawContent) = Ok parsed ->
  validate_all parsed = Ok vs ->
  (forall i m, vs !! i = Some m -> is_Some (speech_audio E i m)) ->
  (forall i m, vs !! i = Some m -> exists k, lipSyncCacheKey m = Ok k) ->
  (forall i, i < length vs -> read_fault E (message_file i ".mp3") = false) ->
  exists w',
    post_chat lemonfoxApiKey E body w
    = (Ok (mkResponse 200 (messages_body (JArr (imap (finished E w) vs)))), w')
    /\ (forall i m body,
          vs !! i = Some m -> speech_audio E i m = Some body ->
          files w' !! message_file i ".mp3" = Some body)
    /\ (forall i m,
          vs !! i = Some m ->
          EvWrite (message_file i ".mp3") ∈ performed (post_chat lemonfoxApiKey E body) w).
Proof.
  intros Hcontent Hraw Hparsed Hval Hspeech Hkeys Hread.
  destruct (chat_pipeline_run E s (chat_cache_key s) w content rawContent parsed vs
              Hcontent Hraw Hparsed Hval Hspeech Hkeys Hread) as (w' & Hrun & Hfiles & Hwrites).
  assert (Hpost : post_chat lemonfoxApiKey E body w
                  = (Ok (mkResponse 200 (messages_body (JArr (imap (finished E w) vs)))), w')).
  { rewrite (post_chat_live lemonfoxApiKey E body s w Hbody Hmiss Htext Hcredential).
    unfold try_catch. now rewrite Hrun. }
  exists w'. split; [exact Hpost|]. split; [exact Hfiles|].
  intros i m Hm. unfold performed. rewrite Hpost. now apply (Hwrites i m).
Qed.

Lemma post_chat_pipeline_answered (p : JsVal) (w' : World) :
  post_chat lemonfoxApiKey E body w = (Ok (mkResponse 200 p), w') ->
  exists content rawContent parsed vs,
    completion E s = Some content
    /\ as_string content = Ok rawContent
    /\ parse_messages E (clean rawContent) = Ok parsed
    /\ validate_all parsed = Ok vs
    /\ (forall i m, vs !! i = Some m -> is_Some (speech_audio E i m))
    /\ (forall i m, vs !! i = Some m -> exists k, lipSyncCacheKey m = Ok k)
    /\ (forall i, i < length vs -> read_fault E (message_file i ".mp3") = false).
Proof.
  rewrite (post_chat_live lemonfoxApiKey E body s w Hbody Hmiss Htext Hcredential).
  unfold try_catch.
  destruct (chat_pipeline E s (chat_cache_key s) w) as [[r|e] w1] eqn:Hrun.
  - intros [= -> <-]. now apply (chat_pipeline_answered E s _ w w1 _ Hrun).
  - intros (fb & w2 & _ & H)%bind_ok_inv. discriminate.
Qed.

(** The commands run during the request belong to messages whose text has
    no usable lip-sync entry. *)
Lemma post_chat_pipeline_execs (content : JsVal) (rawContent : jstring) (parsed : JsVal)
    (vs : list JsVal) (c : jstring) :
  completion E s = Some content ->
  as_string content = Ok rawContent ->
  parse_messages E (clean rawContent) = Ok parsed ->
  validate_all parsed = Ok vs ->
  EvExec c ∈ performed (post_chat lemonfoxApiKey E body) w ->
  exists j m,
    vs !! j = Some m
    /\ truthy (cached_lipsync E w m) = false
    /\ (c = ffmpeg_of j \/ c = rhubarb_of j).
Proof.
  intros Hcontent Hraw Hparsed Hval.
  set (F := mkFootprint (fun _ => True) (fun _ => True)
              (fun c => exists j m, vs !! j = Some m
                                    /\ truthy (cached_lipsync E w m) = false
                                    /\ (c = ffmpeg_of j \/ c = rhubarb_of j))).
  apply (changes_performed F).
  rewrite (post_chat_live lemonfoxApiKey E body s w Hbody Hmiss Htext Hcredential).
  apply changes_try_catch; [|intros; footprint].
  apply changes_chat_pipeline; [done|done|].
  intros content' raw' parsed' vs' Hc' Hr' Hp' Hv'.
  rewrite Hcontent in Hc'. injection Hc' as <-.
  rewrite Hraw in Hr'. injection Hr' as <-.
  rewrite Hparsed in Hp'. injection Hp' as <-.
  rewrite Hval in Hv'. injection Hv' as <-.
  apply Forall_lookup. intros j r Hr.
  rewrite list_lookup_imap in Hr.
  destruct (vs !! j) as [m|] eqn:Hm; [|discriminate]. injection Hr as <-.
  intros key Hkey Hc. simpl.
  assert (Hcached : truthy (cached_lipsync E w m) = false)
    by (unfold cached_lipsync; simpl in Hkey; now rewrite Hkey).
  repeat split; eauto 10.
Qed.

End Pipeline.

(** ** Validation *)

Lemma validate_fields (entry v : JsVal) :
  validate entry = Ok v ->
  v = chat_message
        (js_or (field entry (lit "text")) (JStr (lit "Oops, something went wrong!")))
        (js_or (field entry (lit "facialExpression")) (JStr (lit "default")))
        (js_or (field entry (lit "animation")) (JStr (lit "Idle")))
        (JStr []) (JObj []).
Proof.
  unfold validate, field.
  destruct (member entry (lit "text")); [|discriminate].
  destruct (member entry (lit "facialExpression")); [|discriminate].
  destruct (member entry (lit "animation")); [|discriminate].
  now intros [= <-].
Qed.

Lemma finished_validated (E : Env) (w : World) (i : nat) (t f a : JsVal) (body : list byte) :
  speech_audio E i (chat_message t f a (JStr []) (JObj [])) = Some body ->
  finished E w i (chat_message t f a (JStr []) (JObj []))
  = chat_message t f a (JStr (Base64.encode body))
      (lipsync_result E (cached_lipsync E w (chat_message t f a (JStr []) (JObj []))) i).
Proof. intros H. unfold finished. now rewrite H. Qed.

(** C5: when [/chat] answers a request through the pipeline, the list it
    returns has one message for each parsed entry, in order; each message
    has the five properties [text], [facialExpression], [animation],
    [audio] and [lipsync], and each of the first three is the value of the
    entry, or the fixed default when the entry lacks it (or holds a value
    that counts as false). *)
Theorem chat_messages_complete (key : jstring) (E : Env) (body : JsVal) (s : jstring)
    (w w' : World) (p : JsVal) (rawContent : jstring) (entries : list JsVal) :
  member body (lit "message") = Ok (JStr s) ->
  s <> [] ->
  truthy (Cache.get (now E AtLookup) (cache w) (chat_cache_key s)) = false ->
  no_credential key = false ->
  completion E s = Some (JStr rawContent) ->
  parse_messages E (clean rawContent) = Ok (JArr entries) ->
  post_chat key E body w = (Ok (mkResponse 200 p), w') ->
  exists messages,
    p = messages_body (JArr messages)
    /\ Forall2 returned_for entries messages.
Proof.
  intros Hbody Hs Hmiss Hkey Hcontent Hparsed Hrun.
  destruct (post_chat_pipeline_answered key E body s w Hbody Hs Hmiss Hkey p w' Hrun)
    as (content & raw & parsed & vs & Hc & Hr & Hp & Hv & Hspeech & Hkeys & Hread).
  rewrite Hcontent in Hc. injection Hc as <-. injection Hr as <-.
  rewrite Hparsed in Hp. injection Hp as <-.
  destruct (post_chat_pipeline_run key E body s w Hbody Hs Hmiss Hkey _ _ _ vs
              Hcontent eq_refl Hparsed Hv Hspeech Hkeys Hread) as (w'' & Hrun' & _).
  rewrite Hrun in Hrun'. injection Hrun' as -> _.
  eexists. split; [reflexivity|].
  simpl in Hv. apply map_res_ok in Hv.
  apply Forall2_same_length_lookup. split.
  { rewrite length_imap. now apply Forall2_length in Hv. }
  intros i entry m Hentry Hm.
  rewrite list_lookup_imap in Hm.
  destruct (vs !! i) as [v|] eqn:Hvi; [|discriminate]. injection Hm as <-.
  pose proof (Forall2_lookup_lr _ _ _ _ _ _ Hv Hentry Hvi) as Hval.
  apply validate_fields in Hval. subst v.
  destruct (Hspeech i _ Hvi) as [audio Haudio].
  rewrite (finished_validated E w i _ _ _ audio Haudio).
  split; [eauto 10|].
  repeat split; try reflexivity; intros Hmissing; unfold field at 1; simpl;
    now rewrite Hmissing.
Qed.

Lemma chat_messages_complete_witness :
  exists messages,
    sample_payload (lit "hello") = messages_body (JArr messages)
    /\ Forall2 returned_for sample_entries messages.
Proof.
  apply (chat_messages_complete (lit "secret") sample_env (chat_request (lit "hello"))
           (lit "hello") sample_world (sample_after (lit "hello"))
           (sample_payload (lit "hello"))
           sample_fenced_reply).
  - reflexivity.
  - discriminate.
  - reflexivity.
  - reflexivity.
  - reflexivity.
  - vm_compute. reflexivity.
  - vm_compute. reflexivity.
Defined.

(** ** Failures of the lip-sync tools *)

Lemma base64_nonempty (data : list byte) : data <> [] -> Base64.encode data <> [].
Proof.
  destruct data as [|a [|b [|c rest]]]; intros H; [done|..];
    cbn [Base64.encode app]; discriminate.
Qed.

Lemma lipsync_result_other_commands (E : Env) (exec' : jstring -> bool) (cached : JsVal)
    (i j : nat) :
  (forall c, c <> ffmpeg_of i -> c <> rhubarb_of i -> exec' c = exec_ok E c) ->
  j <> i ->
  lipsync_result (with_exec_ok exec' E) cached j = lipsync_result E cached j.
Proof.
  intros Hsame Hne. unfold lipsync_result.
  change (read_fault (with_exec_ok exec' E)) with (read_fault E).
  change (JSON_parse (with_exec_ok exec' E)) with (JSON_parse E).
  change (utf8_decode (with_exec_ok exec' E)) with (utf8_decode E).
  change (tool_output (with_exec_ok exec' E)) with (tool_output E).
  change (exec_ok (with_exec_ok exec' E)) with exec'.
  assert (Hff : exec' (ffmpeg_of j) = exec_ok E (ffmpeg_of j)).
  { apply Hsame.
    - intros H. apply Hne. exact (ffmpeg_command_inj j i H).
    - exact (ffmpeg_not_rhubarb i _ _ _). }
  assert (Hrh : exec' (rhubarb_of j) = exec_ok E (rhubarb_of j)).
  { apply Hsame.
    - intros H. exact (ffmpeg_not_rhubarb j _ _ _ (eq_sym H)).
    - intros H. apply Hne. exact (rhubarb_command_inj j i H). }
  now rewrite Hff, Hrh.
Qed.

Lemma error_handler_run (w : World) :
  (fb <- gets fallbackMessages ;; status_send 500 (messages_body (error fb))) w
  = (Ok (mkResponse 500 (messages_body (error (fallbackMessages w)))), w).
Proof. reflexivity. Qed.

(** The join of the speech stage: a command is run during a request only
    when the speech request of every message of the reply has succeeded. *)
Lemma post_chat_exec_speech (key : jstring) (E : Env) (body : JsVal) (s : jstring)
    (w : World) (content : JsVal) (rawContent : jstring) (parsed : JsVal)
    (vs : list JsVal) (c : jstring) :
  member body (lit "message") = Ok (JStr s) ->
  s <> [] ->
  truthy (Cache.get (now E AtLookup) (cache w) (chat_cache_key s)) = false ->
  no_credential key = false ->
  completion E s = Some content ->
  as_string content = Ok rawContent ->
  parse_messages E (clean rawContent) = Ok parsed ->
  validate_all parsed = Ok vs ->
  EvExec c ∈ performed (post_chat key E body) w ->
  forall j mj, vs !! j = Some mj -> is_Some (speech_audio E j mj).
Proof.
  intros Hbody Hs Hmiss Hkey Hcontent Hraw Hparsed Hval Hc.
  set (w1 := with_trace (trace w ++ [EvCompletion s]) w).
  destruct (promise_all (imap (ttsTask E) vs) w1) as [[rs|e] w2] eqn:Htts;
    [now apply (tts_stage_speech E vs w1 w2 rs)|].
  exfalso.
  set (F := mkFootprint (fun _ => True) (fun _ => True) (fun _ => False)).
  assert (Hrun : post_chat key E body w
                 = (Ok (mkResponse 500 (messages_body (error (fallbackMessages w2)))), w2)).
  { rewrite (post_chat_live key E body s w Hbody Hmiss Hs Hkey).
    unfold try_catch, chat_pipeline. unfold bind at 1. rewrite emit_run, Hcontent.
    unfold bind at 1, lift at 1. rewrite Hraw, Hparsed.
    unfold bind at 1, lift at 1. rewrite Hval.
    unfold bind at 1. fold w1. rewrite Htts. apply error_handler_run. }
  assert (Hch : changes F w (snd (post_chat key E body w))).
  { rewrite Hrun. simpl.
    apply (changes_trans F w w1 w2).
    - exact (within_emit_quiet F (EvCompletion s) eq_refl w).
    - pose proof (within_tts_stage F E vs (fun _ => I) w1) as H. now rewrite Htts in H. }
  exact (changes_performed F _ _ Hch c Hc).
Qed.

(** C6, amended: let the conversion of message [i] be run during the
    request (so the speech stage is over, with a speech file for every
    message), and let it or the extraction fail.  If the speech file of
    every message of the reply can be read, the lip-sync key of every
    message can be built, and the audio of message [i] is not empty, then
    the request is answered with status 200 and one message per entry;
    message [i] carries the base64 of its audio, which is not empty, and
    the empty object as [lipsync]; and every other message is what it is
    when the tools do not fail for message [i]. *)
Theorem lipsync_failure_isolated (key : jstring) (E : Env) (body : JsVal) (s : jstring)
    (w : World) (rawContent : jstring) (parsed : JsVal) (vs : list JsVal)
    (i : nat) (m : JsVal) (audio : list byte) (exec' : jstring -> bool) :
  member body (lit "message") = Ok (JStr s) ->
  s <> [] ->
  truthy (Cache.get (now E AtLookup) (cache w) (chat_cache_key s)) = false ->
  no_credential key = false ->
  completion E s = Some (JStr rawContent) ->
  parse_messages E (clean rawContent) = Ok parsed ->
  validate_all parsed = Ok vs ->
  vs !! i = Some m ->
  EvExec (ffmpeg_of i) ∈ performed (post_chat key E body) w ->
  exec_ok E (ffmpeg_of i) = false \/ exec_ok E (rhubarb_of i) = false ->
  speech_audio E i m = Some audio ->
  audio <> [] ->
  (forall j, j < length vs -> read_fault E (message_file j ".mp3") = false) ->
  (forall j mj, vs !! j = Some mj -> exists k, lipSyncCacheKey mj = Ok k) ->
  (forall c, c <> ffmpeg_of i -> c <> rhubarb_of i -> exec' c = exec_ok E c) ->
  exists messages w1 messages' w2,
    post_chat key E body w
    = (Ok (mkResponse 200 (messages_body (JArr messages))), w1)
    /\ length messages = length vs
    /\ (exists m',
          messages !! i = Some m'
          /\ field m' (lit "audio") = JStr (Base64.encode audio)
          /\ Base64.encode audio <> []
          /\ field m' (lit "lipsync") = JObj [])
    /\ post_chat key (with_exec_ok exec' E) body w
       = (Ok (mkResponse 200 (messages_body (JArr messages'))), w2)
    /\ forall j, j <> i -> messages' !! j = messages !! j.
Proof.
  intros Hbody Hs Hmiss Hkey Hcontent Hparsed Hval Hm Hrun_i Hfail Haudio Hne
    Hread Hkeys Hsame.
  pose proof (post_chat_exec_speech key E body s w _ _ _ vs _ Hbody Hs Hmiss Hkey
                Hcontent eq_refl Hparsed Hval Hrun_i) as Hspeech.
  assert (Hnocache : truthy (cached_lipsync E w m) = false).
  { destruct (post_chat_pipeline_execs key E body s w Hbody Hs Hmiss Hkey _ _ _ vs _
                Hcontent eq_refl Hparsed Hval Hrun_i) as (j & mj & Hj & Hno & Hcmd).
    destruct Hcmd as [Hcmd|Hcmd].
    - rewrite (ffmpeg_command_inj i j Hcmd) in Hm. congruence.
    - destruct (ffmpeg_not_rhubarb j (message_file i ".mp3") (message_file i ".wav")
                  (message_file j ".wav") Hcmd). }
  destruct (post_chat_pipeline_run key E body s w Hbody Hs Hmiss Hkey _ _ _ vs
              Hcontent eq_refl Hparsed Hval Hspeech Hkeys Hread) as (w1 & Hrun & _).
  destruct (post_chat_pipeline_run key (with_exec_ok exec' E) body s w Hbody Hs Hmiss Hkey
              _ _ _ vs Hcontent eq_refl Hparsed Hval Hspeech Hkeys Hread) as (w2 & Hrun' & _).
  exists (imap (finished E w) vs), w1, (imap (finished (with_exec_ok exec' E) w) vs), w2.
  split; [exact Hrun|]. split; [apply length_imap|]. split; [|split; [exact Hrun'|]].
  - exists (finished E w i m). split; [now rewrite list_lookup_imap, Hm|].
    pose proof (validate_all_validated parsed vs Hval) as Hvs.
    rewrite Forall_lookup in Hvs. destruct (Hvs i m Hm) as (t & f & a & ->).
    rewrite (finished_validated E w i t f a audio Haudio).
    split; [reflexivity|]. split; [now apply base64_nonempty|].
    unfold field. simpl. unfold lipsync_result. rewrite Hnocache.
    destruct Hfail as [-> | ->]; [reflexivity|]. now rewrite andb_false_r.
  - intros j Hj. rewrite !list_lookup_imap.
    destruct (vs !! j) as [mj|]; [|reflexivity]. simpl. f_equal.
    unfold finished. change (speech_audio (with_exec_ok exec' E) j mj)
      with (speech_audio E j mj).
    destruct (speech_audio E j mj); [|reflexivity].
    change (cached_lipsync (with_exec_ok exec' E) w mj) with (cached_lipsync E w mj).
    now rewrite (lipsync_result_other_commands E exec' _ i j Hsame Hj).
Qed.

(** A run in which the conversion of the first message fails: the first
    message gets the empty object, the second message the timing data of
    its file. *)
Example first_conversion_fails_ex :
  fst (post_chat (lit "secret") sample_env_first_fails (chat_request (lit "hello"))
         sample_world)
  = Ok (mkResponse 200
          (messages_body
             (JArr [chat_message (JStr (lit "Hi!")) (JStr (lit "default"))
                      (JStr (lit "Idle")) (JStr (lit "YWI=")) (JObj []);
                    chat_message (JStr (lit "Oops, something went wrong!"))
                      (JStr (lit "default")) (JStr (lit "Idle")) (JStr (lit "YWI="))
                      sample_cues])))
  /\ EvExec (ffmpeg_of 0)
       ∈ performed (post_chat (lit "secret") sample_env_first_fails
                      (chat_request (lit "hello"))) sample_world.
Proof. split; [vm_compute; reflexivity|]. vm_compute. repeat constructor. Qed.

Lemma lipsync_failure_isolated_witness :
  exists messages w1 messages' w2,
    post_chat (lit "secret") sample_env_first_fails (chat_request (lit "hello")) sample_world
    = (Ok (mkResponse 200 (messages_body (JArr messages))), w1)
    /\ length messages = length sample_validated
    /\ (exists m',
          messages !! 0 = Some m'
          /\ field m' (lit "audio") = JStr (Base64.encode [x61; x62]%byte)
          /\ Base64.encode [x61; x62]%byte <> []
          /\ field m' (lit "lipsync") = JObj [])
    /\ post_chat (lit "secret") (with_exec_ok (fun _ => true) sample_env_first_fails)
         (chat_request (lit "hello")) sample_world
       = (Ok (mkResponse 200 (messages_body (JArr messages'))), w2)
    /\ forall j, j <> 0 -> messages' !! j = messages !! j.
Proof.
  apply (lipsync_failure_isolated (lit "secret") sample_env_first_fails
           (chat_request (lit "hello")) (lit "hello") sample_world
           sample_fenced_reply
           (JArr sample_entries) sample_validated 0
           sample_hi [x61; x62]%byte (fun _ => true)).
  - reflexivity.
  - discriminate.
  - reflexivity.
  - reflexivity.
  - reflexivity.
  - vm_compute. reflexivity.
  - reflexivity.
  - reflexivity.
  - exact (proj2 first_conversion_fails_ex).
  - left. vm_compute. reflexivity.
  - reflexivity.
  - discriminate.
  - reflexivity.
  - intros j mj Hj. destruct j as [|[|j]]; simpl in Hj; [| |discriminate];
      injection Hj as <-; eexists; reflexivity.
  - intros c Hff _. simpl. symmetry. apply negb_true_iff, bool_decide_eq_false_2. exact Hff.
Defined.

(** C6 as it is worded fails, in three ways.  In each of them the reply
    has two messages, the speech request of the first succeeds, its
    conversion is run and fails, and its speech file is read without a
    fault.  (1) The speech file of the second message cannot be read: the
    request is answered with status 500 and the [error] list.  (2) The
    text of the second message cannot be turned into a lip-sync key: the
    same.  (3) The speech endpoint answers with an empty body: the
    request is answered with status 200, and the audio of the first
    message is the empty string. *)
Lemma lipsync_failure_not_isolated :
  (validate_all (JArr sample_entries) = Ok sample_validated
   /\ sample_validated !! 0 = Some sample_hi
   /\ speech_audio sample_env_unreadable_sibling 0 sample_hi = Some [x61; x62]%byte
   /\ read_fault sample_env_unreadable_sibling (message_file 0 ".mp3") = false
   /\ exec_ok sample_env_unreadable_sibling (ffmpeg_of 0) = false
   /\ EvExec (ffmpeg_of 0)
        ∈ performed (post_chat (lit "secret") sample_env_unreadable_sibling
                       (chat_request (lit "hello"))) sample_world
   /\ EvRead (message_file 0 ".mp3")
        ∈ performed (post_chat (lit "secret") sample_env_unreadable_sibling
                       (chat_request (lit "hello"))) sample_world
   /\ fst (post_chat (lit "secret") sample_env_unreadable_sibling
             (chat_request (lit "hello")) sample_world)
      = Ok (mkResponse 500 (messages_body (error fallbackMessages0))))
  /\ (validate_all (JArr sample_entries_odd)
      = Ok [sample_hi;
            chat_message (JObj [(lit "toString", JStr (lit "x"))]) (JStr (lit "default"))
              (JStr (lit "Idle")) (JStr []) (JObj [])]
      /\ speech_audio sample_env_odd_sibling 0 sample_hi = Some [x61; x62]%byte
      /\ read_fault sample_env_odd_sibling (message_file 0 ".mp3") = false
      /\ exec_ok sample_env_odd_sibling (ffmpeg_of 0) = false
      /\ EvExec (ffmpeg_of 0)
           ∈ performed (post_chat (lit "secret") sample_env_odd_sibling
                          (chat_request (lit "hello"))) sample_world
      /\ EvRead (message_file 0 ".mp3")
           ∈ performed (post_chat (lit "secret") sample_env_odd_sibling
                          (chat_request (lit "hello"))) sample_world
      /\ fst (post_chat (lit "secret") sample_env_odd_sibling
                (chat_request (lit "hello")) sample_world)
         = Ok (mkResponse 500 (messages_body (error fallbackMessages0))))
  /\ (speech_audio sample_env_silent 0 sample_hi = Some []
      /\ read_fault sample_env_silent (message_file 0 ".mp3") = false
      /\ exec_ok sample_env_silent (ffmpeg_of 0) = false
      /\ EvExec (ffmpeg_of 0)
           ∈ performed (post_chat (lit "secret") sample_env_silent
                          (chat_request (lit "hello"))) sample_world
      /\ EvRead (message_file 0 ".mp3")
           ∈ performed (post_chat (lit "secret") sample_env_silent
                          (chat_request (lit "hello"))) sample_world
      /\ fst (post_chat (lit "secret") sample_env_silent
                (chat_request (lit "hello")) sample_world)
         = Ok (mkResponse 200
                 (messages_body
                    (JArr [chat_message (JStr (lit "Hi!")) (JStr (lit "default"))
                             (JStr (lit "Idle")) (JStr []) (JObj []);
                           chat_message (JStr (lit "Oops, something went wrong!"))
                             (JStr (lit "default")) (JStr (lit "Idle")) (JStr [])
                             (JObj [])])))).
Proof.
  repeat split; try (vm_compute; reflexivity); vm_compute; repeat constructor.
Qed.

(** ** Reuse of cached timing data *)

(** C7: let the text of message [i] of a reply have an unexpired lip-sync
    entry that counts as true (as every timing object does).  Then neither
    the conversion nor the extraction command of message [i] is run during
    the request.  When the request is answered with status 200, message
    [i] is the validated message with the cached value as [lipsync] and,
    as [audio], the base64 of the bytes the speech endpoint returned for
    it, which this request wrote to the speech file of index [i], where
    they still are.  And the request is answered so whenever the speech
    request of every message succeeds, the lip-sync key of every message
    can be built and the speech file of every message can be read. *)
Theorem cached_lipsync_reused (key : jstring) (E : Env) (body : JsVal) (s : jstring)
    (w : World) (rawContent : jstring) (parsed : JsVal) (vs : list JsVal)
    (i : nat) (m : JsVal) :
  member body (lit "message") = Ok (JStr s) ->
  s <> [] ->
  truthy (Cache.get (now E AtLookup) (cache w) (chat_cache_key s)) = false ->
  no_credential key = false ->
  completion E s = Some (JStr rawContent) ->
  parse_messages E (clean rawContent) = Ok parsed ->
  validate_all parsed = Ok vs ->
  vs !! i = Some m ->
  truthy (cached_lipsync E w m) = true ->
  (EvExec (ffmpeg_of i) ∉ performed (post_chat key E body) w)
  /\ (EvExec (rhubarb_of i) ∉ performed (post_chat key E body) w)
  /\ (forall p w',
        post_chat key E body w = (Ok (mkResponse 200 p), w') ->
        exists messages m' audio,
          p = messages_body (JArr messages)
          /\ messages !! i = Some m'
          /\ speech_audio E i m = Some audio
          /\ m' = with_media m (JStr (Base64.encode audio)) (cached_lipsync E w m)
          /\ field m' (lit "lipsync") = cached_lipsync E w m
          /\ field m' (lit "audio") = JStr (Base64.encode audio)
          /\ EvWrite (message_file i ".mp3") ∈ performed (post_chat key E body) w
          /\ files w' !! message_file i ".mp3" = Some audio)
  /\ ((forall j mj, vs !! j = Some mj -> is_Some (speech_audio E j mj)) ->
      (forall j mj, vs !! j = Some mj -> exists k, lipSyncCacheKey mj = Ok k) ->
      (forall j, j < length vs -> read_fault E (message_file j ".mp3") = false) ->
      exists p w', post_chat key E body w = (Ok (mkResponse 200 p), w')).
Proof.
  intros Hbody Hs Hmiss Hkey Hcontent Hparsed Hval Hm Hcached.
  assert (Hexec : forall c,
             EvExec c ∈ performed (post_chat key E body) w ->
             c <> ffmpeg_of i /\ c <> rhubarb_of i).
  { intros c Hc.
    destruct (post_chat_pipeline_execs key E body s w Hbody Hs Hmiss Hkey _ _ _ vs c
                Hcontent eq_refl Hparsed Hval Hc) as (j & mj & Hj & Hno & Hcmd).
    assert (Hne : j <> i) by (intros ->; congruence).
    destruct Hcmd as [-> | ->]; split; intros H.
    - apply Hne. exact (ffmpeg_command_inj j i H).
    - exact (ffmpeg_not_rhubarb i _ _ _ H).
    - exact (ffmpeg_not_rhubarb j _ _ _ (eq_sym H)).
    - apply Hne. exact (rhubarb_command_inj j i H). }
  split; [intros H; now destruct (Hexec _ H)|].
  split; [intros H; now destruct (Hexec _ H)|].
  split.
  - intros p w' Hrun.
    destruct (post_chat_pipeline_answered key E body s w Hbody Hs Hmiss Hkey p w' Hrun)
      as (content & raw & parsed' & vs' & Hc & Hr & Hp & Hv & Hspeech & Hkeys & Hread).
    rewrite Hcontent in Hc. injection Hc as <-. injection Hr as <-.
    rewrite Hparsed in Hp. injection Hp as <-.
    rewrite Hval in Hv. injection Hv as <-.
    destruct (post_chat_pipeline_run key E body s w Hbody Hs Hmiss Hkey _ _ _ vs
                Hcontent eq_refl Hparsed Hval Hspeech Hkeys Hread)
      as (w'' & Hrun' & Hfiles & Hwrites).
    rewrite Hrun in Hrun'. injection Hrun' as -> ->.
    destruct (Hspeech i m Hm) as [audio Haudio].
    exists (imap (finished E w) vs), (finished E w i m), audio.
    split; [reflexivity|]. split; [now rewrite list_lookup_imap, Hm|].
    split; [exact Haudio|].
    pose proof (validate_all_validated parsed vs Hval) as Hvs.
    rewrite Forall_lookup in Hvs. destruct (Hvs i m Hm) as (t & f & a & ->).
    rewrite (finished_validated E w i t f a audio Haudio).
    assert (Hres : lipsync_result E
                     (cached_lipsync E w (chat_message t f a (JStr []) (JObj []))) i
                   = cached_lipsync E w (chat_message t f a (JStr []) (JObj [])))
      by (unfold lipsync_result; now rewrite Hcached).
    rewrite Hres. repeat split; eauto.
  - intros Hspeech Hkeys Hread.
    destruct (post_chat_pipeline_run key E body s w Hbody Hs Hmiss Hkey _ _ _ vs
                Hcontent eq_refl Hparsed Hval Hspeech Hkeys Hread) as (w' & Hrun & _).
    eauto.
Qed.

(** A run in which both texts of the reply have their timing data in
    the cache, every command would fail, and the speech endpoint
    answers with new bytes; the answer carries the cached timing data and
    the new audio, and no command is run. *)
Example cached_timing_ex :
  cached_lipsync sample_env_tools_down sample_cued_world sample_hi = sample_cues
  /\ fst (post_chat (lit "secret") sample_env_tools_down (chat_request (lit "again"))
            sample_cued_world)
     = Ok (mkResponse 200
             (messages_body
                (JArr [chat_message (JStr (lit "Hi!")) (JStr (lit "default"))
                         (JStr (lit "Idle")) (JStr (lit "Y2Q=")) sample_cues;
                       chat_message (JStr (lit "Oops, something went wrong!"))
                         (JStr (lit "default")) (JStr (lit "Idle")) (JStr (lit "Y2Q="))
                         sample_cues])))
  /\ performed (post_chat (lit "secret") sample_env_tools_down (chat_request (lit "again")))
       sample_cued_world
     = [EvCompletion (lit "again");
        EvSpeech (JStr (lit "Hi!")); EvWrite (message_file 0 ".mp3");
        EvSpeech (JStr (lit "Oops, something went wrong!")); EvWrite (message_file 1 ".mp3");
        EvRead (message_file 0 ".mp3"); EvRead (message_file 1 ".mp3")].
Proof. repeat split; vm_compute; reflexivity. Qed.

Lemma cached_lipsync_reused_witness :
  (EvExec (ffmpeg_of 0)
     ∉ performed (post_chat (lit "secret") sample_env_tools_down (chat_request (lit "again")))
         sample_cued_world)
  /\ (EvExec (rhubarb_of 0)
        ∉ performed (post_chat (lit "secret") sample_env_tools_down
                       (chat_request (lit "again"))) sample_cued_world)
  /\ exists messages w',
       post_chat (lit "secret") sample_env_tools_down (chat_request (lit "again"))
         sample_cued_world
       = (Ok (mkResponse 200 (messages_body (JArr messages))), w')
       /\ messages !! 0
          = Some (chat_message (JStr (lit "Hi!")) (JStr (lit "default")) (JStr (lit "Idle"))
                    (JStr (lit "Y2Q=")) sample_cues)
       /\ EvWrite (message_file 0 ".mp3")
            ∈ performed (post_chat (lit "secret") sample_env_tools_down
                           (chat_request (lit "again"))) sample_cued_world
       /\ files w' !! message_file 0 ".mp3" = Some [x63; x64]%byte.
Proof.
  destruct (cached_lipsync_reused (lit "secret") sample_env_tools_down
              (chat_request (lit "again")) (lit "again") sample_cued_world
              sample_fenced_reply (JArr sample_entries) sample_validated 0 sample_hi)
    as (Hff & Hrh & Hattach & Hanswer).
  - reflexivity.
  - discriminate.
  - vm_compute. reflexivity.
  - reflexivity.
  - reflexivity.
  - vm_compute. reflexivity.
  - reflexivity.
  - reflexivity.
  - vm_compute. reflexivity.
  - split; [exact Hff|]. split; [exact Hrh|].
    destruct Hanswer as (p & w' & Hrun).
    + intros j mj _. eexists. reflexivity.
    + intros j mj Hj. destruct j as [|[|j]]; simpl in Hj; [| |discriminate];
        injection Hj as <-; eexists; reflexivity.
    + reflexivity.
    + destruct (Hattach p w' Hrun)
        as (messages & m' & audio & -> & Hi & Haudio & -> & _ & _ & Hwrite & Hfile).
      injection Haudio as <-.
      exists messages, w'. split; [exact Hrun|]. split; [exact Hi|].
      split; [exact Hwrite|exact Hfile].
Defined.

(** * Further properties of the handlers *)

(** ** Collisions of the response key, exactly *)

Lemma replace_unit_eq (a b : N) :
  (if Str.is_alnum a then a else 95%N) = (if Str.is_alnum b then b else 95%N)
  <-> a = b \/ (Str.is_alnum a = false /\ Str.is_alnum b = false).
Proof.
  destruct (Str.is_alnum a) eqn:Ha, (Str.is_alnum b) eqn:Hb; split.
  - now left.
  - intros [H|[H _]]; [exact H|discriminate].
  - intros ->. discriminate.
  - intros [->|[H _]]; [congruence|discriminate].
  - intros <-. discriminate.
  - intros [->|[_ H]]; [congruence|discriminate].
  - intros _. now right.
  - reflexivity.
Qed.

Lemma replace_non_alnum_eq (s1 s2 : jstring) :
  Str.replace_non_alnum s1 = Str.replace_non_alnum s2
  <-> Forall2 (fun a b => a = b \/ (Str.is_alnum a = false /\ Str.is_alnum b = false)) s1 s2.
Proof.
  unfold Str.replace_non_alnum. split.
  - revert s2. induction s1 as [|a s1 IH]; intros [|b s2] H; try discriminate; constructor.
    + injection H as H _. now apply replace_unit_eq.
    + injection H as _ H. now apply IH.
  - induction 1 as [|a b s1 s2 Hab _ IH]; [reflexivity|].
    cbn [map]. f_equal; [now apply replace_unit_eq | exact IH].
Qed.

Lemma Forall2_eq_alnum (s1 s2 : jstring) :
  Forall (fun c => Str.is_alnum c = true) s1 ->
  Forall2 (fun a b => a = b \/ (Str.is_alnum a = false /\ Str.is_alnum b = false)) s1 s2 ->
  s1 = s2.
Proof.
  intros Hs H. induction H as [|a b s1 s2 Hab _ IH]; [reflexivity|].
  inversion_clear Hs as [|? ? Ha Hs1]. f_equal; [|now apply IH].
  destruct Hab as [|[Hna _]]; congruence.
Qed.

(** X1: the response key of two messages is the same exactly when they have
    the same length and differ only where both hold something else than a
    letter or a digit; a message of letters and digits shares its key
    with no other message. *)
Theorem chat_key_collision_iff (s1 s2 : jstring) :
  (chat_cache_key s1 = chat_cache_key s2
   <-> Forall2 (fun a b => a = b \/ (Str.is_alnum a = false /\ Str.is_alnum b = false)) s1 s2)
  /\ (Forall (fun c => Str.is_alnum c = true) s1 ->
      chat_cache_key s1 = chat_cache_key s2 -> s1 = s2).
Proof.
  assert (Hkey : chat_cache_key s1 = chat_cache_key s2
                 <-> Str.replace_non_alnum s1 = Str.replace_non_alnum s2).
  { unfold chat_cache_key. split; [apply app_inv_head | now intros ->]. }
  split.
  - rewrite Hkey. apply replace_non_alnum_eq.
  - intros Hs H. apply Forall2_eq_alnum; [exact Hs|].
    now apply replace_non_alnum_eq, Hkey.
Qed.

(** ** The clean-up of a reply *)

Lemma has_prefix_fence_head (c : N) (t : jstring) :
  c <> 96%N -> Str.has_prefix (lit "```") (c :: t) = false.
Proof.
  intros Hc. unfold Str.has_prefix. cbn [lit list_ascii_of_string map Str.strip_prefix].
  change (N_of_ascii "`") with 96%N.
  destruct (96 =? c)%N eqn:H; [apply N.eqb_eq in H; congruence | reflexivity].
Qed.

Lemma fence_match_head (c : N) (t : jstring) :
  c <> 96%N -> c <> 10%N -> Str.fence_match (c :: t) = None.
Proof.
  intros Hc Hn. unfold Str.fence_match.
  assert (Hj : Str.strip_prefix (lit "```json") (c :: t) = None).
  { cbn [lit list_ascii_of_string map Str.strip_prefix].
    change (N_of_ascii "`") with 96%N.
    destruct (96 =? c)%N eqn:H; [apply N.eqb_eq in H; congruence | reflexivity]. }
  rewrite Hj.
  pose proof (has_prefix_fence_head c t Hc) as Hp.
  destruct c as [|p]; [now rewrite Hp|].
  destruct p as [p|p|]; try (now rewrite Hp).
  destruct p as [p|p|]; try (now rewrite Hp).
  destruct p as [p|p|]; try (now rewrite Hp).
  destruct p as [p|p|]; try (now rewrite Hp).
  congruence.
Qed.

Lemma drop_fences_plain (body rest : jstring) :
  Forall (fun c => c <> 96%N /\ c <> 10%N) body ->
  Str.drop_fences 0 (body ++ rest) = body ++ Str.drop_fences 0 rest.
Proof.
  induction 1 as [|c body [Hc Hn] _ IH]; [reflexivity|].
  cbn [app Str.drop_fences]. rewrite (fence_match_head c _ Hc Hn). now rewrite IH.
Qed.

Lemma strip_control_plain (s : jstring) :
  Forall (fun c => Str.is_control c = false) s -> Str.strip_control s = s.
Proof.
  unfold Str.strip_control. induction 1 as [|c s Hc _ IH]; [reflexivity|].
  rewrite filter_cons_True by exact Hc. now rewrite IH.
Qed.

Lemma control_line_feed (c : N) : Str.is_control c = false -> c <> 10%N.
Proof. intros H ->. discriminate. Qed.

(** X2: a reply of plain text (no backtick, no control character, no white
    space at either end) comes out of the clean-up as it is, and wrapped
    in a [json] code fence it comes out without the fence. *)
Theorem clean_unwraps_fenced_reply (body : jstring) :
  Forall (fun c => c <> 96%N /\ Str.is_control c = false) body ->
  Str.trim body = body ->
  clean body = body
  /\ clean (lit "```json" ++ [10%N] ++ body ++ [10%N] ++ lit "```") = body.
Proof.
  intros Hplain Htrim.
  assert (Hfence : Forall (fun c => c <> 96%N /\ c <> 10%N) body).
  { eapply Forall_impl; [exact Hplain|]. intros c [Hc Hn]. split; [exact Hc|].
    now apply control_line_feed. }
  assert (Hcontrol : Forall (fun c => Str.is_control c = false) body).
  { eapply Forall_impl; [exact Hplain|]. now intros c [_ Hn]. }
  assert (Hbare : Str.strip_fences body = body).
  { unfold Str.strip_fences. rewrite <- (app_nil_r body) at 1.
    rewrite (drop_fences_plain body [] Hfence). apply app_nil_r. }
  assert (Hwrapped : Str.strip_fences (lit "```json" ++ [10%N] ++ body ++ [10%N] ++ lit "```")
                     = body).
  { unfold Str.strip_fences.
    change (Str.drop_fences 0 (lit "```json" ++ [10%N] ++ body ++ [10%N] ++ lit "```"))
      with (Str.drop_fences 0 (body ++ [10%N] ++ lit "```")).
    rewrite (drop_fences_plain body _ Hfence).
    change (Str.drop_fences 0 ([10%N] ++ lit "```")) with (@nil N).
    apply app_nil_r. }
  unfold clean. rewrite Hbare, Hwrapped, Htrim.
  split; now apply strip_control_plain.
Qed.

Lemma clean_unwraps_fenced_reply_witness :
  clean sample_reply = sample_reply
  /\ clean (lit "```json" ++ [10%N] ++ sample_reply ++ [10%N] ++ lit "```") = sample_reply.
Proof.
  apply (clean_unwraps_fenced_reply sample_reply).
  - repeat constructor; discriminate.
  - reflexivity.
Defined.

Lemma drop_fences_sublist (n : nat) (s : jstring) : sublist (Str.drop_fences n s) s.
Proof.
  revert n. induction s as [|c s IH]; intros n; [constructor|].
  cbn [Str.drop_fences]. destruct n as [|k]; [|now constructor].
  destruct (Str.fence_match (c :: s)); now constructor.
Qed.

Lemma trim_start_suffix (s : jstring) : exists a, s = a ++ Str.trim_start s.
Proof.
  induction s as [|c s [a IH]]; [now exists []|].
  cbn [Str.trim_start]. destruct (Str.is_space c).
  - exists (c :: a). simpl. now f_equal.
  - now exists [].
Qed.

Lemma trim_middle (s : jstring) : exists a b, s = a ++ Str.trim s ++ b.
Proof.
  unfold Str.trim.
  destruct (trim_start_suffix s) as [a Ha].
  destruct (trim_start_suffix (rev (Str.trim_start s))) as [b Hb].
  exists a, (rev b). rewrite <- rev_app_distr, <- Hb, rev_involutive. exact Ha.
Qed.

(** X3: the clean-up only deletes: what it returns is what is left of the
    reply after some code units were taken out, in the same order, and it
    holds no control character. *)
Theorem clean_only_deletes (rawContent : jstring) :
  sublist (clean rawContent) rawContent
  /\ Forall (fun c => Str.is_control c = false) (clean rawContent).
Proof.
  unfold clean, Str.strip_control. split.
  - etransitivity; [apply sublist_filter|].
    etransitivity; [|apply (drop_fences_sublist 0)].
    fold (Str.strip_fences rawContent).
    destruct (trim_middle (Str.strip_fences rawContent)) as (a & b & H).
    rewrite H at 2. apply sublist_inserts_l, sublist_inserts_r. reflexivity.
  - apply Forall_forall. intros c Hc. now apply list_elem_of_filter in Hc as [Hc _].
Qed.

(** ** The fallback lists are left alone *)

Lemma keeps_ret {A} (a : A) : keeps_fallback (ret a).
Proof. now intros w. Qed.

Lemma keeps_throw {A} (e : Exn) : keeps_fallback (@throw A e).
Proof. now intros w. Qed.

Lemma keeps_lift {A} (r : Res A) : keeps_fallback (lift r).
Proof. now intros w. Qed.

Lemma keeps_gets {A} (f : World -> A) : keeps_fallback (gets f).
Proof. now intros w. Qed.

Lemma keeps_emit (e : Event) : keeps_fallback (emit e).
Proof. now intros w. Qed.

Lemma keeps_writeFile (E : Env) (file : jstring) (data : list byte) :
  keeps_fallback (writeFile file data).
Proof. now intros w. Qed.

Lemma keeps_cache_set (E : Env) (i : Instant) (key : jstring) (v : JsVal) :
  keeps_fallback (cache_set E i key v).
Proof. now intros w. Qed.

Lemma keeps_bind {A B} (m : M A) (f : A -> M B) :
  keeps_fallback m -> (forall a, keeps_fallback (f a)) -> keeps_fallback (bind m f).
Proof.
  intros Hm Hf w. unfold bind. specialize (Hm w).
  destruct (m w) as [[a|e] w1]; simpl in *; [|exact Hm].
  now rewrite Hf.
Qed.

Lemma keeps_try_catch {A} (m : M A) (h : Exn -> M A) :
  keeps_fallback m -> (forall e, keeps_fallback (h e)) -> keeps_fallback (try_catch m h).
Proof.
  intros Hm Hh w. unfold try_catch. specialize (Hm w).
  destruct (m w) as [[a|e] w1]; simpl in *; [exact Hm|].
  now rewrite Hh.
Qed.

Lemma keeps_attempt {A} (m : M A) : keeps_fallback m -> keeps_fallback (attempt m).
Proof. intros Hm w. unfold attempt. specialize (Hm w). now destruct (m w). Qed.

Lemma keeps_promise_all {A} (ps : list (M A)) :
  Forall keeps_fallback ps -> keeps_fallback (promise_all ps).
Proof.
  induction 1 as [|p ps Hp _ IH]; intros w; simpl; [reflexivity|].
  specialize (Hp w). destruct (p w) as [r w1]. simpl in Hp.
  specialize (IH w1). destruct (promise_all ps w1) as [rs w2]. simpl in *.
  congruence.
Qed.

Lemma keeps_for_each {A B} (f : A -> M B) (items : list A) :
  (forall x, keeps_fallback (f x)) -> keeps_fallback (for_each f items).
Proof.
  intros Hf. induction items as [|x items IH]; simpl; [apply keeps_ret|].
  apply keeps_bind; [apply Hf|]. intros y.
  apply keeps_bind; [apply IH|]. intros ys. apply keeps_ret.
Qed.

Create HintDb fallback.

#[export] Hint Resolve keeps_ret keeps_throw keeps_lift keeps_gets keeps_emit
  keeps_writeFile keeps_cache_set : fallback.

(** Steps through a computation that never assigns to a fallback list. *)
Ltac keeps :=
  repeat first
    [ progress auto with fallback
    | apply keeps_bind; [|intros ?]
    | apply keeps_try_catch; [|intros ?]
    | apply keeps_attempt
    | match goal with
      | |- keeps_fallback (if ?b then _ else _) => destruct b
      | |- keeps_fallback (match ?x with _ => _ end) => destruct x
      end ].

Lemma Forall_imap_all {A B} (P : B -> Prop) (f : nat -> A -> B) (l : list A) :
  (forall i x, P (f i x)) -> Forall P (imap f l).
Proof.
  intros H. apply Forall_forall. intros y (i & x & -> & _)%elem_of_lookup_imap_1. apply H.
Qed.

Lemma Forall_zip_with_all {A B C} (P : C -> Prop) (f : A -> B -> C)
    (l : list A) (k : list B) :
  (forall x y, P (f x y)) -> Forall P (zip_with f l k).
Proof.
  intros H. revert k. induction l as [|x l IH]; intros [|y k]; simpl; constructor; auto.
Qed.

Section HandlersKeepFallback.

Variable E : Env.

Lemma keeps_audioFileToBase64 (file : jstring) : keeps_fallback (audioFileToBase64 E file).
Proof. unfold audioFileToBase64. keeps. Qed.

Lemma keeps_readJsonTranscript (file : jstring) : keeps_fallback (readJsonTranscript E file).
Proof. unfold readJsonTranscript. keeps. Qed.

Lemma keeps_lipSyncMessage (i : nat) : keeps_fallback (lipSyncMessage E i).
Proof. unfold lipSyncMessage, convertMp3ToWav, execCommand, tool_wrote. keeps. Qed.

Lemma keeps_ttsTask (i : nat) (m : JsVal) : keeps_fallback (ttsTask E i m).
Proof. unfold ttsTask. keeps. Qed.

Lemma keeps_lipSyncTask (r : TtsResult) (looked : Res (jstring * JsVal)) :
  keeps_fallback (lipSyncTask E r looked).
Proof.
  unfold lipSyncTask.
  destruct looked as [[key c]|e]; [|apply keeps_throw].
  destruct (truthy c);
    repeat first
      [ apply keeps_audioFileToBase64 | apply keeps_readJsonTranscript
      | apply keeps_lipSyncMessage | apply keeps_ret | apply keeps_cache_set
      | apply keeps_bind; [|intros ?] | apply keeps_try_catch; [|intros ?] ].
Qed.

Lemma keeps_lipSyncStage (rs : list TtsResult) : keeps_fallback (lipSyncStage E rs).
Proof.
  unfold lipSyncStage. apply keeps_bind.
  - apply keeps_for_each. intros r. unfold lipSyncLookup, cache_get. keeps.
  - intros looked. apply keeps_promise_all, Forall_zip_with_all, keeps_lipSyncTask.
Qed.

Lemma keeps_chat_pipeline (s key : jstring) : keeps_fallback (chat_pipeline E s key).
Proof.
  unfold chat_pipeline. apply keeps_bind; [apply keeps_emit|intros _].
  destruct (completion E s); [|apply keeps_throw].
  apply keeps_bind; [apply keeps_lift|intros raw].
  destruct (parse_messages E (clean raw)).
  - apply keeps_bind; [apply keeps_lift|intros vs].
    apply keeps_bind; [apply keeps_promise_all, Forall_imap_all, keeps_ttsTask|intros rs].
    apply keeps_bind; [apply keeps_lipSyncStage|intros ms].
    apply keeps_bind; [apply keeps_cache_set|intros _]. apply keeps_ret.
  - apply keeps_bind; [apply keeps_gets|intros fb]. apply keeps_ret.
Qed.

Lemma keeps_post_chat (key : jstring) (body : JsVal) : keeps_fallback (post_chat key E body).
Proof.
  unfold post_chat.
  apply keeps_bind; [apply keeps_lift|intros userMessage].
  apply keeps_bind; [apply keeps_lift|intros text].
  apply keeps_bind; [apply keeps_gets|intros cachedResponse].
  destruct (truthy cachedResponse); [apply keeps_ret|].
  destruct (negb (truthy userMessage)).
  - apply keeps_bind; [apply keeps_try_catch;
                         [apply keeps_audioFileToBase64|intros; apply keeps_ret]|intros audio].
    apply keeps_bind; [apply keeps_try_catch;
                         [apply keeps_readJsonTranscript|intros; apply keeps_ret]|intros lipsync].
    apply keeps_bind; [apply keeps_cache_set|intros _]. apply keeps_ret.
  - destruct (no_credential key).
    + apply keeps_bind; [apply keeps_gets|intros fb]. apply keeps_ret.
    + apply keeps_try_catch; [apply keeps_chat_pipeline|intros _].
      apply keeps_bind; [apply keeps_gets|intros fb]. apply keeps_ret.
Qed.

Lemma keeps_get_voices : keeps_fallback (get_voices E).
Proof. unfold get_voices, send, status_send. keeps. Qed.

Lemma keeps_post_transcribe (key : jstring) (body : JsVal) :
  keeps_fallback (post_transcribe key E body).
Proof. unfold post_transcribe, send, status_send. keeps. Qed.

End HandlersKeepFallback.

(** ** How the pipeline can end *)

Lemma lipsync_keys_chat_key (w w' : World) (s : jstring) :
  changes lipsync_keys w w' -> cache w' !! chat_cache_key s = cache w !! chat_cache_key s.
Proof.
  intros (Hc & _). apply Hc. simpl. intros [m Hm].
  now apply (lipsync_key_not_chat_key m _ s) in Hm.
Qed.

Lemma lipsync_keys_allowed (E : Env) (w : World) (rs : list TtsResult) :
  Forall (lipsync_allowed lipsync_keys E w) rs.
Proof.
  apply Forall_forall. intros r _ key Hkey _. simpl. repeat split. eauto.
Qed.

(** The pipeline either stores the list under the key of the request and
    answers with it under status 200, or it ends (with status 500 and the
    [error] list, or by a throw) having set lip-sync entries at most. *)
Lemma chat_pipeline_outcome (E : Env) (s key : jstring) (w w' : World) (res : Res Response) :
  chat_pipeline E s key w = (res, w') ->
  (exists messages w1,
      res = Ok (mkResponse 200 (messages_body (JArr messages)))
      /\ w' = with_cache (Cache.set (now E AtStore) (cache w1) key (JArr messages)) w1
      /\ changes lipsync_keys w w1)
  \/ (changes lipsync_keys w w'
      /\ forall r, res = Ok r ->
                   r = mkResponse 500 (messages_body (error (fallbackMessages w')))).
Proof.
  unfold chat_pipeline, bind at 1. rewrite emit_run.
  set (w1 := with_trace (trace w ++ [EvCompletion s]) w).
  assert (H1 : changes lipsync_keys w w1)
    by exact (within_emit_quiet lipsync_keys (EvCompletion s) eq_refl w).
  destruct (completion E s) as [content|];
    [|intros [= <- <-]; right; split; [exact H1|discriminate]].
  unfold bind at 1, lift at 1.
  destruct (as_string content) as [raw|e];
    [|intros [= <- <-]; right; split; [exact H1|discriminate]].
  destruct (parse_messages E (clean raw)) as [parsed|e].
  2:{ intros [= <- <-]. right. split; [exact H1|]. now intros r [= <-]. }
  unfold bind at 1, lift at 1.
  destruct (validate_all parsed) as [vs|e];
    [|intros [= <- <-]; right; split; [exact H1|discriminate]].
  unfold bind at 1.
  pose proof (within_tts_stage lipsync_keys E vs (fun _ => I) w1) as H2.
  destruct (promise_all (imap (ttsTask E) vs) w1) as [[rs|e] w2]; simpl in H2;
    [|intros [= <- <-]; right; split; [exact (changes_trans _ _ _ _ H1 H2)|discriminate]].
  unfold bind at 1.
  pose proof (changes_lipSyncStage lipsync_keys E rs w2 (lipsync_keys_allowed E w2 rs)) as H3.
  destruct (lipSyncStage E rs w2) as [[ms|e] w3]; simpl in H3; intros [= <- <-].
  - left. exists ms, w3. split; [reflexivity|]. split; [reflexivity|].
    exact (changes_trans _ _ _ _ (changes_trans _ _ _ _ H1 H2) H3).
  - right. split; [|discriminate].
    exact (changes_trans _ _ _ _ (changes_trans _ _ _ _ H1 H2) H3).
Qed.

(** ** The response entries of the cache *)

(** What a request does to the response entry of a message: nothing, or
    it sets the list it answers with under status 200, and then the
    message has the key of the request. *)
Lemma post_chat_response_cache (key : jstring) (E : Env) (body : JsVal) (w : World)
    (s' : jstring) :
  cache (snd (post_chat key E body w)) !! chat_cache_key s' = cache w !! chat_cache_key s'
  \/ exists s l t,
       member body (lit "message") = Ok (JStr s)
       /\ chat_cache_key s' = chat_cache_key s
       /\ fst (post_chat key E body w) = Ok (mkResponse 200 (messages_body (JArr l)))
       /\ cache (snd (post_chat key E body w)) !! chat_cache_key s' = Some (JArr l, t).
Proof.
  destruct (member body (lit "message")) as [v|e] eqn:Hbody;
    [|left; now rewrite (post_chat_no_message _ _ _ _ _ Hbody)].
  destruct (as_string v) as [s|e] eqn:Hs.
  2:{ left. rewrite (post_chat_not_string _ _ _ _ _ Hbody); [done|].
      intros s ->. discriminate. }
  apply as_string_ok in Hs as ->.
  destruct (truthy (Cache.get (now E AtLookup) (cache w) (chat_cache_key s))) eqn:Hc;
    [left; now rewrite (post_chat_hit _ _ _ _ _ Hbody Hc)|].
  destruct s as [|c s].
  { rewrite (post_chat_greeting _ _ _ _ _ Hbody Hc eq_refl).
    destruct (greeting_run E (chat_cache_key []) w) as (audio & lipsync & w1 & -> & Hw1).
    destruct (decide (chat_cache_key s' = chat_cache_key [])) as [Hk|Hk].
    - right. exists [], [JObj [(lit "text", JStr (lit "Hey dear... How was your day?"));
                              (lit "audio", audio); (lit "lipsync", lipsync);
                              (lit "facialExpression", JStr (lit "smile"));
                              (lit "animation", JStr (lit "Talking_1"))]].
      eexists. split; [reflexivity|]. split; [exact Hk|]. split; [reflexivity|].
      rewrite Hk. simpl. unfold Cache.set. apply lookup_insert_eq.
    - left. simpl. unfold Cache.set. rewrite lookup_insert_ne by congruence.
      now rewrite Hw1. }
  destruct (no_credential key) eqn:Hcred;
    [left; now rewrite (post_chat_no_credential _ _ _ _ _ Hbody Hc)|].
  rewrite (post_chat_live _ _ _ _ _ Hbody Hc) by done.
  unfold try_catch.
  destruct (chat_pipeline E (c :: s) (chat_cache_key (c :: s)) w) as [res w1] eqn:Hrun.
  destruct (chat_pipeline_outcome E _ _ w w1 res Hrun)
    as [(ms & w2 & -> & -> & Hch) | [Hch Hres]].
  - destruct (decide (chat_cache_key s' = chat_cache_key (c :: s))) as [Hk|Hk].
    + right. exists (c :: s), ms. eexists. split; [reflexivity|]. split; [exact Hk|].
      split; [reflexivity|]. rewrite Hk. simpl. unfold Cache.set. apply lookup_insert_eq.
    + left. simpl. unfold Cache.set. rewrite lookup_insert_ne by congruence.
      now apply lipsync_keys_chat_key.
  - left. destruct res as [r|e]; simpl; now apply lipsync_keys_chat_key.
Qed.

(** Every response entry of the cache is a list. *)
Lemma reachable_response_entries (key : jstring) (w : World) :
  reachable key w ->
  forall s v t, cache w !! chat_cache_key s = Some (v, t) -> exists l, v = JArr l.
Proof.
  induction 1 as [disk|E w _ IH|w _ IH|E w _ IH|E body w _ IH|E body w _ IH|disk w _ IH];
    intros s v t Hv; simpl in *.
  - now rewrite lookup_empty in Hv.
  - rewrite within_cache_same in Hv by apply within_preload. eauto.
  - eauto.
  - rewrite within_cache_same in Hv by apply within_get_voices. eauto.
  - rewrite within_cache_same in Hv by apply within_post_transcribe. eauto.
  - destruct (post_chat_response_cache key E body w s) as [Heq|(s0 & l & t' & _ & _ & _ & Heq)];
      rewrite Heq in Hv; [eauto|].
    injection Hv as <- _. eauto.
  - eauto.
Qed.

(** ** The fallback lists *)

Lemma audio_or_empty_run (E : Env) (file : jstring) (w : World) :
  try_catch (audioFileToBase64 E file) (fun _ => ret (JStr [])) w
  = (Ok (audio_or_empty E w file), with_trace (trace w ++ [EvRead file]) w).
Proof.
  unfold try_catch, audioFileToBase64, readFile, audio_or_empty, bind, emit, modify, gets, throw.
  simpl. destruct (read_fault E file); [reflexivity|]. simpl.
  now destruct (files w !! file).
Qed.

Lemma transcript_or_undefined_run (E : Env) (file : jstring) (w : World) :
  try_catch (readJsonTranscript E file) (fun _ => ret JUndefined) w
  = (Ok (transcript_or_undefined E w file), with_trace (trace w ++ [EvRead file]) w).
Proof.
  unfold try_catch, readJsonTranscript, readFile, transcript_or_undefined, bind, emit,
    modify, gets, throw, ret.
  simpl. destruct (read_fault E file); [reflexivity|]. simpl.
  destruct (files w !! file) as [data|]; [|reflexivity]. simpl.
  destruct (JSON_parse E (utf8_decode E data)); reflexivity.
Qed.

Lemma preload_run (E : Env) (w : World) (a1 l1 a2 l2 : JsVal) :
  fallbackMessages w = fallback_with a1 l1 a2 l2 ->
  preload E w
  = (Ok tt,
     with_fallback
       (fallback_with (audio_or_empty E w (lit "audios/api_0.wav"))
          (transcript_or_undefined E w (lit "audios/api_0.json"))
          (audio_or_empty E w (lit "audios/api_0.wav"))
          (transcript_or_undefined E w (lit "audios/api_0.json")))
       (with_trace (trace w ++ [EvRead (lit "audios/api_0.wav"); EvRead (lit "audios/api_0.json");
                                EvRead (lit "audios/api_0.wav"); EvRead (lit "audios/api_0.json")])
          w)).
Proof.
  intros Hfb. unfold preload, preload_field.
  unfold bind at 1. unfold bind at 1. rewrite audio_or_empty_run.
  unfold modify at 1. cbn [snd fst].
  unfold bind at 1. unfold bind at 1. rewrite transcript_or_undefined_run.
  unfold modify at 1.
  unfold bind at 1. unfold bind at 1. rewrite audio_or_empty_run.
  unfold modify at 1.
  unfold bind at 1. rewrite transcript_or_undefined_run.
  unfold modify. 
  unfold with_fallback, with_trace, audio_or_empty, transcript_or_undefined.
  cbn [cache files fallbackMessages trace].
  rewrite Hfb. rewrite <- !app_assoc. reflexivity.
Qed.

(** Only the start-up block assigns to the fallback lists, and it assigns
    the audio and the timing data only. *)
Lemma reachable_fallback (key : jstring) (w : World) :
  reachable key w ->
  exists a1 l1 a2 l2, fallbackMessages w = fallback_with a1 l1 a2 l2.
Proof.
  induction 1 as [disk|E w _ IH|w _ IH|E w _ IH|E body w _ IH|E body w _ IH|disk w _ IH].
  - now exists (JStr []), (JObj []), (JStr []), (JObj []).
  - destruct IH as (a1 & l1 & a2 & l2 & IH).
    rewrite (preload_run E w a1 l1 a2 l2 IH). simpl. eauto.
  - exact IH.
  - now rewrite keeps_get_voices.
  - now rewrite keeps_post_transcribe.
  - now rewrite keeps_post_chat.
  - exact IH.
Qed.

(** The ways in which [/chat] answers a message that is a string. *)
Lemma post_chat_answers (key : jstring) (E : Env) (body : JsVal) (s : jstring) (w : World) :
  member body (lit "message") = Ok (JStr s) ->
  exists r w',
    post_chat key E body w = (Ok r, w')
    /\ fallbackMessages w' = fallbackMessages w
    /\ ((truthy (Cache.get (now E AtLookup) (cache w) (chat_cache_key s)) = true
         /\ r = mkResponse 200
                  (messages_body (Cache.get (now E AtLookup) (cache w) (chat_cache_key s))))
        \/ r = mkResponse 200 (messages_body (noApiKey (fallbackMessages w)))
        \/ (exists l, r = mkResponse 200 (messages_body (JArr l)))
        \/ r = mkResponse 500 (messages_body (error (fallbackMessages w)))).
Proof.
  intros Hbody.
  pose proof (keeps_post_chat E key body w) as Hfb.
  destruct (truthy (Cache.get (now E AtLookup) (cache w) (chat_cache_key s))) eqn:Hc.
  { rewrite (post_chat_hit _ _ _ _ _ Hbody Hc) in *. eauto 10. }
  destruct s as [|c s].
  { rewrite (post_chat_greeting _ _ _ _ _ Hbody Hc eq_refl) in *.
    destruct (greeting_run E (chat_cache_key []) w) as (audio & lipsync & w1 & Hrun & _).
    rewrite Hrun in *. do 2 eexists. split; [reflexivity|]. split; [exact Hfb|].
    right. right. left. unfold greeting. eauto. }
  destruct (no_credential key) eqn:Hcred.
  { rewrite (post_chat_no_credential _ _ _ _ _ Hbody Hc) in * by done. eauto 10. }
  rewrite (post_chat_live _ _ _ _ _ Hbody Hc) in * by done.
  unfold try_catch in *.
  destruct (chat_pipeline E (c :: s) (chat_cache_key (c :: s)) w) as [res w1] eqn:Hrun.
  pose proof (keeps_chat_pipeline E (c :: s) (chat_cache_key (c :: s)) w) as Hfb1.
  rewrite Hrun in Hfb1. simpl in Hfb1.
  destruct (chat_pipeline_outcome E _ _ w w1 res Hrun)
    as [(ms & w2 & -> & -> & _) | [_ Hres]].
  - do 2 eexists. split; [reflexivity|]. split; [exact Hfb|]. eauto 10.
  - destruct res as [r|e].
    + rewrite (Hres r eq_refl), Hfb1. eauto 10.
    + rewrite error_handler_run, Hfb1. eauto 10.
Qed.

(** X4: whatever the message, the world and the answers from outside, a
    request whose message is a string is answered, with status 200 and a
    payload [{ messages }], or with status 500 and the [error] list; the
    fallback lists are left as they were. *)
Theorem chat_always_answers (key : jstring) (E : Env) (body : JsVal) (s : jstring)
    (w : World) :
  member body (lit "message") = Ok (JStr s) ->
  exists r w',
    post_chat key E body w = (Ok r, w')
    /\ fallbackMessages w' = fallbackMessages w
    /\ ((status r = 200%Z /\ exists v, payload r = messages_body v)
        \/ r = mkResponse 500 (messages_body (error (fallbackMessages w)))).
Proof.
  intros Hbody.
  destruct (post_chat_answers key E body s w Hbody) as (r & w' & Hrun & Hfb & Hcases).
  exists r, w'. split; [exact Hrun|]. split; [exact Hfb|].
  destruct Hcases as [[_ ->] | [-> | [[l ->] | ->]]];
    try (left; split; [reflexivity|]; eexists; reflexivity).
  now right.
Qed.

Lemma chat_always_answers_witness :
  exists r w',
    post_chat (lit "secret") sample_env_refusing (chat_request (lit "hello")) sample_world
    = (Ok r, w')
    /\ fallbackMessages w' = fallbackMessages sample_world
    /\ ((status r = 200%Z /\ exists v, payload r = messages_body v)
        \/ r = mkResponse 500 (messages_body (error (fallbackMessages sample_world)))).
Proof.
  apply (chat_always_answers (lit "secret") sample_env_refusing
           (chat_request (lit "hello")) (lit "hello") sample_world).
  reflexivity.
Defined.

(** X5: a request that is not answered with status 200 leaves every response
    entry of the cache as it was: a failure is never served again from
    the cache. *)
Theorem chat_failure_not_cached (key : jstring) (E : Env) (body : JsVal)
    (w w' : World) (res : Res Response) :
  post_chat key E body w = (res, w') ->
  (forall p, res <> Ok (mkResponse 200 p)) ->
  forall s', cache w' !! chat_cache_key s' = cache w !! chat_cache_key s'.
Proof.
  intros Hrun Hfail s'.
  destruct (post_chat_response_cache key E body w s') as [Heq|(s & l & t & _ & _ & Hok & _)];
    rewrite Hrun in *; simpl in *; [exact Heq|].
  now destruct (Hfail _ Hok).
Qed.

Lemma chat_failure_not_cached_witness :
  cache (snd (post_chat (lit "secret") sample_env_unparsable (chat_request (lit "hello"))
                sample_world)) !! chat_cache_key (lit "hello")
  = cache sample_world !! chat_cache_key (lit "hello").
Proof.
  apply (chat_failure_not_cached (lit "secret") sample_env_unparsable
           (chat_request (lit "hello")) sample_world _
           (Ok (mkResponse 500 (messages_body (error fallbackMessages0))))).
  - vm_compute. reflexivity.
  - intros p. discriminate.
Defined.

(** X6: in every world the server can reach, the payload of an answer of
    [/chat] holds a list under [messages]; under status 500 the list is
    the one [error] message, with the wording, the expression and the
    animation of the source. *)
Theorem chat_answers_with_message_list (key : jstring) (E : Env) (body : JsVal)
    (s : jstring) (w : World) :
  reachable key w ->
  member body (lit "message") = Ok (JStr s) ->
  exists r w' l,
    post_chat key E body w = (Ok r, w')
    /\ payload r = messages_body (JArr l)
    /\ (status r = 500%Z ->
        exists audio lipsync,
          l = [fallback_message "Oops, something went wrong! Can you try again, dear?"
                 audio lipsync "sad" "Crying"]).
Proof.
  intros Hw Hbody.
  destruct (reachable_fallback key w Hw) as (a1 & l1 & a2 & l2 & Hshape).
  destruct (post_chat_answers key E body s w Hbody)
    as (r & w' & Hrun & _ & [[Hc ->] | [-> | [[l ->] | ->]]]).
  - unfold Cache.get in *.
    destruct (cache w !! chat_cache_key s) as [[v t]|] eqn:Hv; [|discriminate].
    destruct (Cache.live _ _); [|discriminate].
    destruct (reachable_response_entries key w Hw s v t Hv) as [l ->].
    exists (mkResponse 200 (messages_body (JArr l))), w', l.
    split; [exact Hrun|]. split; [reflexivity|]. discriminate.
  - rewrite Hshape in *. do 3 eexists. split; [exact Hrun|]. split; [reflexivity|].
    discriminate.
  - do 3 eexists. split; [exact Hrun|]. split; [reflexivity|]. discriminate.
  - rewrite Hshape in *. do 3 eexists. split; [exact Hrun|]. split; [reflexivity|].
    intros _. eauto.
Qed.

Lemma chat_answers_with_message_list_witness :
  exists r w' l,
    post_chat (lit "secret") sample_env_refusing (chat_request (lit "hello")) sample_world
    = (Ok r, w')
    /\ payload r = messages_body (JArr l)
    /\ (status r = 500%Z ->
        exists audio lipsync,
          l = [fallback_message "Oops, something went wrong! Can you try again, dear?"
                 audio lipsync "sad" "Crying"]).
Proof.
  apply (chat_answers_with_message_list (lit "secret") sample_env_refusing
           (chat_request (lit "hello")) (lit "hello") sample_world).
  - apply reach_start.
  - reflexivity.
Defined.

(** X7: the start-up block never fails; it gives both fallback messages the
    same audio (the base64 of [audios/api_0.wav], or the empty string
    when the file cannot be read) and the same timing data (the parsed
    [audios/api_0.json], or [undefined] when that fails: not the empty
    object the lists start with), and it touches nothing else. *)
Theorem preload_fills_fallbacks (E : Env) (w : World) (a1 l1 a2 l2 : JsVal) :
  fallbackMessages w = fallback_with a1 l1 a2 l2 ->
  exists w',
    preload E w = (Ok tt, w')
    /\ fallbackMessages w'
       = fallback_with (audio_or_empty E w (lit "audios/api_0.wav"))
           (transcript_or_undefined E w (lit "audios/api_0.json"))
           (audio_or_empty E w (lit "audios/api_0.wav"))
           (transcript_or_undefined E w (lit "audios/api_0.json"))
    /\ cache w' = cache w
    /\ files w' = files w
    /\ (files w !! lit "audios/api_0.json" = None ->
        transcript_or_undefined E w (lit "audios/api_0.json") = JUndefined).
Proof.
  intros Hfb. rewrite (preload_run E w a1 l1 a2 l2 Hfb).
  eexists. split; [reflexivity|]. repeat split.
  intros Hmissing. unfold transcript_or_undefined. rewrite Hmissing.
  now destruct (read_fault E _).
Qed.

Lemma preload_fills_fallbacks_witness :
  exists w',
    preload sample_env sample_world = (Ok tt, w')
    /\ fallbackMessages w'
       = fallback_with (audio_or_empty sample_env sample_world (lit "audios/api_0.wav"))
           (transcript_or_undefined sample_env sample_world (lit "audios/api_0.json"))
           (audio_or_empty sample_env sample_world (lit "audios/api_0.wav"))
           (transcript_or_undefined sample_env sample_world (lit "audios/api_0.json"))
    /\ cache w' = cache sample_world
    /\ files w' = files sample_world
    /\ (files sample_world !! lit "audios/api_0.json" = None ->
        transcript_or_undefined sample_env sample_world (lit "audios/api_0.json") = JUndefined).
Proof.
  apply (preload_fills_fallbacks sample_env sample_world (JStr []) (JObj []) (JStr []) (JObj [])).
  reflexivity.
Defined.

(** X8: an empty message that is not in the cache is answered, whatever the
    credential, with the greeting read from the disk: the audio is the
    base64 of [audios/intro_0.wav] or the empty string, the timing data
    the parsed [audios/intro_0.json] or [undefined]; the list is stored
    under the key of the empty message, and the two reads are all that is
    done outside the process. *)
Theorem greeting_from_disk (key : jstring) (E : Env) (w : World) :
  truthy (Cache.get (now E AtLookup) (cache w) (chat_cache_key [])) = false ->
  post_chat key E (chat_request []) w
  = (Ok (mkResponse 200
           (messages_body
              (greeting (audio_or_empty E w (lit "audios/intro_0.wav"))
                 (transcript_or_undefined E w (lit "audios/intro_0.json"))))),
     with_cache
       (Cache.set (now E AtGreetingStore) (cache w) (chat_cache_key [])
          (greeting (audio_or_empty E w (lit "audios/intro_0.wav"))
             (transcript_or_undefined E w (lit "audios/intro_0.json"))))
       (with_trace (trace w ++ [EvRead (lit "audios/intro_0.wav");
                                EvRead (lit "audios/intro_0.json")]) w))
  /\ performed (post_chat key E (chat_request [])) w
     = [EvRead (lit "audios/intro_0.wav"); EvRead (lit "audios/intro_0.json")].
Proof.
  intros Hmiss.
  assert (Hrun : post_chat key E (chat_request []) w
                 = (Ok (mkResponse 200
                          (messages_body
                             (greeting (audio_or_empty E w (lit "audios/intro_0.wav"))
                                (transcript_or_undefined E w (lit "audios/intro_0.json"))))),
                    with_cache
                      (Cache.set (now E AtGreetingStore) (cache w) (chat_cache_key [])
                         (greeting (audio_or_empty E w (lit "audios/intro_0.wav"))
                            (transcript_or_undefined E w (lit "audios/intro_0.json"))))
                      (with_trace (trace w ++ [EvRead (lit "audios/intro_0.wav");
                                               EvRead (lit "audios/intro_0.json")]) w))).
  { rewrite (post_chat_greeting key E (chat_request []) [] w eq_refl Hmiss eq_refl).
    unfold bind at 1. rewrite audio_or_empty_run.
    unfold bind at 1. rewrite transcript_or_undefined_run.
    unfold bind, cache_set, modify, send, ret, with_cache, with_trace,
      audio_or_empty, transcript_or_undefined.
    cbn [cache files fallbackMessages trace]. now rewrite <- app_assoc. }
  split; [exact Hrun|].
  now apply (performed_app _ _ _ _ _ Hrun).
Qed.

Lemma greeting_from_disk_witness :
  post_chat (lit "-") sample_env (chat_request []) sample_world
  = (Ok (mkResponse 200
           (messages_body
              (greeting (audio_or_empty sample_env sample_world (lit "audios/intro_0.wav"))
                 (transcript_or_undefined sample_env sample_world (lit "audios/intro_0.json"))))),
     with_cache
       (Cache.set (now sample_env AtGreetingStore) (cache sample_world) (chat_cache_key [])
          (greeting (audio_or_empty sample_env sample_world (lit "audios/intro_0.wav"))
             (transcript_or_undefined sample_env sample_world (lit "audios/intro_0.json"))))
       (with_trace (trace sample_world ++ [EvRead (lit "audios/intro_0.wav");
                                           EvRead (lit "audios/intro_0.json")]) sample_world))
  /\ performed (post_chat (lit "-") sample_env (chat_request [])) sample_world
     = [EvRead (lit "audios/intro_0.wav"); EvRead (lit "audios/intro_0.json")].
Proof.
  apply (greeting_from_disk (lit "-") sample_env sample_world).
  reflexivity.
Defined.

(** ** The lip-sync task, step by step *)

Lemma readJsonTranscript_ok (E : Env) (file : jstring) (w w' : World) (v : JsVal) :
  readJsonTranscript E file w = (Ok v, w') ->
  read_fault E file = false
  /\ exists data, files w !! file = Some data /\ JSON_parse E (utf8_decode E data) = Some v.
Proof.
  unfold readJsonTranscript, readFile, bind, emit, modify, gets, throw, ret. simpl.
  destruct (read_fault E file); [discriminate|]. simpl.
  destruct (files w !! file) as [data|]; [|discriminate]. simpl.
  destruct (JSON_parse E (utf8_decode E data)) as [v'|] eqn:Hparse; [|discriminate].
  intros [= <- _]. split; [reflexivity|]. exists data. split; [reflexivity|exact Hparse].
Qed.

Lemma files_same_read {A} (m : M A) (w : World) :
  within (mkFootprint (fun _ => True) (fun _ => False) (fun _ => True)) m ->
  files (snd (m w)) = files w.
Proof.
  intros H. destruct (H w) as (_ & Hf & _). apply map_eq. intros f. now apply Hf.
Qed.

Lemma convertMp3ToWav_ok (E : Env) (i : nat) (w w' : World) :
  convertMp3ToWav E (message_file i ".mp3") (message_file i ".wav") w = (Ok tt, w') ->
  exec_ok E (ffmpeg_of i) = true.
Proof.
  unfold convertMp3ToWav, execCommand, bind, emit, modify, ffmpeg_of. simpl.
  now destruct (exec_ok E _).
Qed.

Lemma within_lipSyncMessage_fine (F : Footprint) (E : Env) (i : nat) :
  may_exec F (ffmpeg_of i) ->
  may_write F (message_file i ".wav") ->
  (exec_ok E (ffmpeg_of i) = true ->
   may_exec F (rhubarb_of i) /\ may_write F (message_file i ".json")) ->
  within F (lipSyncMessage E i).
Proof.
  intros Hff Hwav Hrest w. unfold lipSyncMessage. cbv zeta.
  apply changes_bind.
  - apply within_bind; [now apply within_execCommand|intros _].
    now apply within_writeFile.
  - intros [] w1 Hconv. apply convertMp3ToWav_ok in Hconv.
    destruct (Hrest Hconv) as [Hrh Hjson].
    apply within_bind; [now apply within_execCommand|intros _].
    now apply within_writeFile.
Qed.

Lemma lipSyncMessage_ok (E : Env) (i : nat) (w w' : World) :
  lipSyncMessage E i w = (Ok tt, w') ->
  exec_ok E (ffmpeg_of i) && exec_ok E (rhubarb_of i) = true.
Proof.
  intros Hrun. pose proof (lipSyncMessage_result E i w) as Hres.
  rewrite Hrun in Hres. simpl in Hres.
  now destruct (exec_ok E (ffmpeg_of i) && exec_ok E (rhubarb_of i)).
Qed.

(** What the [try] block has read back when it reaches [cache.set]. *)
Lemma try_block_extracted (E : Env) (r : TtsResult) (w w1 w2 w3 : World)
    (audio lipsync : JsVal) :
  lipSyncMessage E (index r) w = (Ok tt, w1) ->
  audioFileToBase64 E (fileName r) w1 = (Ok audio, w2) ->
  readJsonTranscript E (message_file (index r) ".json") w2 = (Ok lipsync, w3) ->
  extracted E (index r) = Some lipsync.
Proof.
  intros Hrun Haudio Hread.
  pose proof (lipSyncMessage_ok E _ w w1 Hrun) as Hexec.
  pose proof (lipSyncMessage_json E _ w w1 Hrun) as Hjson.
  assert (Hfiles : files w2 = files w1).
  { pose proof (files_same_read (audioFileToBase64 E (fileName r)) w1
                  (within_audioFileToBase64 _ E (fileName r))) as H.
    now rewrite Haudio in H. }
  apply readJsonTranscript_ok in Hread as (Hfault & data & Hdata & Hparse).
  rewrite Hfiles, Hjson in Hdata. injection Hdata as <-.
  unfold extracted. now rewrite Hexec, Hfault.
Qed.

Lemma within_lipSyncTask_fine (F : Footprint) (E : Env) (w0 : World) (r : TtsResult) :
  lipsync_needs F E w0 r ->
  within F (lipSyncTask E r (looked_up E w0 r)).
Proof.
  intros Hneeds. unfold lipSyncTask, looked_up.
  destruct (lipSyncCacheKey (message r)) as [key|e] eqn:Hk; [|footprint].
  destruct (truthy (Cache.get (now E AtLipSync) (cache w0) key)) eqn:Hc; [footprint|].
  destruct (Hneeds key Hk Hc) as (Hff & Hwav & Hrest & Hstore).
  apply within_try_catch; [|intros; footprint].
  intros w. apply changes_bind; [now apply within_lipSyncMessage_fine|].
  intros [] w1 Hrun.
  apply changes_bind; [apply within_audioFileToBase64|].
  intros audio w2 Haudio.
  apply changes_bind; [apply within_readJsonTranscript|].
  intros lipsync w3 Hread.
  apply within_bind; [|intros; apply within_ret].
  apply within_cache_set, Hstore.
  rewrite (try_block_extracted E r w w1 w2 w3 audio lipsync Hrun Haudio Hread). eauto.
Qed.

Lemma changes_lipSyncStage_fine (F : Footprint) (E : Env) (results : list TtsResult)
    (w : World) :
  Forall (lipsync_needs F E w) results ->
  changes F w (snd (lipSyncStage E results w)).
Proof.
  intros Hall. rewrite lipSyncStage_run.
  apply within_promise_all.
  induction Hall as [|r results Hr _ IH]; simpl; constructor; auto.
  now apply within_lipSyncTask_fine.
Qed.

Lemma lipsync_needs_cache (F : Footprint) (E : Env) (w w' : World) (r : TtsResult) :
  cache w' = cache w -> lipsync_needs F E w r -> lipsync_needs F E w' r.
Proof. unfold lipsync_needs. now intros ->. Qed.

Lemma tts_stage_cache (E : Env) (vs : list JsVal) (w : World) :
  cache (snd (promise_all (imap (ttsTask E) vs) w)) = cache w.
Proof.
  pose proof (within_tts_stage (mkFootprint (fun _ => False) (fun _ => True) (fun _ => True))
                E vs (fun _ => I) w) as Hch.
  apply changes_cache_same in Hch; [exact Hch|tauto].
Qed.

(** The pipeline within a footprint that gives each lip-sync task what it
    needs step by step. *)
Lemma changes_chat_pipeline_fine (F : Footprint) (E : Env) (s cacheKey : jstring)
    (w : World) :
  may_store F cacheKey ->
  (forall i, may_write F (message_file i ".mp3")) ->
  (forall content rawContent parsed validated,
      completion E s = Some content ->
      as_string content = Ok rawContent ->
      parse_messages E (clean rawContent) = Ok parsed ->
      validate_all parsed = Ok validated ->
      Forall (lipsync_needs F E w) (imap tts_result validated)) ->
  changes F w (snd (chat_pipeline E s cacheKey w)).
Proof.
  intros Hkey Hmp3 Hlip. unfold chat_pipeline.
  apply changes_bind; [apply within_emit_quiet; reflexivity|].
  intros [] w1 Hw1. rewrite emit_run in Hw1. injection Hw1 as <-.
  destruct (completion E s) as [content|] eqn:Hcontent; [|apply changes_refl].
  apply changes_bind; [apply within_lift|].
  intros rawContent w2 Hraw. injection Hraw as Hraw <-.
  destruct (parse_messages E (clean rawContent)) as [parsed|e] eqn:Hparsed;
    [|apply within_bind; [apply within_gets|intros; apply within_status_send]].
  apply changes_bind; [apply within_lift|].
  intros validated w3 Hval. injection Hval as Hval <-.
  apply changes_bind; [now apply within_tts_stage|].
  intros ttsResults w4 Htts.
  assert (Hcache : cache w4 = cache w).
  { pose proof (tts_stage_cache E validated (with_trace (trace w ++ [EvCompletion s]) w)) as H.
    now rewrite Htts in H. }
  apply tts_stage_ok in Htts as ->.
  apply changes_bind.
  - apply changes_lipSyncStage_fine.
    eapply Forall_impl; [now apply (Hlip content rawContent parsed validated)|].
    intros r. now apply lipsync_needs_cache.
  - intros messages w5 _.
    apply within_bind; [now apply within_cache_set|]. intros; apply within_send.
Qed.

(** A request within such a footprint. *)
Lemma changes_post_chat_fine (F : Footprint) (key : jstring) (E : Env) (body : JsVal)
    (w : World) :
  (forall s, member body (lit "message") = Ok (JStr s) -> may_store F (chat_cache_key s)) ->
  (forall i, may_write F (message_file i ".mp3")) ->
  (forall s content rawContent parsed validated,
      member body (lit "message") = Ok (JStr s) ->
      completion E s = Some content ->
      as_string content = Ok rawContent ->
      parse_messages E (clean rawContent) = Ok parsed ->
      validate_all parsed = Ok validated ->
      Forall (lipsync_needs F E w) (imap tts_result validated)) ->
  changes F w (snd (post_chat key E body w)).
Proof.
  intros Hkey Hmp3 Hlip.
  destruct (member body (lit "message")) as [v|e] eqn:Hbody;
    [|rewrite (post_chat_no_message _ _ _ _ _ Hbody); apply changes_refl].
  destruct (as_string v) as [s|e] eqn:Hs.
  2:{ rewrite (post_chat_not_string _ _ _ _ _ Hbody); [apply changes_refl|].
      intros s ->. discriminate. }
  apply as_string_ok in Hs as ->.
  destruct (truthy (Cache.get (now E AtLookup) (cache w) (chat_cache_key s))) eqn:Hc;
    [rewrite (post_chat_hit _ _ _ _ _ Hbody Hc); apply changes_refl|].
  destruct s as [|c s].
  { rewrite (post_chat_greeting _ _ _ _ _ Hbody Hc eq_refl).
    apply within_bind; [footprint|intros audio].
    apply within_bind; [footprint|intros lipsync].
    apply within_bind; [apply within_cache_set; now apply Hkey|intros _].
    apply within_send. }
  destruct (no_credential key) eqn:Hcred;
    [rewrite (post_chat_no_credential _ _ _ _ _ Hbody Hc) by done; apply changes_refl|].
  rewrite (post_chat_live _ _ _ _ _ Hbody Hc) by done.
  apply changes_try_catch; [|intros; footprint].
  apply changes_chat_pipeline_fine; [now apply Hkey|exact Hmp3|].
  intros content rawContent parsed validated. now apply Hlip.
Qed.

(** ** What a request writes, runs and stores *)

(** X9: whatever the request and the answers from outside, [/chat] leaves
    every file alone that is not the speech, wave or timing file of a
    message index. *)
Theorem chat_writes_message_files_only (key : jstring) (E : Env) (body : JsVal)
    (w : World) (f : jstring) :
  (forall i, f <> message_file i ".mp3" /\ f <> message_file i ".wav"
             /\ f <> message_file i ".json") ->
  files (snd (post_chat key E body w)) !! f = files w !! f.
Proof.
  intros Hf.
  assert (Hch : changes message_files w (snd (post_chat key E body w))).
  { apply changes_post_chat_fine; [done|simpl; eauto|].
    intros s content rawContent parsed validated _ _ _ _ _.
    apply Forall_forall. intros r _ k _ _. simpl.
    split; [done|]. split; [exists (index r); auto|]. split; [|done].
    intros _. split; [done|]. exists (index r). auto. }
  destruct Hch as (_ & Hfiles & _). apply Hfiles. simpl.
  intros (i & [H|[H|H]]); now destruct (Hf i) as (? & ? & ?).
Qed.

Lemma chat_writes_message_files_only_witness :
  files (snd (post_chat (lit "secret") sample_env (chat_request (lit "hello")) sample_world))
    !! lit "audios/intro_0.wav"
  = files sample_world !! lit "audios/intro_0.wav".
Proof.
  apply (chat_writes_message_files_only (lit "secret") sample_env
           (chat_request (lit "hello")) sample_world (lit "audios/intro_0.wav")).
  intros i. unfold message_file. repeat split; discriminate.
Defined.

(** X10: the extraction command of a message index is run only when the
    conversion command of that index has succeeded. *)
Theorem extraction_only_after_conversion (key : jstring) (E : Env) (body : JsVal)
    (w : World) (i : nat) :
  EvExec (rhubarb_of i) ∈ performed (post_chat key E body) w ->
  exec_ok E (ffmpeg_of i) = true.
Proof.
  intros Hrun.
  assert (Hch : changes (ordered_commands E) w (snd (post_chat key E body w))).
  { apply changes_post_chat_fine; [done|done|].
    intros s content rawContent parsed validated _ _ _ _ _.
    apply Forall_forall. intros r _ k _ _. simpl.
    split; [left; now exists (index r)|]. split; [done|]. split; [|done].
    intros Hok. split; [|done]. right. now exists (index r). }
  destruct (changes_performed _ _ _ Hch _ Hrun) as [(j & Hj) | (j & Hj & Hok)].
  - destruct (ffmpeg_not_rhubarb i (message_file j ".mp3") (message_file j ".wav")
                (message_file i ".wav") (eq_sym Hj)).
  - now rewrite (rhubarb_command_inj i j Hj).
Qed.

Lemma extraction_only_after_conversion_witness :
  exec_ok sample_env (ffmpeg_of 0) = true.
Proof.
  apply (extraction_only_after_conversion (lit "secret") sample_env
           (chat_request (lit "hello")) sample_world 0).
  unfold performed.
  change (trace (snd (post_chat (lit "secret") sample_env (chat_request (lit "hello"))
                        sample_world)))
    with (trace (sample_after (lit "hello"))).
  rewrite sample_run_trace_ex. cbn [sample_world trace length drop].
  do 6 apply list_elem_of_further. apply list_elem_of_here.
Defined.

(** X11: apart from the response entry of the request, a request sets a cache
    entry only under the lip-sync key of a message of the reply that had
    no usable entry and whose timing data was extracted and read back:
    when that fails for every message with a given key, the entry under
    that key is left as it was, so the empty object such a message is
    returned with is not cached. *)
Theorem failed_extraction_not_cached (key : jstring) (E : Env) (body : JsVal)
    (s : jstring) (w : World) (rawContent : jstring) (parsed : JsVal) (vs : list JsVal)
    (k : jstring) :
  member body (lit "message") = Ok (JStr s) ->
  completion E s = Some (JStr rawContent) ->
  parse_messages E (clean rawContent) = Ok parsed ->
  validate_all parsed = Ok vs ->
  k <> chat_cache_key s ->
  (forall i m, vs !! i = Some m -> lipSyncCacheKey m = Ok k ->
               truthy (cached_lipsync E w m) = false -> extracted E i = None) ->
  cache (snd (post_chat key E body w)) !! k = cache w !! k.
Proof.
  intros Hbody Hcontent Hparsed Hval Hk Hfail.
  assert (Hch : changes (extracted_keys E w s vs) w (snd (post_chat key E body w))).
  { apply changes_post_chat_fine; [|done|].
    - intros s' Hs'. rewrite Hbody in Hs'. injection Hs' as <-. now left.
    - intros s' content raw' parsed' vs' Hs' Hc' Hr' Hp' Hv'.
      rewrite Hbody in Hs'. injection Hs' as <-.
      rewrite Hcontent in Hc'. injection Hc' as <-. injection Hr' as <-.
      rewrite Hparsed in Hp'. injection Hp' as <-.
      rewrite Hval in Hv'. injection Hv' as <-.
      apply Forall_lookup. intros j r Hr.
      rewrite list_lookup_imap in Hr.
      destruct (vs !! j) as [m|] eqn:Hm; [|discriminate]. injection Hr as <-.
      intros key' Hkey' Hc. simpl in *.
      repeat split; try done. intros Hex. right. exists j, m.
      repeat split; try done. unfold cached_lipsync. now rewrite Hkey'. }
  destruct Hch as (Hcache & _). apply Hcache. simpl.
  intros [Heq | (i & m & Hm & Hkey & Hno & Hex)]; [done|].
  rewrite (Hfail i m Hm Hkey Hno) in Hex. now destruct Hex.
Qed.

Lemma failed_extraction_not_cached_witness :
  cache (snd (post_chat (lit "secret") sample_env_failing (chat_request (lit "hello"))
                sample_world)) !! (lit "lipsync_Hi!")
  = cache sample_world !! (lit "lipsync_Hi!").
Proof.
  apply (failed_extraction_not_cached (lit "secret") sample_env_failing
           (chat_request (lit "hello")) (lit "hello") sample_world sample_fenced_reply
           (JArr sample_entries) sample_validated (lit "lipsync_Hi!")).
  - reflexivity.
  - reflexivity.
  - vm_compute. reflexivity.
  - reflexivity.
  - discriminate.
  - intros i m _ _ _. reflexivity.
Defined.

(** ** The join of the speech stage *)

Lemma ttsTask_requests (E : Env) (i : nat) (m : JsVal) (w : World) :
  validated m ->
  exists more,
    trace (snd (ttsTask E i m w)) = trace w ++ EvSpeech (field m (lit "text")) :: more.
Proof.
  intros Hm. unfold ttsTask, bind, lift, emit, modify, writeFile.
  rewrite (validated_text m Hm). simpl.
  destruct (speech E i (field m (lit "text"))); simpl; eexists;
    rewrite <- ?app_assoc; reflexivity.
Qed.

Lemma tts_stage_requests (E : Env) (messages : list JsVal) :
  Forall validated messages ->
  forall (k : nat) (w : World),
    exists new,
      trace (snd (promise_all (imap (fun i => ttsTask E (k + i)) messages) w)) = trace w ++ new
      /\ forall j mj, messages !! j = Some mj -> EvSpeech (field mj (lit "text")) ∈ new.
Proof.
  induction 1 as [|m ms Hm _ IH]; intros k w.
  - exists []. split; [simpl; now rewrite app_nil_r|].
    intros j mj Hj. now rewrite lookup_nil in Hj.
  - simpl imap. cbn [promise_all]. rewrite Nat.add_0_r.
    destruct (ttsTask_requests E k m w Hm) as [more Hmore].
    destruct (ttsTask E k m w) as [r w1]. simpl in Hmore.
    rewrite (imap_ext _ (fun i => ttsTask E (S k + i)))
      by (intros; simpl; f_equal; lia).
    destruct (IH (S k) w1) as (new & Hnew & Hall).
    destruct (promise_all _ w1) as [rs w2]. simpl in *.
    exists ((EvSpeech (field m (lit "text")) :: more) ++ new). split.
    + now rewrite Hnew, Hmore, <- app_assoc.
    + intros [|j] mj Hj.
      * injection Hj as <-. apply elem_of_app. left. apply list_elem_of_here.
      * apply elem_of_app. right. eauto.
Qed.

(** X12: when the speech request of a message of the reply fails, the request
    is answered with status 500 and the [error] list, and it has set no
    cache entry and run no command; the speech request of every message
    of the reply has been made all the same. *)
Theorem speech_failure_fails_request (key : jstring) (E : Env) (body : JsVal)
    (s : jstring) (w : World) (rawContent : jstring) (parsed : JsVal) (vs : list JsVal)
    (i : nat) (m : JsVal) :
  member body (lit "message") = Ok (JStr s) ->
  s <> [] ->
  truthy (Cache.get (now E AtLookup) (cache w) (chat_cache_key s)) = false ->
  no_credential key = false ->
  completion E s = Some (JStr rawContent) ->
  parse_messages E (clean rawContent) = Ok parsed ->
  validate_all parsed = Ok vs ->
  vs !! i = Some m ->
  speech_audio E i m = None ->
  exists w',
    post_chat key E body w
    = (Ok (mkResponse 500 (messages_body (error (fallbackMessages w)))), w')
    /\ cache w' = cache w
    /\ (forall c, EvExec c ∉ performed (post_chat key E body) w)
    /\ (forall j mj, vs !! j = Some mj ->
                     EvSpeech (field mj (lit "text")) ∈ performed (post_chat key E body) w).
Proof.
  intros Hbody Hs Hmiss Hkey Hcontent Hparsed Hval Hm Hfail.
  set (w1 := with_trace (trace w ++ [EvCompletion s]) w).
  destruct (promise_all (imap (ttsTask E) vs) w1) as [[rs|e] w2] eqn:Htts.
  { destruct (tts_stage_speech E vs w1 w2 rs Htts i m Hm) as [audio Haudio]. congruence. }
  assert (Hrun : post_chat key E body w
                 = (Ok (mkResponse 500 (messages_body (error (fallbackMessages w2)))), w2)).
  { rewrite (post_chat_live key E body s w Hbody Hmiss Hs Hkey).
    unfold try_catch, chat_pipeline. unfold bind at 1. rewrite emit_run, Hcontent.
    unfold bind at 1, lift at 1. cbn [as_string]. rewrite Hparsed.
    unfold bind at 1, lift at 1. rewrite Hval.
    unfold bind at 1. fold w1. rewrite Htts. apply error_handler_run. }
  assert (Hfb : fallbackMessages w2 = fallbackMessages w).
  { pose proof (keeps_post_chat E key body w) as H. now rewrite Hrun in H. }
  assert (Hcache : cache w2 = cache w).
  { pose proof (tts_stage_cache E vs w1) as H. now rewrite Htts in H. }
  assert (Hch : changes no_commands w (snd (post_chat key E body w))).
  { rewrite Hrun. simpl. apply (changes_trans no_commands w w1 w2).
    - exact (within_emit_quiet no_commands (EvCompletion s) eq_refl w).
    - pose proof (within_tts_stage no_commands E vs (fun _ => I) w1) as H.
      now rewrite Htts in H. }
  exists w2. rewrite Hfb in Hrun. split; [exact Hrun|]. split; [exact Hcache|]. split.
  - intros c Hc. exact (changes_performed no_commands _ _ Hch c Hc).
  - intros j mj Hj.
    destruct (tts_stage_requests E vs (validate_all_validated parsed vs Hval) 0 w1)
      as (new & Hnew & Hall).
    change (promise_all (imap (fun i0 => ttsTask E (0 + i0)) vs) w1)
      with (promise_all (imap (ttsTask E) vs) w1) in Hnew.
    rewrite Htts in Hnew. simpl in Hnew.
    unfold performed. rewrite Hrun. simpl. rewrite Hnew. subst w1. simpl.
    rewrite <- app_assoc, drop_app_length.
    apply list_elem_of_further. now apply (Hall j mj).
Qed.

Lemma speech_failure_fails_request_witness :
  exists w',
    post_chat (lit "secret") sample_env_refusing (chat_request (lit "hello")) sample_world
    = (Ok (mkResponse 500 (messages_body (error (fallbackMessages sample_world)))), w')
    /\ cache w' = cache sample_world
    /\ (forall c, EvExec c ∉ performed (post_chat (lit "secret") sample_env_refusing
                                          (chat_request (lit "hello"))) sample_world)
    /\ (forall j mj, sample_validated !! j = Some mj ->
                     EvSpeech (field mj (lit "text"))
                       ∈ performed (post_chat (lit "secret") sample_env_refusing
                                      (chat_request (lit "hello"))) sample_world).
Proof.
  apply (speech_failure_fails_request (lit "secret") sample_env_refusing
           (chat_request (lit "hello")) (lit "hello") sample_world sample_fenced_reply
           (JArr sample_entries) sample_validated 1 sample_oops).
  - reflexivity.
  - discriminate.
  - reflexivity.
  - reflexivity.
  - reflexivity.
  - vm_compute. reflexivity.
  - reflexivity.
  - reflexivity.
  - reflexivity.
Defined.

(** ** A reply without messages *)

(** X13: a completion that parses to the empty list is answered with status
    200 and the empty list, which is stored under the key of the request;
    the completion call is all that is done outside the process. *)
Theorem chat_empty_reply (key : jstring) (E : Env) (body : JsVal) (s : jstring)
    (w : World) (rawContent : jstring) :
  member body (lit "message") = Ok (JStr s) ->
  s <> [] ->
  truthy (Cache.get (now E AtLookup) (cache w) (chat_cache_key s)) = false ->
  no_credential key = false ->
  completion E s = Some (JStr rawContent) ->
  parse_messages E (clean rawContent) = Ok (JArr []) ->
  post_chat key E body w
  = (Ok (mkResponse 200 (messages_body (JArr []))),
     with_cache (Cache.set (now E AtStore) (cache w) (chat_cache_key s) (JArr []))
       (with_trace (trace w ++ [EvCompletion s]) w))
  /\ performed (post_chat key E body) w = [EvCompletion s].
Proof.
  intros Hbody Hs Hmiss Hkey Hcontent Hparsed.
  assert (Hrun : post_chat key E body w
                 = (Ok (mkResponse 200 (messages_body (JArr []))),
                    with_cache (Cache.set (now E AtStore) (cache w) (chat_cache_key s) (JArr []))
                      (with_trace (trace w ++ [EvCompletion s]) w))).
  { rewrite (post_chat_live key E body s w Hbody Hmiss Hs Hkey).
    unfold try_catch, chat_pipeline. unfold bind at 1. rewrite emit_run, Hcontent.
    unfold bind at 1, lift at 1. cbn [as_string]. rewrite Hparsed. reflexivity. }
  split; [exact Hrun|]. now apply (performed_app _ _ _ _ _ Hrun).
Qed.

Lemma chat_empty_reply_witness :
  post_chat (lit "secret") sample_env_empty_reply (chat_request (lit "hello")) sample_world
  = (Ok (mkResponse 200 (messages_body (JArr []))),
     with_cache (Cache.set (now sample_env_empty_reply AtStore) (cache sample_world)
                   (chat_cache_key (lit "hello")) (JArr []))
       (with_trace (trace sample_world ++ [EvCompletion (lit "hello")]) sample_world))
  /\ performed (post_chat (lit "secret") sample_env_empty_reply (chat_request (lit "hello")))
       sample_world
     = [EvCompletion (lit "hello")].
Proof.
  apply (chat_empty_reply (lit "secret") sample_env_empty_reply (chat_request (lit "hello"))
           (lit "hello") sample_world (lit "[]")).
  - reflexivity.
  - discriminate.
  - reflexivity.
  - reflexivity.
  - reflexivity.
  - reflexivity.
Defined.

(** ** Transcription *)

(** X14: a request whose body is an object is always answered, with status
    400, 200 or 500; the cache, the files and the fallback lists are left
    as they were, and at most one call goes to the transcription
    endpoint, with the audio of the request.  Status 200 is given only
    after that call, and the text of the answer is the [text] of what the
    endpoint returned for the decoded audio. *)
Theorem transcribe_answers (key : jstring) (E : Env) (body v : JsVal) (w : World) :
  member body (lit "audioBase64") = Ok v ->
  exists r w',
    post_transcribe key E body w = (Ok r, w')
    /\ cache w' = cache w /\ files w' = files w
    /\ fallbackMessages w' = fallbackMessages w
    /\ (status r = 400%Z \/ status r = 200%Z \/ status r = 500%Z)
    /\ (performed (post_transcribe key E body) w = []
        \/ performed (post_transcribe key E body) w = [EvTranscription v])
    /\ (status r = 200%Z ->
        performed (post_transcribe key E body) w = [EvTranscription v]
        /\ exists audioBuffer data,
             buffer_from E v = Some audioBuffer
             /\ transcription E audioBuffer = Some data
             /\ payload r = text_body (field data (lit "text"))).
Proof.
  intros Hbody. unfold performed, post_transcribe, bind, lift. rewrite Hbody.
  destruct (negb (truthy v) || no_credential key).
  { do 2 eexists. split; [reflexivity|]. simpl. rewrite drop_all.
    repeat split; auto; discriminate. }
  unfold try_catch.
  destruct (buffer_from E v) as [audioBuffer|].
  2:{ do 2 eexists. split; [reflexivity|]. simpl. rewrite drop_all.
      repeat split; auto; discriminate. }
  unfold bind, emit, modify. simpl.
  destruct (transcription E audioBuffer) as [data|] eqn:Hdata.
  2:{ do 2 eexists. split; [reflexivity|]. simpl. rewrite drop_app_length.
      repeat split; auto; discriminate. }
  unfold lift.
  destruct (member data (lit "text")) as [text|e] eqn:Htext;
    (do 2 eexists; split; [reflexivity|]; simpl; rewrite drop_app_length;
     repeat split; auto; try discriminate).
  exists audioBuffer, data. unfold field. rewrite Htext. auto.
Qed.

Lemma transcribe_answers_witness :
  exists r w',
    post_transcribe (lit "secret") sample_env_hearing
      (JObj [(lit "audioBase64", JStr (lit "YWI="))]) sample_world = (Ok r, w')
    /\ cache w' = cache sample_world /\ files w' = files sample_world
    /\ fallbackMessages w' = fallbackMessages sample_world
    /\ (status r = 400%Z \/ status r = 200%Z \/ status r = 500%Z)
    /\ (performed (post_transcribe (lit "secret") sample_env_hearing
                     (JObj [(lit "audioBase64", JStr (lit "YWI="))])) sample_world = []
        \/ performed (post_transcribe (lit "secret") sample_env_hearing
                        (JObj [(lit "audioBase64", JStr (lit "YWI="))])) sample_world
           = [EvTranscription (JStr (lit "YWI="))])
    /\ (status r = 200%Z ->
        performed (post_transcribe (lit "secret") sample_env_hearing
                     (JObj [(lit "audioBase64", JStr (lit "YWI="))])) sample_world
        = [EvTranscription (JStr (lit "YWI="))]
        /\ exists audioBuffer data,
             buffer_from sample_env_hearing (JStr (lit "YWI=")) = Some audioBuffer
             /\ transcription sample_env_hearing audioBuffer = Some data
             /\ payload r = text_body (field data (lit "text"))).
Proof.
  apply (transcribe_answers (lit "secret") sample_env_hearing
           (JObj [(lit "audioBase64", JStr (lit "YWI="))]) (JStr (lit "YWI=")) sample_world).
  reflexivity.
Defined.

Example transcribe_ex :
  fst (post_transcribe (lit "secret") sample_env_hearing
         (JObj [(lit "audioBase64", JStr (lit "YWI="))]) sample_world)
  = Ok (mkResponse 200 (text_body (JStr (lit "hi")))).
Proof. reflexivity. Qed.

(** ** What the lip-sync stage stores *)

Lemma cache_same_run {A} (m : M A) (w w' : World) (r : Res A) :
  within (stores_only (fun _ => False)) m -> m w = (r, w') -> cache w' = cache w.
Proof. intros H Hrun. pose proof (within_cache_same m w H) as Hc. now rewrite Hrun in Hc. Qed.

Lemma files_same_run {A} (m : M A) (w w' : World) (r : Res A) :
  within (mkFootprint (fun _ => True) (fun _ => False) (fun _ => True)) m ->
  m w = (r, w') -> files w' = files w.
Proof. intros H Hrun. pose proof (files_same_read m w H) as Hf. now rewrite Hrun in Hf. Qed.

Lemma readable_files (E : Env) (w w' : World) (file : jstring) :
  files w' !! file = files w !! file -> readable E w' file = readable E w file.
Proof. unfold readable. now intros ->. Qed.

Lemma audioFileToBase64_readable (E : Env) (file : jstring) (w w' : World) (r : Res JsVal) :
  audioFileToBase64 E file w = (r, w') ->
  readable E w file = match r with Ok _ => true | Thrown _ => false end.
Proof.
  unfold audioFileToBase64, readFile, readable, bind, emit, modify, gets, throw, ret. simpl.
  destruct (read_fault E file); [now intros [= <- _]|]. simpl.
  destruct (files w !! file) as [data|]; now intros [= <- _].
Qed.

Lemma readJsonTranscript_result (E : Env) (file : jstring) (w w' : World) (r : Res JsVal)
    (data : list byte) :
  files w !! file = Some data ->
  readJsonTranscript E file w = (r, w') ->
  (if read_fault E file then None else JSON_parse E (utf8_decode E data))
  = match r with Ok v => Some v | Thrown _ => None end.
Proof.
  intros Hdata.
  unfold readJsonTranscript, readFile, bind, emit, modify, gets, throw, ret. simpl.
  destruct (read_fault E file); [now intros [= <- _]|]. simpl. rewrite Hdata. simpl.
  destruct (JSON_parse E (utf8_decode E data)); now intros [= <- _].
Qed.

Lemma lipSyncMessage_run_result (E : Env) (i : nat) (w w' : World) (r : Res unit) :
  lipSyncMessage E i w = (r, w') ->
  exec_ok E (ffmpeg_of i) && exec_ok E (rhubarb_of i)
  = match r with Ok _ => true | Thrown _ => false end.
Proof.
  intros Hrun. pose proof (lipSyncMessage_result E i w) as Hres.
  rewrite Hrun in Hres. simpl in Hres. subst r.
  now destruct (exec_ok E (ffmpeg_of i) && exec_ok E (rhubarb_of i)).
Qed.

Lemma lipSyncMessage_frame (E : Env) (i : nat) (w w' : World) (r : Res unit) :
  lipSyncMessage E i w = (r, w') ->
  cache w' = cache w
  /\ files w' !! message_file i ".mp3" = files w !! message_file i ".mp3".
Proof.
  intros Hrun. split.
  - apply (cache_same_run _ _ _ _
             (within_lipSyncMessage (stores_only (fun _ => False)) E i I I I I) Hrun).
  - pose proof (within_lipSyncMessage (lipsync_files i) E i I I
                  (or_introl eq_refl) (or_intror eq_refl) w) as Hfoot.
    rewrite Hrun in Hfoot. exact (lipsync_files_mp3 i i w w' Hfoot).
Qed.

(** The [try] block of the task of one message ends in [cache.set]
    exactly when the timing data is extracted and the speech file is
    read; otherwise it throws and the cache is as it was. *)
Lemma try_block_cache (E : Env) (i : nat) (m : JsVal) (key : jstring) (w w1 : World)
    (res : Res JsVal) :
  (lipSyncMessage E i ;;;
   audio <- audioFileToBase64 E (message_file i ".mp3") ;;
   lipsync <- readJsonTranscript E (message_file i ".json") ;;
   cache_set E (AtLipSyncStore i) key lipsync ;;;
   ret (assign (assign m (lit "audio") audio) (lit "lipsync") lipsync)) w = (res, w1) ->
  match extracted E i with
  | Some v =>
      if readable E w (message_file i ".mp3")
      then (exists x, res = Ok x)
           /\ cache w1 = Cache.set (now E (AtLipSyncStore i)) (cache w) key v
      else (exists e, res = Thrown e) /\ cache w1 = cache w
  | None => (exists e, res = Thrown e) /\ cache w1 = cache w
  end.
Proof.
  unfold extracted.
  unfold bind at 1.
  destruct (lipSyncMessage E i w) as [[[]|e] wa] eqn:Hrun;
    rewrite (lipSyncMessage_run_result E i w wa _ Hrun);
    destruct (lipSyncMessage_frame E i w wa _ Hrun) as [Hca Hfa].
  2:{ intros [= <- <-]. simpl. split; [eauto|exact Hca]. }
  pose proof (lipSyncMessage_json E i w wa Hrun) as Hjson.
  rewrite <- (readable_files E w wa _ Hfa).
  unfold bind at 1.
  destruct (audioFileToBase64 E (message_file i ".mp3") wa) as [[audio|e] wb] eqn:Haudio;
    rewrite (audioFileToBase64_readable E _ wa wb _ Haudio).
  2:{ intros [= <- <-].
      pose proof (cache_same_run _ _ _ _
                    (within_audioFileToBase64 (stores_only (fun _ => False)) E _) Haudio)
        as Hcb.
      rewrite Hcb, Hca.
      destruct (true && negb (read_fault E (message_file i ".json")));
        [destruct (JSON_parse E _)|]; split; eauto. }
  pose proof (cache_same_run _ _ _ _ (within_audioFileToBase64 _ E _) Haudio) as Hcb.
  pose proof (files_same_run _ _ _ _ (within_audioFileToBase64 _ E _) Haudio) as Hfb.
  rewrite <- Hfb in Hjson.
  unfold bind at 1.
  destruct (readJsonTranscript E (message_file i ".json") wb) as [[lipsync|e] wc] eqn:Hread;
    pose proof (readJsonTranscript_result E _ wb wc _ _ Hjson Hread) as Hres;
    pose proof (cache_same_run _ _ _ _ (within_readJsonTranscript _ E _) Hread) as Hcc;
    simpl in Hres; intros [= <- <-]; simpl.
  - destruct (read_fault E (message_file i ".json")); [discriminate|]. simpl.
    rewrite Hres. split; [eauto|]. simpl. now rewrite Hcc, Hcb, Hca.
  - rewrite Hcc, Hcb, Hca.
    destruct (read_fault E (message_file i ".json")); simpl; [split; eauto|].
    rewrite Hres. split; eauto.
Qed.

(** What the task of one message does to the cache. *)
Lemma lipSyncTask_cache (E : Env) (w0 : World) (i : nat) (m : JsVal) (w : World) :
  cache (snd (lipSyncTask E (tts_result i m) (looked_up E w0 (tts_result i m)) w))
  = match stored_timing E w0 i m with
    | Some (key, v) =>
        if readable E w (message_file i ".mp3")
        then Cache.set (now E (AtLipSyncStore i)) (cache w) key v
        else cache w
    | None => cache w
    end.
Proof.
  unfold lipSyncTask, looked_up, stored_timing, tts_result. cbn [message fileName index].
  destruct (lipSyncCacheKey m) as [key|e]; [|reflexivity].
  destruct (truthy (Cache.get (now E AtLipSync) (cache w0) key)) eqn:Hc.
  { apply within_cache_same. footprint. }
  unfold try_catch.
  match goal with
  | |- cache (snd (let (r, w') := ?body w in _)) = _ =>
      destruct (body w) as [res w1] eqn:Hbody
  end.
  pose proof (try_block_cache E i m key w w1 res Hbody) as Hblock.
  assert (Hcatch : forall w2,
             cache (snd ((audio <- audioFileToBase64 E (message_file i ".mp3") ;;
                          ret (assign (assign m (lit "audio") audio) (lit "lipsync")
                                 (JObj []))) w2)) = cache w2).
  { intros w2. apply within_cache_same. footprint. }
  destruct (extracted E i) as [v|].
  - destruct (readable E w (message_file i ".mp3")).
    + destruct Hblock as [[x ->] Hcache]. exact Hcache.
    + destruct Hblock as [[e ->] Hcache]. now rewrite Hcatch.
  - destruct Hblock as [[e ->] Hcache]. now rewrite Hcatch.
Qed.

Lemma lipSyncTask_mp3 (E : Env) (w0 : World) (i j : nat) (m : JsVal) (w : World) :
  files (snd (lipSyncTask E (tts_result i m) (looked_up E w0 (tts_result i m)) w))
    !! message_file j ".mp3"
  = files w !! message_file j ".mp3".
Proof.
  apply (lipsync_files_mp3 i j).
  apply within_lipSyncTask. intros k _ _. simpl. tauto.
Qed.

Lemma stage_cons (E : Env) (w0 : World) (k : nat) (m : JsVal) (ms : list JsVal) (w : World) :
  snd (promise_all
         (zip_with (lipSyncTask E)
            (imap (fun i => tts_result (k + i)) (m :: ms))
            (map (looked_up E w0) (imap (fun i => tts_result (k + i)) (m :: ms)))) w)
  = snd (promise_all
           (zip_with (lipSyncTask E)
              (imap (fun i => tts_result (S k + i)) ms)
              (map (looked_up E w0) (imap (fun i => tts_result (S k + i)) ms)))
           (snd (lipSyncTask E (tts_result k m) (looked_up E w0 (tts_result k m)) w))).
Proof.
  rewrite imap_cons. cbn [map zip_with promise_all]. rewrite Nat.add_0_r.
  rewrite (imap_ext (fun i => tts_result (k + S i)) (fun i => tts_result (S k + i)))
    by (intros; f_equal; lia).
  destruct (lipSyncTask E _ _ w) as [r w1]. simpl.
  now destruct (promise_all _ w1).
Qed.

(** An entry of the cache after the stage is the one from before, or the
    timing data that the task of a message had to store under its key. *)
Lemma lipsync_stage_entries (E : Env) (w0 : World) (ms : list JsVal) (key : jstring) :
  forall (k : nat) (w : World),
    let w' := snd (promise_all
                     (zip_with (lipSyncTask E)
                        (imap (fun i => tts_result (k + i)) ms)
                        (map (looked_up E w0) (imap (fun i => tts_result (k + i)) ms))) w) in
    cache w' !! key = cache w !! key
    \/ exists j mj vj,
         ms !! j = Some mj
         /\ stored_timing E w0 (k + j) mj = Some (key, vj)
         /\ cache w' !! key
            = Some (vj, (now E (AtLipSyncStore (k + j)) + Cache.stdTTL * 1000)%Z).
Proof.
  induction ms as [|m ms IH]; intros k w; [now left|].
  cbv zeta. rewrite stage_cons.
  set (w1 := snd (lipSyncTask E (tts_result k m) (looked_up E w0 (tts_result k m)) w)).
  destruct (IH (S k) w1) as [Hsame | (j & mj & vj & Hj & Hst & Hentry)].
  - rewrite Hsame. subst w1. rewrite lipSyncTask_cache.
    destruct (stored_timing E w0 k m) as [[key0 v]|] eqn:Hst; [|now left].
    destruct (readable E w (message_file k ".mp3")); [|now left].
    destruct (decide (key0 = key)) as [->|Hne].
    + right. exists 0, m, v. rewrite Nat.add_0_r. split; [reflexivity|]. split; [exact Hst|].
      unfold Cache.set. apply lookup_insert_eq.
    + left. unfold Cache.set. now apply lookup_insert_ne.
  - right. exists (S j), mj, vj. replace (k + S j) with (S k + j) by lia. auto.
Qed.

(** When the task of a message has timing data to store and its speech
    file can be read, the key of the message holds, after the stage,
    timing data stored by this stage. *)
Lemma lipsync_stage_stores (E : Env) (w0 : World) (ms : list JsVal) (key : jstring)
    (v : JsVal) :
  forall (i k : nat) (w : World) (m : JsVal),
    ms !! i = Some m ->
    stored_timing E w0 (k + i) m = Some (key, v) ->
    readable E w (message_file (k + i) ".mp3") = true ->
    exists j mj vj,
      ms !! j = Some mj
      /\ stored_timing E w0 (k + j) mj = Some (key, vj)
      /\ cache (snd (promise_all
                       (zip_with (lipSyncTask E)
                          (imap (fun i => tts_result (k + i)) ms)
                          (map (looked_up E w0) (imap (fun i => tts_result (k + i)) ms))) w))
           !! key
         = Some (vj, (now E (AtLipSyncStore (k + j)) + Cache.stdTTL * 1000)%Z).
Proof.
  induction ms as [|m0 ms IH]; intros i k w m Hi Hst Hread; [now rewrite lookup_nil in Hi|].
  rewrite stage_cons.
  set (w1 := snd (lipSyncTask E (tts_result k m0) (looked_up E w0 (tts_result k m0)) w)).
  destruct i as [|i].
  - injection Hi as <-. rewrite Nat.add_0_r in *.
    destruct (lipsync_stage_entries E w0 ms key (S k) w1)
      as [Hsame | (j & mj & vj & Hj & Hstj & Hentry)].
    + exists 0, m0, v. rewrite Nat.add_0_r. split; [reflexivity|]. split; [exact Hst|].
      rewrite Hsame. subst w1. rewrite lipSyncTask_cache, Hst, Hread.
      unfold Cache.set. apply lookup_insert_eq.
    + exists (S j), mj, vj. replace (k + S j) with (S k + j) by lia. auto.
  - replace (k + S i) with (S k + i) in * by lia.
    destruct (IH i (S k) w1 m Hi Hst) as (j & mj & vj & Hj & Hstj & Hentry).
    { etransitivity; [|exact Hread]. apply readable_files, lipSyncTask_mp3. }
    exists (S j), mj, vj. replace (k + S j) with (S k + j) by lia. auto.
Qed.

Lemma stored_timing_cache (E : Env) (w w' : World) (i : nat) (m : JsVal) :
  cache w' = cache w -> stored_timing E w' i m = stored_timing E w i m.
Proof. unfold stored_timing. now intros ->. Qed.

Lemma stored_timing_some (E : Env) (w : World) (i : nat) (m : JsVal) (key : jstring)
    (v : JsVal) :
  stored_timing E w i m = Some (key, v)
  <-> lipSyncCacheKey m = Ok key
      /\ truthy (cached_lipsync E w m) = false
      /\ extracted E i = Some v.
Proof.
  unfold stored_timing, cached_lipsync.
  destruct (lipSyncCacheKey m) as [k|e]; [|split; [discriminate|now intros [? _]]].
  destruct (truthy (Cache.get (now E AtLipSync) (cache w) k)).
  - split; [discriminate|]. now intros (_ & ? & _).
  - destruct (extracted E i) as [v'|].
    + split; [now intros [= -> ->]|]. now intros ([= ->] & _ & [= ->]).
    + split; [discriminate|]. now intros (_ & _ & ?).
Qed.

(** X15: when the speech requests of a reply succeed, the timing data that is
    extracted for a message whose text had no usable entry, and whose
    speech file is read, is in the cache after the request, under the key
    of the text: the data of this message, or of another message of the
    reply with the same key, with the expiry of the instant at which it
    was stored.  This is so whether the request is answered with status
    200 or, because of another message, with status 500. *)
Theorem extracted_timing_cached (key : jstring) (E : Env) (body : JsVal) (s : jstring)
    (w : World) (rawContent : jstring) (parsed : JsVal) (vs : list JsVal)
    (i : nat) (m : JsVal) (k : jstring) (v : JsVal) :
  member body (lit "message") = Ok (JStr s) ->
  s <> [] ->
  truthy (Cache.get (now E AtLookup) (cache w) (chat_cache_key s)) = false ->
  no_credential key = false ->
  completion E s = Some (JStr rawContent) ->
  parse_messages E (clean rawContent) = Ok parsed ->
  validate_all parsed = Ok vs ->
  (forall j mj, vs !! j = Some mj -> is_Some (speech_audio E j mj)) ->
  vs !! i = Some m ->
  read_fault E (message_file i ".mp3") = false ->
  lipSyncCacheKey m = Ok k ->
  truthy (cached_lipsync E w m) = false ->
  extracted E i = Some v ->
  exists j mj vj,
    vs !! j = Some mj
    /\ lipSyncCacheKey mj = Ok k
    /\ truthy (cached_lipsync E w mj) = false
    /\ extracted E j = Some vj
    /\ cache (snd (post_chat key E body w)) !! k
       = Some (vj, (now E (AtLipSyncStore j) + Cache.stdTTL * 1000)%Z).
Proof.
  intros Hbody Hs Hmiss Hkey Hcontent Hparsed Hval Hspeech Hm Hfault Hk Hno Hex.
  pose proof (validate_all_validated parsed vs Hval) as Hvs.
  set (w1 := with_trace (trace w ++ [EvCompletion s]) w).
  destruct (tts_stage_run E vs Hvs 0 w1 Hspeech) as (w2 & Htts & Hfiles2 & _).
  assert (Htts' : promise_all (imap (ttsTask E) vs) w1 = (Ok (imap tts_result vs), w2))
    by exact Htts.
  assert (Hcache : cache w2 = cache w).
  { pose proof (tts_stage_cache E vs w1) as H. now rewrite Htts' in H. }
  destruct (Hspeech i m Hm) as [audio Haudio].
  assert (Hread : readable E w2 (message_file (0 + i) ".mp3") = true).
  { pose proof (Hfiles2 i m audio Hm Haudio) as Hfile.
    unfold readable. rewrite Hfile. change (0 + i) with i. now rewrite Hfault. }
  assert (Hst : stored_timing E w2 (0 + i) m = Some (k, v)).
  { rewrite (stored_timing_cache E w w2 _ m Hcache). now apply stored_timing_some. }
  destruct (lipsync_stage_stores E w2 vs k v i 0 w2 m Hm Hst Hread)
    as (j & mj & vj & Hj & Hstj & Hentry).
  rewrite (stored_timing_cache E w w2 _ mj Hcache) in Hstj.
  apply stored_timing_some in Hstj as (Hkj & Hnoj & Hexj).
  exists j, mj, vj. repeat split; try done.
  change (imap (fun i0 => tts_result (0 + i0)) vs) with (imap tts_result vs) in Hentry.
  rewrite <- lipSyncStage_run in Hentry. simpl in Hentry.
  rewrite (post_chat_live key E body s w Hbody Hmiss Hs Hkey).
  unfold try_catch, chat_pipeline. unfold bind at 1. rewrite emit_run, Hcontent.
  unfold bind at 1, lift at 1. cbn [as_string]. rewrite Hparsed.
  unfold bind at 1, lift at 1. rewrite Hval.
  unfold bind at 1. fold w1. rewrite Htts'.
  unfold bind at 1.
  destruct (lipSyncStage E (imap tts_result vs) w2) as [[ms|e] w3]; simpl in *.
  - unfold Cache.set. rewrite lookup_insert_ne; [exact Hentry|].
    intros Heq. now apply (lipsync_key_not_chat_key mj k s Hkj).
  - exact Hentry.
Qed.

Lemma extracted_timing_cached_witness :
  exists j mj vj,
    sample_validated !! j = Some mj
    /\ lipSyncCacheKey mj = Ok (lit "lipsync_Hi!")
    /\ truthy (cached_lipsync sample_env_cues sample_world mj) = false
    /\ extracted sample_env_cues j = Some vj
    /\ cache sample_cued_world !! (lit "lipsync_Hi!")
       = Some (vj, (now sample_env_cues (AtLipSyncStore j) + Cache.stdTTL * 1000)%Z).
Proof.
  apply (extracted_timing_cached (lit "secret") sample_env_cues (chat_request (lit "hello"))
           (lit "hello") sample_world sample_fenced_reply (JArr sample_entries)
           sample_validated 0 sample_hi (lit "lipsync_Hi!") sample_cues).
  - reflexivity.
  - discriminate.
  - reflexivity.
  - reflexivity.
  - reflexivity.
  - vm_compute. reflexivity.
  - reflexivity.
  - intros j mj _. eexists. reflexivity.
  - reflexivity.
  - reflexivity.
  - reflexivity.
  - reflexivity.
  - vm_compute. reflexivity.
Defined.
